(** * TCToPyRebuild: battle simulation and progression core

    A shallow embedding of [src/core] (entities, effects, items, loot,
    progression, combat) and of the stat-point path of [src/app.py], with the
    properties of the specification proved, or refuted, on it.

    Conventions of the embedding.
    - A Python number that may be an [int] or a [float] at run time is a
      [pynum]; floats are IEEE 754 binary64 values ([spec_float] at
      precision 53), ints are unbounded ([Z]).
    - A Python exception is the [Raise] case of [result].
    - A dict that is only looked up is a [gmap]; the equipment dict, whose
      iteration order reaches a floating-point product, is an ordered
      association list.
    - A JSON object read with [.get(key, default)] is a record of optional
      fields; the default is applied where the source applies it.
    - Log lines are structured values, one constructor per f-string of the
      source.
    - The module [random] is a tape of draws that the code consumes in
      order. *)

From Stdlib Require Import ZArith Bool List Lia DecimalString.
From Stdlib Require Import Floats.SpecFloat.
From stdpp Require Import gmap strings list fin_maps.
From Equations Require Import Equations.

Open Scope string_scope.
Open Scope list_scope.
Open Scope Z_scope.

(** ** Results of fallible code *)

Inductive pyexn : Type :=
| OverflowError
| ValueError
| ZeroDivisionError
| IndexError.

Inductive result (A : Type) : Type :=
| Ok (a : A)
| Raise (e : pyexn).

Arguments Ok {A} a.
Arguments Raise {A} e.

Definition rbind {A B : Type} (r : result A) (k : A -> result B) : result B :=
  match r with
  | Ok a => k a
  | Raise e => Raise e
  end.

Notation "'let*' p ':=' r 'in' k" := (rbind r (fun p => k))
  (at level 10, p pattern, r at level 100, k at level 200).


(** ** Python numbers *)

Module PyNum.

Definition prec : Z := 53.
Definition emax : Z := 1024.

Definition fadd : spec_float -> spec_float -> spec_float := SFadd prec emax.
Definition fsub : spec_float -> spec_float -> spec_float := SFsub prec emax.
Definition fmul : spec_float -> spec_float -> spec_float := SFmul prec emax.
Definition fdiv : spec_float -> spec_float -> spec_float := SFdiv prec emax.

(** The float literals of the source. [0.2] is the binary64 value nearest to
    one fifth, 7205759403792794 * 2^-55. *)
Definition f0_0 : spec_float := S754_zero false.
Definition f1_0 : spec_float := S754_finite false 4503599627370496 (-52).
Definition f0_2 : spec_float := S754_finite false 7205759403792794 (-55).

Inductive pynum : Type :=
| PInt (z : Z)
| PFloat (f : spec_float).

(** [float(n)] of an int: correctly rounded, [OverflowError] when the int is
    too large for a double. *)
Definition float_of_int (z : Z) : result spec_float :=
  match binary_normalize prec emax z 0 false with
  | S754_infinity _ => Raise OverflowError
  | f => Ok f
  end.

Definition py_float (x : pynum) : result spec_float :=
  match x with
  | PInt z => float_of_int z
  | PFloat f => Ok f
  end.

(** [int(x)] of a float truncates toward zero; it raises on nan and inf. *)
Definition float_trunc (f : spec_float) : result Z :=
  match f with
  | S754_nan => Raise ValueError
  | S754_infinity _ => Raise OverflowError
  | S754_zero _ => Ok 0
  | S754_finite s m e =>
      let a := Z.shiftl (Zpos m) e in
      Ok (if s then - a else a)
  end.

Definition py_int (x : pynum) : result Z :=
  match x with
  | PInt z => Ok z
  | PFloat f => float_trunc f
  end.

(** Binary arithmetic: int with int stays int, anything else goes through
    float. *)
Definition py_binop (iop : Z -> Z -> Z)
    (fop : spec_float -> spec_float -> spec_float) (x y : pynum) : result pynum :=
  match x, y with
  | PInt a, PInt b => Ok (PInt (iop a b))
  | _, _ =>
      let* a := py_float x in
      let* b := py_float y in
      Ok (PFloat (fop a b))
  end.

Definition py_add : pynum -> pynum -> result pynum := py_binop Z.add fadd.
Definition py_sub : pynum -> pynum -> result pynum := py_binop Z.sub fsub.
Definition py_mul : pynum -> pynum -> result pynum := py_binop Z.mul fmul.

(** True division [x / y]. The quotient of two ints is correctly rounded. *)
Definition int_true_div (a b : Z) : result spec_float :=
  if b =? 0 then Raise ZeroDivisionError
  else
    let s := xorb (a <? 0) (b <? 0) in
    if a =? 0 then Ok (S754_zero s)
    else
      let '(mz, ez, lz) := SFdiv_core_binary prec emax (Z.abs a) 0 (Z.abs b) 0 in
      match binary_round_aux prec emax s mz ez lz with
      | S754_infinity _ => Raise OverflowError
      | f => Ok f
      end.

Definition float_is_zero (f : spec_float) : bool :=
  match f with
  | S754_zero _ => true
  | _ => false
  end.

Definition py_truediv (x y : pynum) : result pynum :=
  match x, y with
  | PInt a, PInt b => let* f := int_true_div a b in Ok (PFloat f)
  | _, _ =>
      let* a := py_float x in
      let* b := py_float y in
      if float_is_zero b then Raise ZeroDivisionError
      else Ok (PFloat (fdiv a b))
  end.

(** Comparisons. An int and a float are compared exactly, and every
    comparison with nan is false. *)
Definition float_compare_int (f : spec_float) (z : Z) : option comparison :=
  match f with
  | S754_nan => None
  | S754_infinity s => Some (if s then Lt else Gt)
  | S754_zero _ => Some (0 ?= z)
  | S754_finite s m e =>
      let sm := if s then Zneg m else Zpos m in
      Some (match e with
            | Zneg p => sm ?= z * 2 ^ Zpos p
            | _ => sm * 2 ^ e ?= z
            end)
  end.

Definition py_compare (x y : pynum) : option comparison :=
  match x, y with
  | PInt a, PInt b => Some (a ?= b)
  | PFloat a, PFloat b => SFcompare a b
  | PFloat a, PInt b => float_compare_int a b
  | PInt a, PFloat b => option_map CompOpp (float_compare_int b a)
  end.

Definition py_lt (x y : pynum) : bool :=
  match py_compare x y with Some Lt => true | _ => false end.
Definition py_le (x y : pynum) : bool :=
  match py_compare x y with Some Lt | Some Eq => true | _ => false end.
Definition py_gt (x y : pynum) : bool :=
  match py_compare x y with Some Gt => true | _ => false end.

(** [max(a, b)] keeps [a] unless [b > a]; [min(a, b)] keeps [a] unless
    [b < a]. *)
Definition py_max (a b : pynum) : pynum := if py_gt b a then b else a.
Definition py_min (a b : pynum) : pynum := if py_lt b a then b else a.

End PyNum.
Export PyNum.

(** ** The random module

    [random.random()] returns k / 2^53 for an integer 0 <= k < 2^53,
    [random.choice] and [random.randint] draw an index below a bound. The
    generator is a tape of draws and a cursor; each call consumes one draw. *)

Module Rng.

Record rng : Type := mkRng { tape : nat -> N; cursor : nat }.

Definition next (g : rng) : N * rng :=
  (tape g (cursor g), mkRng (tape g) (S (cursor g))).

Definition random (g : rng) : spec_float * rng :=
  let '(k, g') := next g in
  (binary_normalize prec emax (Z.of_N k mod 2 ^ 53) (-53) false, g').

Definition randbelow (n : Z) (g : rng) : Z * rng :=
  let '(k, g') := next g in (Z.of_N k mod n, g').

(** [random.choice(pool)]; an empty pool raises [IndexError]. *)
Definition choice {A : Type} (pool : list A) (g : rng) : result (A * rng) :=
  let '(i, g') := randbelow (Z.of_nat (length pool)) g in
  match pool !! Z.to_nat i with
  | Some x => Ok (x, g')
  | None => Raise IndexError
  end.

(** [random.randint(a, b)]; an empty range raises [ValueError]. *)
Definition randint (a b : Z) (g : rng) : result (Z * rng) :=
  if b <? a then Raise ValueError
  else let '(i, g') := randbelow (b - a + 1) g in Ok (a + i, g').

End Rng.

(** ** Truthiness and [or] on optional strings *)

Definition str_truthy (s : option string) : bool :=
  match s with
  | Some s => negb (String.eqb s "")
  | None => false
  end.

Definition str_or (a b : option string) : option string :=
  if str_truthy a then a else b.

(** [d.get(k, 0)] on a dict of ints. *)
Definition get0 (d : gmap string Z) (k : string) : Z := default 0 (d !! k).

(** [for key, val in src.items(): bonus[key] = bonus.get(key, 0) + int(val)] *)
Definition add_all (src bonus : gmap string Z) : gmap string Z :=
  map_fold (fun k v b => <[k := get0 b k + v]> b) bonus src.

(** An ordered dict as an association list: [d.get(k)] and [d[k] = v]. *)
Fixpoint od_get {V : Type} (d : list (string * V)) (k : string) : option V :=
  match d with
  | [] => None
  | (k', v) :: d' => if String.eqb k' k then Some v else od_get d' k
  end.

Fixpoint od_set {V : Type} (d : list (string * V)) (k : string) (v : V) : list (string * V) :=
  match d with
  | [] => [(k, v)]
  | (k', v') :: d' => if String.eqb k' k then (k, v) :: d' else (k', v') :: od_set d' k v
  end.

(** ** Catalog content: the JSON objects of skills, items and monsters *)

Module Data.

(** An [apply_effect] spec of a skill, also built on the fly by the engine. *)
Record effect_spec : Type := mkEffectSpec {
  es_type : option string;
  es_effect : option string;
  es_chance : option pynum;
  es_duration : option Z;
  es_power : option pynum;
  es_stats : option (gmap string Z);
  es_note : option string;
  es_source : option string;
  es_target : option string
}.

Inductive apply_spec : Type :=
| ApplyNone
| ApplyDict (e : effect_spec)
| ApplyList (l : list effect_spec).

Record scale_dict : Type := mkScale {
  sc_attack : option pynum;
  sc_magic : option pynum
}.

Record skill_def : Type := mkSkill {
  sk_name : option string;
  sk_base_physical : option pynum;
  sk_base_magic : option pynum;
  sk_scale : option scale_dict;
  sk_apply_effect : apply_spec
}.

Record special_dict : Type := mkSpecial {
  sp_type : option string;
  sp_stat : option string;
  sp_mult : option pynum;
  sp_chance : option pynum;
  sp_effect : option string;
  sp_duration : option Z;
  sp_power : option pynum
}.

Record use_effect_dict : Type := mkUseEffect {
  ue_type : option string;
  ue_power : option Z;
  ue_remove : option (list string);
  ue_duration : option Z;
  ue_stats : option (gmap string Z)
}.

Record item_def : Type := mkItem {
  it_name : option string;
  it_type : option string;
  it_slot : option string;
  it_stats : option (gmap string Z);
  it_special : option special_dict;
  it_use_effect : option use_effect_dict
}.

Record drop_entry : Type := mkDropEntry {
  de_item : option string;
  de_chance : option pynum;
  de_min : option Z;
  de_max : option Z
}.

Record gimmick_action : Type := mkGimmickAction {
  ga_type : option string;
  ga_target : option string;
  ga_effect : option string;
  ga_duration : option Z;
  ga_power : option pynum
}.

Record gimmick : Type := mkGimmick {
  gm_once : option bool;
  gm_trigger : option string;
  gm_n : option Z;
  gm_ratio : option pynum;
  gm_action : option gimmick_action
}.

(** [DataStore]: the three catalogs the engine reads. *)
Record DataStore : Type := mkDataStore {
  ds_skills : gmap string skill_def;
  ds_items : gmap string item_def;
  ds_drop_tables : gmap string (list drop_entry)
}.

(** [DataStore.get_item] *)
Definition get_item (ds : DataStore) (item_id : string) : option item_def :=
  ds_items ds !! item_id.

End Data.
Export Data.

(** ** Log lines and returned messages *)

Inductive message : Type :=
| MsgItemNotFound            (* 아이템을 찾을 수 없습니다. *)
| MsgOnlyEquipment           (* 장비만 장착할 수 있습니다. *)
| MsgBadEquipSlot            (* 장착할 슬롯이 올바르지 않습니다. *)
| MsgNotInInventory          (* 인벤토리에 해당 장비가 없습니다. *)
| MsgEquipped (n : string)   (* {name} 장착! *)
| MsgBadUnequipSlot          (* 해제할 슬롯이 올바르지 않습니다. *)
| MsgNothingEquipped         (* 해제할 장비가 없습니다. *)
| MsgUnequipped (n : string) (* {name} 해제 *)
| MsgOnlyConsumable          (* 소모품만 사용할 수 있습니다. *)
| MsgHealed                  (* 회복 완료 *)
| MsgCleansed                (* 해제 완료 *)
| MsgNoChange                (* 변동 없음 *)
| MsgBuffed                  (* 버프 적용 *)
| MsgUnknownConsumable.      (* 알 수 없는 소모품 *)

Inductive log_line : Type :=
| LogBattleStart (enemy_name : string)
| LogNoSuchItem                                   (* 해당 아이템이 없습니다 *)
| LogMessage (m : message)
| LogDrops (display : list (string * Z))          (* 드랍: ... *)
| LogUnknownSkill                                 (* 알 수 없는 스킬 *)
| LogPlayerSkill (skill_name : string)
| LogDamageToEnemy (phys mag : Z)
| LogEnemyHp (h : pynum) (max : Z)
| LogEnemySkill (attacker_name skill_name : string)
| LogDamageToPlayer (phys mag : Z)
| LogPlayerHp (h : pynum) (max : Z)
| LogLifesteal (before after : pynum)             (* 흡혈 발동 *)
| LogEffectFailed                                 (* 효과 실패! *)
| LogHeal (target_name : string) (amount : Z)
| LogBuff (target_name : string) (delta : gmap string Z) (turns : Z)
| LogDebuff (target_name : string) (delta : gmap string Z) (turns : Z)
| LogBleed (target_name : string) (turns : Z)
| LogStun (target_name : string) (turns : Z)      (* {name} 기절! ({duration}턴) *)
| LogUnknownEffect (effect_type : option string)
| LogBleedTick (target_name : string) (pow : spec_float) (before after : pynum)
| LogEffectEnd (target_name : string) (effect_kind : string)
| LogCannotAct (target_name : string)             (* 기절해 움직일 수 없다! *)
| LogItemUse (item_name : string)
| LogItemHeal (pow : Z) (before after : pynum)
| LogCleanse (removed : list string)
| LogNothingToCleanse
| LogExp (amount : Z)                             (* EXP +{amount} *)
| LogLevelUp (new_level : Z).                     (* 레벨업! Lv {level} / 스탯 포인트 +4 *)

(** ** entities.py *)

Module Entities.

Record Stats : Type := mkStats {
  attack : Z;
  magic : Z;
  defense : Z;
  magic_resist : Z;
  max_hp : Z
}.

(** [Stats.with_bonus] *)
Definition with_bonus (s : Stats) (bonus : gmap string Z) : Stats :=
  {| attack := attack s + get0 bonus "attack";
     magic := magic s + get0 bonus "magic";
     defense := defense s + get0 bonus "defense";
     magic_resist := magic_resist s + get0 bonus "magic_resist";
     max_hp := max_hp s + get0 bonus "max_hp" |}.

(** [effects.EffectInstance] *)
Record EffectInstance : Type := mkEffect {
  kind : string;
  duration : Z;
  power : spec_float;
  stats_delta : gmap string Z;
  source : option string
}.

Record BattleResult : Type := mkBattleResult {
  winner : string;
  exp_reward : Z;                       (* field [exp] *)
  drops : list (string * Z);            (* display strings "{name} x{qty}" *)
  drop_details : list (string * Z);
  result_logs : list log_line           (* field [logs] *)
}.

Record Actor : Type := mkActor {
  name : string;
  stats : Stats;
  hp : pynum;
  skills : list string;
  effects : list EffectInstance
}.

Definition set_hp (a : Actor) (h : pynum) : Actor :=
  {| name := name a; stats := stats a; hp := h; skills := skills a; effects := effects a |}.

Definition set_effects (a : Actor) (l : list EffectInstance) : Actor :=
  {| name := name a; stats := stats a; hp := hp a; skills := skills a; effects := l |}.

(** [Actor.apply_damage]: [self.hp = max(0, self.hp - amount)] *)
Definition apply_damage (a : Actor) (amount : Z) : result Actor :=
  let* d := py_sub (hp a) (PInt amount) in
  Ok (set_hp a (py_max (PInt 0) d)).

(** [Actor.is_dead], also the tests [hp <= 0] written inline. *)
Definition is_dead (a : Actor) : bool := py_le (hp a) (PInt 0).

(** [Actor._effect_bonus] *)
Definition effect_counts (e : EffectInstance) : bool :=
  (0 <? duration e)
  && (String.eqb (kind e) "buff_stats" || String.eqb (kind e) "debuff_stats").

Definition _effect_bonus (a : Actor) : gmap string Z :=
  fold_left
    (fun bonus e => if effect_counts e then add_all (stats_delta e) bonus else bonus)
    (effects a) ∅.

(** [Actor.get_total_stats], the one the enemy uses. *)
Definition actor_total_stats (a : Actor) : Stats :=
  with_bonus (stats a) (_effect_bonus a).

Record Player : Type := mkPlayer {
  p_actor : Actor;
  player_id : string;
  level : Z;
  exp : Z;
  exp_to_next : Z;
  stat_points : Z;
  inventory : gmap string Z;
  equipment : list (string * option string);
  allocated_stats : gmap string Z;
  base_stats : Stats
}.

Definition set_p_actor (p : Player) (a : Actor) : Player :=
  {| p_actor := a; player_id := player_id p; level := level p; exp := exp p;
     exp_to_next := exp_to_next p; stat_points := stat_points p;
     inventory := inventory p; equipment := equipment p;
     allocated_stats := allocated_stats p; base_stats := base_stats p |}.

Definition set_inventory (p : Player) (inv : gmap string Z) : Player :=
  {| p_actor := p_actor p; player_id := player_id p; level := level p; exp := exp p;
     exp_to_next := exp_to_next p; stat_points := stat_points p;
     inventory := inv; equipment := equipment p;
     allocated_stats := allocated_stats p; base_stats := base_stats p |}.

Definition set_equipment (p : Player) (eq : list (string * option string)) : Player :=
  {| p_actor := p_actor p; player_id := player_id p; level := level p; exp := exp p;
     exp_to_next := exp_to_next p; stat_points := stat_points p;
     inventory := inventory p; equipment := eq;
     allocated_stats := allocated_stats p; base_stats := base_stats p |}.

Definition set_progress (p : Player) (lv ex sp : Z) : Player :=
  {| p_actor := p_actor p; player_id := player_id p; level := lv; exp := ex;
     exp_to_next := exp_to_next p; stat_points := sp;
     inventory := inventory p; equipment := equipment p;
     allocated_stats := allocated_stats p; base_stats := base_stats p |}.

Definition set_allocation (p : Player) (sp : Z) (alloc : gmap string Z) : Player :=
  {| p_actor := p_actor p; player_id := player_id p; level := level p; exp := exp p;
     exp_to_next := exp_to_next p; stat_points := sp;
     inventory := inventory p; equipment := equipment p;
     allocated_stats := alloc; base_stats := base_stats p |}.

(** The item a slot resolves to in [Player.total_stats]: [None] for an empty
    slot, without a resolver, or for an id the catalog does not know.
    [if items:] makes an empty catalog count as no catalog. *)
Definition resolver (items : option (gmap string item_def)) : option (string -> option item_def) :=
  match items with
  | Some m => if decide (m = ∅) then None else Some (fun item_id => m !! item_id)
  | None => None
  end.

Definition slot_item (items : option (gmap string item_def)) (item_id : option string)
    : option item_def :=
  match item_id with
  | Some i =>
      if str_truthy (Some i) then
        match resolver items with
        | Some r => r i
        | None => None
        end
      else None
  | None => None
  end.

(** First loop of [total_stats]: the stats of every equipped item are added
    to [bonus]. *)
Definition equip_bonus (items : option (gmap string item_def))
    (eq : list (string * option string)) (bonus : gmap string Z) : gmap string Z :=
  fold_left
    (fun b (se : string * option string) =>
       match slot_item items (snd se) with
       | Some obj => add_all (default ∅ (it_stats obj)) b
       | None => b
       end)
    eq bonus.

Definition stat_keys : list string :=
  ["attack"; "magic"; "defense"; "magic_resist"; "max_hp"].

Definition multipliers_init : gmap string spec_float :=
  list_to_map (map (fun k => (k, f1_0)) stat_keys).

(** Body of the second loop for one item: a [stat_multiplier] special with a
    known stat and a multiplier above zero scales that stat's factor. *)
Definition apply_multiplier (obj : item_def) (mults : gmap string spec_float)
    : result (gmap string spec_float) :=
  match it_special obj with
  | Some sp =>
      if decide (sp_type sp = Some "stat_multiplier") then
        let* mult := py_float (default (PFloat f1_0) (sp_mult sp)) in
        match sp_stat sp with
        | Some stat_key =>
            match mults !! stat_key with
            | Some cur =>
                if py_gt (PFloat mult) (PInt 0)
                then Ok (<[stat_key := fmul cur mult]> mults)
                else Ok mults
            | None => Ok mults
            end
        | None => Ok mults
        end
      else Ok mults
  | None => Ok mults
  end.

Fixpoint equip_multipliers (items : option (gmap string item_def))
    (eq : list (string * option string)) (mults : gmap string spec_float)
    : result (gmap string spec_float) :=
  match eq with
  | [] => Ok mults
  | (_, item_id) :: eq' =>
      match slot_item items item_id with
      | Some obj =>
          let* mults' := apply_multiplier obj mults in
          equip_multipliers items eq' mults'
      | None => equip_multipliers items eq' mults
      end
  end.

(** [multipliers[key]] for one of the five keys, which are always present. *)
Definition mult_at (mults : gmap string spec_float) (k : string) : spec_float :=
  default f1_0 (mults !! k).

(** [int(base.field * multipliers[field])] *)
Definition scaled (base : Z) (m : spec_float) : result Z :=
  let* x := py_mul (PInt base) (PFloat m) in
  py_int x.

(** [Player.total_stats] *)
Definition total_stats (p : Player) (items : option (gmap string item_def)) : result Stats :=
  let bonus := allocated_stats p in
  let bonus := equip_bonus items (equipment p) bonus in
  let* multipliers := equip_multipliers items (equipment p) multipliers_init in
  let bonus := add_all (_effect_bonus (p_actor p)) bonus in
  let base := with_bonus (base_stats p) bonus in
  let* a := scaled (attack base) (mult_at multipliers "attack") in
  let* m := scaled (magic base) (mult_at multipliers "magic") in
  let* d := scaled (defense base) (mult_at multipliers "defense") in
  let* r := scaled (magic_resist base) (mult_at multipliers "magic_resist") in
  let* h := scaled (max_hp base) (mult_at multipliers "max_hp") in
  Ok (mkStats a m d r h).

Record Enemy : Type := mkEnemy {
  e_actor : Actor;
  enemy_id : string;
  ai : string;
  gimmicks : list (option gimmick);
  drop_table : option string;
  is_boss : bool
}.

Definition set_e_actor (e : Enemy) (a : Actor) : Enemy :=
  {| e_actor := a; enemy_id := enemy_id e; ai := ai e; gimmicks := gimmicks e;
     drop_table := drop_table e; is_boss := is_boss e |}.

(** A battle participant: [isinstance(x, Player)] is the constructor test. *)
Inductive combatant : Type :=
| CPlayer (p : Player)
| CEnemy (e : Enemy).

Definition actor_of (c : combatant) : Actor :=
  match c with
  | CPlayer p => p_actor p
  | CEnemy e => e_actor e
  end.

Definition with_actor (c : combatant) (a : Actor) : combatant :=
  match c with
  | CPlayer p => CPlayer (set_p_actor p a)
  | CEnemy e => CEnemy (set_e_actor e a)
  end.

(** [x.get_total_stats(items)] with method dispatch: the player's
    [total_stats], the base actor's for an enemy. *)
Definition get_total_stats (c : combatant) (items : option (gmap string item_def))
    : result Stats :=
  match c with
  | CPlayer p => total_stats p items
  | CEnemy e => Ok (actor_total_stats (e_actor e))
  end.

End Entities.
Export Entities.

(** ** effects.py *)

Module Effects.

(** [roll_chance]: [rng.random() <= chance] *)
Definition roll_chance (chance : spec_float) (g : Rng.rng) : bool * Rng.rng :=
  let '(r, g') := Rng.random g in (SFleb r chance, g').

(** [has_effect] *)
Definition has_effect (a : Actor) (effect_kind : string) : bool :=
  existsb (fun e => String.eqb (kind e) effect_kind && (0 <? duration e)) (effects a).

(** [_target_max_hp] *)
Definition _target_max_hp (target : combatant) (items : option (gmap string item_def))
    : result Z :=
  let* s := get_total_stats target items in Ok (max_hp s).

(** [str(effect_type)] *)
Definition str_of (t : option string) : string := default "None" t.

Definition append_effect (target : combatant) (inst : EffectInstance) : combatant :=
  with_actor target (set_effects (actor_of target) (effects (actor_of target) ++ [inst])).

(** [apply_effect] *)
Definition apply_effect (target : combatant) (spec : effect_spec) (logs : list log_line)
    (g : Rng.rng) (items : option (gmap string item_def))
    : result (combatant * list log_line * Rng.rng) :=
  let effect_type := str_or (es_type spec) (es_effect spec) in
  let* chance := py_float (default (PFloat f1_0) (es_chance spec)) in
  let dur := default 0 (es_duration spec) in
  let* pow := py_float (default (PInt 0) (es_power spec)) in
  let delta := default ∅ (es_stats spec) in
  let src := str_or (es_note spec) (es_source spec) in
  let '(failed, g1) :=
    if SFltb chance f1_0
    then let '(hit, g') := roll_chance chance g in (negb hit, g')
    else (false, g) in
  if failed then Ok (target, logs ++ [LogEffectFailed], g1)
  else
    let tname := name (actor_of target) in
    if decide (effect_type = Some "heal") then
      let before := hp (actor_of target) in
      let* mx := _target_max_hp target items in
      let* amount := float_trunc pow in
      let* healed := py_add before (PInt amount) in
      Ok (with_actor target (set_hp (actor_of target) (py_min (PInt mx) healed)),
          logs ++ [LogHeal tname amount], g1)
    else if decide (effect_type = Some "lifesteal") then Ok (target, logs, g1)
    else
      let inst := mkEffect (str_of effect_type) dur pow delta src in
      if decide (effect_type = Some "buff_stats") then
        Ok (append_effect target inst, logs ++ [LogBuff tname delta dur], g1)
      else if decide (effect_type = Some "debuff_stats") then
        Ok (append_effect target inst, logs ++ [LogDebuff tname delta dur], g1)
      else if decide (effect_type = Some "bleed") then
        Ok (append_effect target inst, logs ++ [LogBleed tname dur], g1)
      else if decide (effect_type = Some "stun") then
        Ok (append_effect target inst, logs ++ [LogStun tname dur], g1)
      else Ok (target, logs ++ [LogUnknownEffect effect_type], g1).

Definition set_duration (e : EffectInstance) (d : Z) : EffectInstance :=
  mkEffect (kind e) d (power e) (stats_delta e) (source e).

(** The loop of [tick_end_of_turn] over a copy of the effect list: a bleed
    takes [power] off the hp, then every effect loses one turn and is kept
    only while turns remain. *)
Fixpoint tick_loop (tname : string) (effs : list EffectInstance) (h : pynum)
    (logs : list log_line) (remaining : list EffectInstance)
    : result (pynum * list log_line * list EffectInstance) :=
  match effs with
  | [] => Ok (h, logs, remaining)
  | effect :: effs' =>
      let* (h1, logs1) :=
        if String.eqb (kind effect) "bleed" then
          let* d := py_sub h (PFloat (power effect)) in
          let h' := py_max (PInt 0) d in
          Ok (h', logs ++ [LogBleedTick tname (power effect) h h'])
        else Ok (h, logs) in
      let effect' := set_duration effect (duration effect - 1) in
      if 0 <? duration effect'
      then tick_loop tname effs' h1 logs1 (remaining ++ [effect'])
      else tick_loop tname effs' h1 (logs1 ++ [LogEffectEnd tname (kind effect')]) remaining
  end.

(** [tick_end_of_turn] *)
Definition tick_end_of_turn (a : Actor) (logs : list log_line)
    : result (Actor * list log_line) :=
  let* (h, logs', remaining) := tick_loop (name a) (effects a) (hp a) logs [] in
  Ok (set_effects (set_hp a h) remaining, logs').

(** [clear_all_battle_effects] *)
Definition clear_all_battle_effects (a : Actor) : Actor := set_effects a [].

(** [can_act] *)
Definition can_act (a : Actor) (logs : list log_line) : bool * list log_line :=
  if has_effect a "stun" then (false, logs ++ [LogCannotAct (name a)])
  else (true, logs).

End Effects.
Export Effects.

(** ** items.py

    [_ensure_inventory_dict] is the identity here: the inventory is a dict of
    counts, the list form of old saves being excluded by the type. *)

Module Items.

Definition valid_slot (slot : option string) : bool :=
  match slot with
  | Some s => String.eqb s "weapon" || String.eqb s "armor" || String.eqb s "accessory"
  | None => false
  end.

(** [add_item_to_inventory] *)
Definition add_item_to_inventory (p : Player) (item_id : string) (qty : Z) : Player :=
  let inv := inventory p in
  set_inventory p (<[item_id := get0 inv item_id + Z.max 1 qty]> inv).

(** [remove_item_from_inventory] *)
Definition remove_item_from_inventory (p : Player) (item_id : string) (qty : Z)
    : bool * Player :=
  let inv := inventory p in
  let need := Z.max 1 qty in
  if get0 inv item_id <? need then (false, p)
  else
    let left := get0 inv item_id - need in
    if left <=? 0 then (true, set_inventory p (delete item_id inv))
    else (true, set_inventory p (<[item_id := left]> inv)).

(** [player.equipment.get(slot)]: a missing key and a stored [None] read the
    same. *)
Definition equipped (p : Player) (slot : string) : option string :=
  match od_get (equipment p) slot with
  | Some v => v
  | None => None
  end.

(** [equip_item] *)
Definition equip_item (p : Player) (item_id : string) (ds : DataStore)
    : bool * message * Player :=
  match get_item ds item_id with
  | None => (false, MsgItemNotFound, p)
  | Some item =>
      if negb (bool_decide (it_type item = Some "equipment")) then (false, MsgOnlyEquipment, p)
      else if negb (valid_slot (it_slot item)) then (false, MsgBadEquipSlot, p)
      else if get0 (inventory p) item_id <=? 0 then (false, MsgNotInInventory, p)
      else
        let slot := default "" (it_slot item) in
        let prev := equipped p slot in
        let p1 := if str_truthy prev then add_item_to_inventory p (default "" prev) 1 else p in
        let p2 := set_equipment p1 (od_set (equipment p1) slot (Some item_id)) in
        let p3 := snd (remove_item_from_inventory p2 item_id 1) in
        (true, MsgEquipped (default item_id (it_name item)), p3)
  end.

(** [unequip_slot] *)
Definition unequip_slot (p : Player) (slot : string) (ds : DataStore)
    : bool * message * Player :=
  if negb (valid_slot (Some slot)) then (false, MsgBadUnequipSlot, p)
  else
    let current := equipped p slot in
    if negb (str_truthy current) then (false, MsgNothingEquipped, p)
    else
      let cur := default "" current in
      let p1 := add_item_to_inventory p cur 1 in
      let p2 := set_equipment p1 (od_set (equipment p1) slot None) in
      let item_name :=
        match get_item ds cur with
        | Some item => default cur (it_name item)
        | None => cur
        end in
      (true, MsgUnequipped item_name, p2).

(** [apply_consumable_in_battle]. The buff branch swallows an exception of
    the final hp clamp ([try ... except Exception: pass]). *)
Definition apply_consumable_in_battle (p : Player) (item_id : string) (ds : DataStore)
    (logs : list log_line) (g : Rng.rng)
    : result (bool * message * Player * list log_line * Rng.rng) :=
  match get_item ds item_id with
  | None => Ok (false, MsgItemNotFound, p, logs, g)
  | Some item =>
      if negb (bool_decide (it_type item = Some "consumable"))
      then Ok (false, MsgOnlyConsumable, p, logs, g)
      else
        let effect := it_use_effect item in
        let effect_type := match effect with Some e => ue_type e | None => None end in
        let logs := logs ++ [LogItemUse (default item_id (it_name item))] in
        if decide (effect_type = Some "heal") then
          let pow := default 0 (match effect with Some e => ue_power e | None => None end) in
          let before := hp (p_actor p) in
          let* s := total_stats p (Some (ds_items ds)) in
          let* healed := py_add before (PInt pow) in
          let h := py_min (PInt (max_hp s)) healed in
          Ok (true, MsgHealed, set_p_actor p (set_hp (p_actor p) h),
              logs ++ [LogItemHeal pow before h], g)
        else if decide (effect_type = Some "cleanse") then
          let remove_list :=
            default [] (match effect with Some e => ue_remove e | None => None end) in
          let kept :=
            List.filter (fun e => negb (bool_decide (kind e ∈ remove_list)))
              (effects (p_actor p)) in
          let removed := Z.of_nat (length (effects (p_actor p))) - Z.of_nat (length kept) in
          let p' := set_p_actor p (set_effects (p_actor p) kept) in
          if 0 <? removed
          then Ok (true, MsgCleansed, p', logs ++ [LogCleanse remove_list], g)
          else Ok (true, MsgNoChange, p', logs ++ [LogNothingToCleanse], g)
        else if decide (effect_type = Some "buff_stats") then
          let spec :=
            {| es_type := Some "buff_stats"; es_effect := None; es_chance := None;
               es_duration :=
                 Some (default 1 (match effect with Some e => ue_duration e | None => None end));
               es_power := None;
               es_stats :=
                 Some (default ∅ (match effect with Some e => ue_stats e | None => None end));
               es_note := None; es_source := None; es_target := Some "self" |} in
          let* (c, logs', g') := apply_effect (CPlayer p) spec logs g (Some (ds_items ds)) in
          let p1 := match c with CPlayer q => q | CEnemy _ => p end in
          let p2 :=
            match total_stats p1 (Some (ds_items ds)) with
            | Ok s => set_p_actor p1 (set_hp (p_actor p1) (py_min (hp (p_actor p1)) (PInt (max_hp s))))
            | Raise _ => p1
            end in
          Ok (true, MsgBuffed, p2, logs', g')
        else Ok (false, MsgUnknownConsumable, p, logs, g)
  end.

End Items.

(** ** loot.py *)

Module Loot.

(** The loop of [roll_drop] over the entries of the table. *)
Fixpoint roll_entries (table : list drop_entry) (g : Rng.rng) (results : list (string * Z))
    : result (list (string * Z) * Rng.rng) :=
  match table with
  | [] => Ok (results, g)
  | entry :: table' =>
      let chance := default (PInt 0) (de_chance entry) in
      let '(r, g1) := Rng.random g in
      if py_le (PFloat r) chance then
        let item_id := de_item entry in
        if str_truthy item_id then
          let qty_min := default 1 (de_min entry) in
          let qty_max := default qty_min (de_max entry) in
          let* (qty, g2) := Rng.randint (Z.min qty_min qty_max) (Z.max qty_min qty_max) g1 in
          roll_entries table' g2 (results ++ [(default "" item_id, qty)])
        else roll_entries table' g1 results
      else roll_entries table' g1 results
  end.

(** [roll_drop] *)
Definition roll_drop (table_name : string) (ds : DataStore) (g : Rng.rng)
    : result (list (string * Z) * Rng.rng) :=
  let table := default [] (ds_drop_tables ds !! table_name) in
  roll_entries table g [].

End Loot.

(** ** progression.py *)

Module Progression.

(** [exp_to_next] *)
Definition exp_to_next (lv : Z) : Z := 20 + lv * 10.

(** The [while] loop of [gain_exp] on the three fields it updates. It ends
    for every level and exp: below level -1 the level rises at each turn of
    the loop, from there on the threshold is positive and the exp falls. *)
Equations? level_up_loop (lv ex sp : Z) (logs : list log_line)
    : Z * Z * Z * list log_line
    by wf (Z.to_nat (-1 - lv), Z.to_nat ex) (lexprod nat nat lt lt) :=
  level_up_loop lv ex sp logs with Z_ge_dec ex (exp_to_next lv) := {
    | left _ => level_up_loop (lv + 1) (ex - exp_to_next lv) (sp + 4)
                  (logs ++ [LogLevelUp (lv + 1)])
    | right _ => (lv, ex, sp, logs)
  }.
Proof.
  unfold exp_to_next in *.
  destruct (Z_lt_dec lv (-1)) as [Hlow|Hhigh].
  - left. lia.
  - replace (Z.to_nat (-1 - (lv + 1))) with (Z.to_nat (-1 - lv)) by lia.
    right. lia.
Qed.

(** [gain_exp] *)
Definition gain_exp (p : Player) (amount : Z) : Player * list log_line :=
  let '(lv, ex, sp, logs) :=
    level_up_loop (level p) (exp p + amount) (stat_points p) [LogExp amount] in
  (set_progress p lv ex sp, logs).

End Progression.

(** ** combat.py *)

Module Combat.

Record BattleState : Type := mkState {
  player : Player;
  enemy : Enemy;
  turn : Z;
  turn_index : Z;
  logs : list log_line;
  expected_exp : Z;
  drop_table_id : option string;
  gimmick_used : gmap nat bool
}.

Definition set_player (st : BattleState) (p : Player) : BattleState :=
  mkState p (enemy st) (turn st) (turn_index st) (logs st) (expected_exp st)
    (drop_table_id st) (gimmick_used st).

Definition set_enemy (st : BattleState) (e : Enemy) : BattleState :=
  mkState (player st) e (turn st) (turn_index st) (logs st) (expected_exp st)
    (drop_table_id st) (gimmick_used st).

Definition set_logs (st : BattleState) (l : list log_line) : BattleState :=
  mkState (player st) (enemy st) (turn st) (turn_index st) l (expected_exp st)
    (drop_table_id st) (gimmick_used st).

Definition set_turns (st : BattleState) (t ti : Z) : BattleState :=
  mkState (player st) (enemy st) t ti (logs st) (expected_exp st)
    (drop_table_id st) (gimmick_used st).

Definition set_gimmick_used (st : BattleState) (u : gmap nat bool) : BattleState :=
  mkState (player st) (enemy st) (turn st) (turn_index st) (logs st) (expected_exp st)
    (drop_table_id st) u.

Definition add_log (st : BattleState) (l : log_line) : BattleState :=
  set_logs st (logs st ++ [l]).

(** The arguments [attacker], [defender] and [target] of the engine are
    always one of the two objects of the state; [side] says which. *)
Inductive side : Type := SidePlayer | SideEnemy.

Definition get (st : BattleState) (s : side) : combatant :=
  match s with
  | SidePlayer => CPlayer (player st)
  | SideEnemy => CEnemy (enemy st)
  end.

Definition put (st : BattleState) (c : combatant) : BattleState :=
  match c with
  | CPlayer p => set_player st p
  | CEnemy e => set_enemy st e
  end.

Definition is_player_side (s : side) : bool :=
  match s with SidePlayer => true | SideEnemy => false end.

(** [self.items if isinstance(x, Player) else None] *)
Definition items_for (ds : DataStore) (s : side) : option (gmap string item_def) :=
  if is_player_side s then Some (ds_items ds) else None.

(** [x.get_total_stats(self.items) if isinstance(x, Player) else x.get_total_stats()] *)
Definition side_stats (ds : DataStore) (st : BattleState) (s : side) : result Stats :=
  get_total_stats (get st s) (items_for ds s).

(** [start_battle] *)
Definition start_battle (p : Player) (e : Enemy) (expected : Z) (table : option string)
    : BattleState :=
  mkState p e 1 1 [LogBattleStart (name (e_actor e))] expected table ∅.

(** [self.items.get(i, {}).get("name", i)] *)
Definition item_name (ds : DataStore) (i : string) : string :=
  match ds_items ds !! i with
  | Some item => default i (it_name item)
  | None => i
  end.

(** [_finish] *)
Definition _finish (ds : DataStore) (st : BattleState) (g : Rng.rng) (w : string)
    : result (BattleResult * BattleState * Rng.rng) :=
  let* (dropped, st1, g1) :=
    if String.eqb w "player" && str_truthy (drop_table_id st) then
      let* (dropped, g') := Loot.roll_drop (default "" (drop_table_id st)) ds g in
      let display := map (fun iq => (item_name ds (fst iq), snd iq)) dropped in
      Ok (dropped, add_log st (LogDrops display), g')
    else Ok ([], st, g) in
  let res :=
    {| winner := w;
       exp_reward := if String.eqb w "player" then expected_exp st1 else 0;
       drops := map (fun iq => (item_name ds (fst iq), snd iq)) dropped;
       drop_details := dropped;
       result_logs := logs st1 |} in
  let st2 := set_player st1 (set_p_actor (player st1) (clear_all_battle_effects (p_actor (player st1)))) in
  let st3 := set_enemy st2 (set_e_actor (enemy st2) (clear_all_battle_effects (e_actor (enemy st2)))) in
  let* s := total_stats (player st3) (Some (ds_items ds)) in
  let st4 := set_player st3 (set_p_actor (player st3) (set_hp (p_actor (player st3)) (PInt (max_hp s)))) in
  Ok (res, st4, g1).

(** The built-in skill of the id [__basic__]. *)
Definition basic_skill : skill_def :=
  {| sk_name := Some "기본 공격";
     sk_base_physical := Some (PInt 10);
     sk_base_magic := Some (PInt 0);
     sk_scale := Some (mkScale (Some (PFloat f0_2)) (Some (PFloat f0_0)));
     sk_apply_effect := ApplyNone |}.

(** [self.skills.get(skill_id)] with the fallback for [__basic__]. A skill
    of the catalog is an object with the keys [validate_all] requires, so it
    is never empty and [not skill_data] only holds for a missing id. *)
Definition lookup_skill (ds : DataStore) (skill_id : string) : option skill_def :=
  match ds_skills ds !! skill_id with
  | Some sd => Some sd
  | None => if String.eqb skill_id "__basic__" then Some basic_skill else None
  end.

(** The damage computation of [_use_skill]: the physical and the magic part,
    in the evaluation order of the source. *)
Definition skill_damage (sd : skill_def) (atk_stats def_stats : Stats) : result (Z * Z) :=
  let scale := default (mkScale None None) (sk_scale sd) in
  let base_physical := default (PInt 0) (sk_base_physical sd) in
  let base_magic := default (PInt 0) (sk_base_magic sd) in
  let scale_attack := default (PInt 0) (sc_attack scale) in
  let scale_magic := default (PInt 0) (sc_magic scale) in
  let* physical_scaled := py_mul (PInt (attack atk_stats)) scale_attack in
  let* physical := py_add base_physical physical_scaled in
  let* magic_scaled := py_mul (PInt (magic atk_stats)) scale_magic in
  let* magical := py_add base_magic magic_scaled in
  let* def_scaled := py_mul (PInt (defense def_stats)) scale_attack in
  let* phys_reduced := py_sub physical def_scaled in
  let phys_final := py_max (PInt 0) phys_reduced in
  let* res_scaled := py_mul (PInt (magic_resist def_stats)) scale_magic in
  let* magic_reduced := py_sub magical res_scaled in
  let magic_final := py_max (PInt 0) magic_reduced in
  let* phys_int := py_int phys_final in
  let* magic_int := py_int magic_final in
  Ok (phys_int, magic_int).

Definition effect_list (a : apply_spec) : list effect_spec :=
  match a with
  | ApplyList l => l
  | ApplyDict e => [e]
  | ApplyNone => []
  end.

(** [apply_effect] on one of the two actors of the state. *)
Definition apply_effect_to (ds : DataStore) (target : side) (spec : effect_spec)
    (st : BattleState) (g : Rng.rng) : result (BattleState * Rng.rng) :=
  let* (c, logs', g') := apply_effect (get st target) spec (logs st) g (items_for ds target) in
  Ok (set_logs (put st c) logs', g').

(** The loop of [_use_skill] over the effect specs of the skill. *)
Fixpoint apply_skill_effects (ds : DataStore) (attacker defender : side)
    (effs : list effect_spec) (st : BattleState) (g : Rng.rng) (lifesteal_power : spec_float)
    : result (BattleState * Rng.rng * spec_float) :=
  match effs with
  | [] => Ok (st, g, lifesteal_power)
  | eff :: effs' =>
      let target_label := default "self" (es_target eff) in
      let target := if String.eqb target_label "self" then attacker else defender in
      let eff_type := str_or (es_type eff) (es_effect eff) in
      if decide (eff_type = Some "lifesteal") then
        let* pw := py_float (default (PInt 0) (es_power eff)) in
        apply_skill_effects ds attacker defender effs' st g (fadd lifesteal_power pw)
      else
        let* (st', g') := apply_effect_to ds target eff st g in
        apply_skill_effects ds attacker defender effs' st' g' lifesteal_power
  end.

(** The on-hit special of the accessory, for the player only. *)
Definition on_hit_proc (ds : DataStore) (attacker defender : side)
    (st : BattleState) (g : Rng.rng) : result (BattleState * Rng.rng) :=
  let accessory :=
    match get st attacker with
    | CPlayer p => Items.equipped p "accessory"
    | CEnemy _ => None
    end in
  if str_truthy accessory then
    let special :=
      match ds_items ds !! default "" accessory with
      | Some item => it_special item
      | None => None
      end in
    match special with
    | Some sp =>
        if decide (sp_type sp = Some "on_hit") then
          let* chance := py_float (default (PInt 0) (sp_chance sp)) in
          let '(hit, g1) := roll_chance chance g in
          if hit then
            let spec :=
              {| es_type := sp_effect sp; es_effect := None; es_chance := None;
                 es_duration := Some (default 1 (sp_duration sp));
                 es_power := Some (default (PInt 0) (sp_power sp));
                 es_stats := None; es_note := None; es_source := None;
                 es_target := Some "enemy" |} in
            apply_effect_to ds defender spec st g1
          else Ok (st, g1)
        else Ok (st, g)
    | None => Ok (st, g)
    end
  else Ok (st, g).

(** The lifesteal heal, from the total damage. *)
Definition lifesteal_heal (ds : DataStore) (attacker : side) (total_damage : Z)
    (lifesteal_power : spec_float) (st : BattleState) : result BattleState :=
  if py_gt (PFloat lifesteal_power) (PInt 0) then
    let* x := py_mul (PInt total_damage) (PFloat lifesteal_power) in
    let* heal_amount := py_int x in
    let a := actor_of (get st attacker) in
    let before := hp a in
    let* s := side_stats ds st attacker in
    let* healed := py_add before (PInt heal_amount) in
    let h := py_min (PInt (max_hp s)) healed in
    Ok (add_log (put st (with_actor (get st attacker) (set_hp a h))) (LogLifesteal before h))
  else Ok st.

(** [_use_skill] from the stats to the lifesteal, for a skill that was
    found: everything before the final hp test. *)
Definition resolve_skill (ds : DataStore) (attacker defender : side) (sd : skill_def)
    (skill_id : string) (is_player : bool) (st : BattleState) (g : Rng.rng)
    : result (BattleState * Rng.rng) :=
  let* atk_stats := side_stats ds st attacker in
  let* def_stats := side_stats ds st defender in
  let* (phys_int, magic_int) := skill_damage sd atk_stats def_stats in
  let total_damage := phys_int + magic_int in
  let* d := apply_damage (actor_of (get st defender)) total_damage in
  let st := put st (with_actor (get st defender) d) in
  let skill_name := default skill_id (sk_name sd) in
  let st :=
    if is_player then
      add_log (add_log (add_log st (LogPlayerSkill skill_name))
                 (LogDamageToEnemy phys_int magic_int))
        (LogEnemyHp (hp d) (max_hp def_stats))
    else
      add_log (add_log (add_log st
                 (LogEnemySkill (name (actor_of (get st attacker))) skill_name))
                 (LogDamageToPlayer phys_int magic_int))
        (LogPlayerHp (hp d) (max_hp def_stats)) in
  let* (st, g, lifesteal_power) :=
    apply_skill_effects ds attacker defender (effect_list (sk_apply_effect sd)) st g f0_0 in
  let* (st, g) := if is_player then on_hit_proc ds attacker defender st g else Ok (st, g) in
  let* st := lifesteal_heal ds attacker total_damage lifesteal_power st in
  Ok (st, g).

(** [_use_skill] *)
Definition _use_skill (ds : DataStore) (attacker defender : side) (skill_id : string)
    (is_player : bool) (st : BattleState) (g : Rng.rng)
    : result (option BattleResult * BattleState * Rng.rng) :=
  match lookup_skill ds skill_id with
  | None => Ok (None, add_log st LogUnknownSkill, g)
  | Some sd =>
      let* (st1, g1) := resolve_skill ds attacker defender sd skill_id is_player st g in
      if is_dead (actor_of (get st1 defender)) then
        let* (res, st2, g2) := _finish ds st1 g1 (if is_player then "player" else "enemy") in
        Ok (Some res, st2, g2)
      else Ok (None, st1, g1)
  end.

(** The trigger test of a gimmick in [_handle_gimmicks]. *)
Definition should_fire (gm : gimmick) (st : BattleState) : result bool :=
  if decide (gm_trigger gm = Some "every_n_turns") then
    let n := default 1 (gm_n gm) in
    Ok ((0 <? n) && (turn_index st mod n =? 0))
  else if decide (gm_trigger gm = Some "hp_below") then
    let ratio := default (PInt 0) (gm_ratio gm) in
    let base_max := max_hp (stats (e_actor (enemy st))) in
    let mx := if base_max =? 0 then 1 else base_max in
    let* q := py_truediv (hp (e_actor (enemy st))) (PInt mx) in
    Ok (py_le q ratio)
  else Ok false.

(** A gimmick already used, for a gimmick that fires once. *)
Definition spent (gm : gimmick) (idx : nat) (st : BattleState) : bool :=
  default false (gm_once gm) && default false (gimmick_used st !! idx).

(** The action of a gimmick that fires, and the mark of a once-gimmick. *)
Definition fire_gimmick (ds : DataStore) (idx : nat) (gm : gimmick)
    (st : BattleState) (g : Rng.rng) : result (BattleState * Rng.rng) :=
  let* (st1, g1) :=
    match gm_action gm with
    | Some action =>
        if decide (ga_type action = Some "apply_effect") then
          let target_label := default "player" (ga_target action) in
          let target := if String.eqb target_label "player" then SidePlayer else SideEnemy in
          let spec :=
            {| es_type := ga_effect action; es_effect := None; es_chance := None;
               es_duration := Some (default 1 (ga_duration action));
               es_power := Some (default (PInt 0) (ga_power action));
               es_stats := None; es_note := None; es_source := None; es_target := None |} in
          apply_effect_to ds target spec st g
        else Ok (st, g)
    | None => Ok (st, g)
    end in
  if default false (gm_once gm)
  then Ok (set_gimmick_used st1 (<[idx := true]> (gimmick_used st1)), g1)
  else Ok (st1, g1).

(** The body of the loop of [_handle_gimmicks] for the gimmick at [idx]. *)
Definition gimmick_step (ds : DataStore) (idx : nat) (gm : option gimmick)
    (st : BattleState) (g : Rng.rng) : result (BattleState * Rng.rng) :=
  match gm with
  | None => Ok (st, g)
  | Some gm =>
      if spent gm idx st then Ok (st, g)
      else
        let* fire := should_fire gm st in
        if fire then fire_gimmick ds idx gm st g else Ok (st, g)
  end.

Fixpoint gimmick_loop (ds : DataStore) (idx : nat) (gms : list (option gimmick))
    (st : BattleState) (g : Rng.rng) : result (BattleState * Rng.rng) :=
  match gms with
  | [] => Ok (st, g)
  | gm :: gms' =>
      let* (st', g') := gimmick_step ds idx gm st g in
      gimmick_loop ds (S idx) gms' st' g'
  end.

(** [_handle_gimmicks] *)
Definition _handle_gimmicks (ds : DataStore) (st : BattleState) (g : Rng.rng)
    : result (BattleState * Rng.rng) :=
  gimmick_loop ds 0 (gimmicks (enemy st)) st g.

(** [can_act] on an actor of the state, with the log line it may add. *)
Definition can_act_side (s : side) (st : BattleState) : bool * BattleState :=
  let '(ok, logs') := can_act (actor_of (get st s)) (logs st) in
  (ok, set_logs st logs').

(** [_enemy_action] *)
Definition _enemy_action (ds : DataStore) (st : BattleState) (g : Rng.rng)
    : result (option BattleResult * BattleState * Rng.rng) :=
  let '(ok, st) := can_act_side SideEnemy st in
  if negb ok then Ok (None, st, g)
  else
    let* (st, g) :=
      if String.eqb (ai (enemy st)) "boss" then _handle_gimmicks ds st g else Ok (st, g) in
    let pool :=
      match skills (e_actor (enemy st)) with
      | [] => ["__basic__"]
      | l => l
      end in
    let* (skill_choice, g) := Rng.choice pool g in
    let* (res, st, g) := _use_skill ds SideEnemy SidePlayer skill_choice false st g in
    match res with
    | Some r => Ok (Some r, st, g)
    | None =>
        if is_dead (p_actor (player st)) then
          let* (r, st, g) := _finish ds st g "enemy" in Ok (Some r, st, g)
        else Ok (None, st, g)
    end.

(** [tick_end_of_turn] on an actor of the state. *)
Definition tick_side (s : side) (st : BattleState) : result BattleState :=
  let* (a, logs') := tick_end_of_turn (actor_of (get st s)) (logs st) in
  Ok (set_logs (put st (with_actor (get st s) a)) logs').

(** [_end_of_turn] *)
Definition _end_of_turn (ds : DataStore) (st : BattleState) (g : Rng.rng)
    : result (option BattleResult * BattleState * Rng.rng) :=
  let* st := tick_side SidePlayer st in
  let* st := tick_side SideEnemy st in
  if is_dead (p_actor (player st)) then
    let* (r, st, g) := _finish ds st g "enemy" in Ok (Some r, st, g)
  else if is_dead (e_actor (enemy st)) then
    let* (r, st, g) := _finish ds st g "player" in Ok (Some r, st, g)
  else Ok (None, st, g).

(** [_after_player_action] *)
Definition _after_player_action (ds : DataStore) (st : BattleState) (g : Rng.rng)
    : result (option BattleResult * BattleState * Rng.rng) :=
  let* (res, st, g) := _enemy_action ds st g in
  match res with
  | Some r => Ok (Some r, st, g)
  | None =>
      let* (end_result, st, g) := _end_of_turn ds st g in
      Ok (end_result, set_turns st (turn st + 1) (turn_index st + 1), g)
  end.

(** [player_use_skill] *)
Definition player_use_skill (ds : DataStore) (skill_id : string)
    (st : BattleState) (g : Rng.rng)
    : result (option BattleResult * BattleState * Rng.rng) :=
  let '(ok, st) := can_act_side SidePlayer st in
  if negb ok then _after_player_action ds st g
  else
    let* (res, st, g) := _use_skill ds SidePlayer SideEnemy skill_id true st g in
    match res with
    | Some r => Ok (Some r, st, g)
    | None =>
        if is_dead (e_actor (enemy st)) then
          let* (r, st, g) := _finish ds st g "player" in Ok (Some r, st, g)
        else _after_player_action ds st g
    end.

(** [player_basic_attack] *)
Definition player_basic_attack (ds : DataStore) (st : BattleState) (g : Rng.rng)
    : result (option BattleResult * BattleState * Rng.rng) :=
  player_use_skill ds "__basic__" st g.

(** [player_use_item] *)
Definition player_use_item (ds : DataStore) (item_id : string)
    (st : BattleState) (g : Rng.rng)
    : result (option BattleResult * BattleState * Rng.rng) :=
  let '(ok, st) := can_act_side SidePlayer st in
  if negb ok then _after_player_action ds st g
  else if get0 (inventory (player st)) item_id <=? 0 then
    _after_player_action ds (add_log st LogNoSuchItem) g
  else
    let* (success, msg, p, logs', g) :=
      Items.apply_consumable_in_battle (player st) item_id ds (logs st) g in
    let st := set_logs (set_player st p) logs' in
    let st :=
      if success
      then set_player st (snd (Items.remove_item_from_inventory (player st) item_id 1))
      else st in
    _after_player_action ds (add_log st (LogMessage msg)) g.

End Combat.

(** ** Stat points: app.py and state_manager.py *)

Module App.

(** [sync_player_hp], [Player.sync_hp_to_total] *)
Definition sync_player_hp (p : Player) (items : gmap string item_def) : result Player :=
  let* s := total_stats p (Some items) in
  Ok (set_p_actor p (set_hp (p_actor p) (py_min (hp (p_actor p)) (PInt (max_hp s))))).

(** [apply_stat_points] of app.py; it returns nothing. *)
Definition apply_stat_points (p : Player) (spend : gmap string Z)
    (items : gmap string item_def) : result Player :=
  let total := map_fold (fun _ v acc => acc + v) 0 spend in
  if stat_points p <? total then Ok p
  else
    let alloc :=
      map_fold
        (fun key value a => if value <=? 0 then a else <[key := get0 a key + value]> a)
        (allocated_stats p) spend in
    sync_player_hp (set_allocation p (stat_points p - total) alloc) items.

Inductive ui_error : Type :=
| ErrBadStat            (* 잘못된 스탯입니다 *)
| ErrNotEnoughPoints.   (* 포인트가 부족합니다 *)

(** [allocate_stat] of state_manager.py: the returned flag, the error it
    emits, the player. *)
Definition allocate_stat (p : Player) (stat_key : string) (points : Z)
    (items : gmap string item_def) : result (bool * option ui_error * Player) :=
  if negb (bool_decide (stat_key ∈ stat_keys)) then Ok (false, Some ErrBadStat, p)
  else
    let spend := Z.max 1 points in
    if stat_points p <? spend then Ok (false, Some ErrNotEnoughPoints, p)
    else
      let alloc := <[stat_key := get0 (allocated_stats p) stat_key + spend]> (allocated_stats p) in
      let* p' := sync_player_hp (set_allocation p (stat_points p - spend) alloc) items in
      Ok (true, None, p').

End App.

(** ** dungeon.py

    [clear_stage] computes the id of the next zone with the builtins [int]
    and [str]; they are taken as parameters: [int] of a string may raise,
    and so may [str] of an int where the interpreter limits the digits. *)

Module Dungeon.

Record DungeonProgress : Type := mkProgress {
  unlocked_zones : list string;
  unlocked_stage_by_zone : gmap string Z
}.

(** The defaults of the two fields. *)
Definition initial : DungeonProgress := mkProgress ["1"] {[ "1" := 1 ]}.

(** [is_stage_unlocked] *)
Definition is_stage_unlocked (dp : DungeonProgress) (zone : string) (stage : Z) : bool :=
  if bool_decide (zone ∈ unlocked_zones dp)
  then stage <=? default 0 (unlocked_stage_by_zone dp !! zone)
  else false.

Section ClearStage.

Variable py_int : string -> result Z.
Variable py_str : Z -> result string.

(** [clear_stage]: the progress as the call leaves it, and the exception it
    raised, if any; the stage entry is written before the next zone is
    computed. *)
Definition clear_stage (dp : DungeonProgress) (zone : string) (stage : Z)
    : DungeonProgress * option pyexn :=
  let current := default 1 (unlocked_stage_by_zone dp !! zone) in
  let stages :=
    if current <=? stage
    then <[zone := Z.min 5 (stage + 1)]> (unlocked_stage_by_zone dp)
    else unlocked_stage_by_zone dp in
  let dp1 := mkProgress (unlocked_zones dp) stages in
  if 5 <=? stage then
    match py_int zone with
    | Raise e => (dp1, Some e)
    | Ok z =>
        match py_str (z + 1) with
        | Raise e => (dp1, Some e)
        | Ok next_zone =>
            if bool_decide (next_zone ∈ unlocked_zones dp) then (dp1, None)
            else
              match py_int next_zone with
              | Raise e => (dp1, Some e)
              | Ok n =>
                  if n <=? 10
                  then (mkProgress (unlocked_zones dp ++ [next_zone])
                          (<[next_zone := 1]> stages), None)
                  else (dp1, None)
              end
        end
    end
  else (dp1, None).

End ClearStage.

End Dungeon.

(** ** data_store.py: skill lists and boss ids *)

Module Store.

(** What [_sanitize_actor_skills] prints. *)
Inductive warning : Type :=
| WarnUnknownSkill (actor_label sid : string)
| WarnNoSkill (actor_label : string).

(** [_ensure_basic_skill] *)
Definition _ensure_basic_skill (ds : DataStore) : DataStore :=
  mkDataStore
    (<["__basic__" :=
         {| sk_name := Some "기본 공격";
            sk_base_physical := Some (PInt 10);
            sk_base_magic := Some (PInt 0);
            sk_scale := Some (mkScale (Some (PFloat f0_2)) (Some (PFloat f0_0)));
            sk_apply_effect := ApplyNone |}]> (ds_skills ds))
    (ds_items ds) (ds_drop_tables ds).

(** The loop of [_sanitize_actor_skills]. *)
Fixpoint sanitize_loop (ds : DataStore) (actor_label : string) (skill_ids : list string)
    (sanitized : list string) (printed : list warning) : list string * list warning :=
  match skill_ids with
  | [] => (sanitized, printed)
  | sid :: rest =>
      if bool_decide (is_Some (ds_skills ds !! sid))
      then sanitize_loop ds actor_label rest (sanitized ++ [sid]) printed
      else sanitize_loop ds actor_label rest sanitized
             (printed ++ [WarnUnknownSkill actor_label sid])
  end.

(** [_sanitize_actor_skills]: the list returned and the warnings printed. *)
Definition _sanitize_actor_skills (ds : DataStore) (skill_ids : list string)
    (actor_label : string) : list string * list warning :=
  let '(sanitized, printed) := sanitize_loop ds actor_label skill_ids [] [] in
  match sanitized with
  | [] => (["__basic__"], printed ++ [WarnNoSkill actor_label])
  | _ => (sanitized, printed)
  end.

(** [zid in key] on strings: [zid] occurs in [key]. *)
Fixpoint str_in (zid key : string) : bool :=
  String.prefix zid key
  || match key with
     | EmptyString => false
     | String _ key' => str_in zid key'
     end.

(** The [for] loop of [get_dungeon_boss_id] over the keys. *)
Fixpoint first_with (zid : string) (keys : list string) : option string :=
  match keys with
  | [] => None
  | key :: keys' => if str_in zid key then Some key else first_with zid keys'
  end.

(** [get_dungeon_boss_id], on the keys of [bosses["dungeon_bosses"]] in the
    order of the dict and on [zid], the zone as text. *)
Definition get_dungeon_boss_id (dungeon_bosses : list string) (zid : string)
    : option string :=
  let candidate := String.append "zone" (String.append zid "_boss") in
  if bool_decide (candidate ∈ dungeon_bosses) then Some candidate
  else first_with zid dungeon_bosses.

End Store.

(** ** Inventories of old saves: items.py, entities.py, save.py *)

Module Loading.

(** The [inventory] a player is built with: a dict of counts, the list of
    ids of old saves, or [None]. *)
Inductive raw_inventory : Type :=
| RawDict (d : gmap string Z)
| RawList (l : list string)
| RawNone.

(** The loop that counts the ids of a list, in [_ensure_inventory_dict] and
    in [Player.__post_init__]. *)
Definition migrate (l : list string) : gmap string Z :=
  fold_left (fun migrated item_id => <[item_id := get0 migrated item_id + 1]> migrated) l ∅.

(** The argument of [_ensure_inventory_dict]: a dict, an object with an
    [inventory] attribute, or an object without one (a bare list, say). *)
Inductive inventory_owner : Type :=
| OwnerDict (d : gmap string Z)
| OwnerObject (inv : raw_inventory)
| OwnerOther.

(** [_ensure_inventory_dict]: the dict returned, and the [inventory]
    attribute of the object afterwards, if the argument is such an object. *)
Definition _ensure_inventory_dict (x : inventory_owner)
    : gmap string Z * option raw_inventory :=
  match x with
  | OwnerDict d => (d, None)
  | OwnerObject (RawList l) => (migrate l, Some (RawDict (migrate l)))
  | OwnerObject RawNone => (∅, Some (RawDict ∅))
  | OwnerObject (RawDict d) => (d, Some (RawDict d))
  | OwnerOther => (∅, None)
  end.

(** [Actor.__post_init__] *)
Definition actor_post_init (a : Actor) : Actor :=
  if py_le (hp a) (PInt 0) then set_hp a (PInt (max_hp (stats a))) else a.

(** [Player(...)]: the fields given, then [__post_init__]; [eq] is the
    [equipment] argument, a dict or [None]. *)
Definition new_player (a : Actor) (player_id : string) (level exp exp_to_next stat_points : Z)
    (inv : raw_inventory) (eq : option (list (string * option string)))
    (allocated_stats : gmap string Z) (base_stats : Stats) : Player :=
  let inventory :=
    match inv with
    | RawList l => migrate l
    | RawNone => ∅
    | RawDict d => d
    end in
  let equipment :=
    match eq with
    | None | Some [] => [("weapon", None); ("armor", None); ("accessory", None)]
    | Some d => d
    end in
  mkPlayer (actor_post_init a) player_id level exp exp_to_next stat_points
    inventory equipment allocated_stats base_stats.

(** [save._normalize_item_id] *)
Definition _normalize_item_id (item_id : string) : string :=
  if String.eqb item_id "minor_potion" then "potion_small" else item_id.

(** The [inventory] of a save entry: a JSON object with its entries in
    order, a list of ids, or something else. *)
Inductive saved_inventory : Type :=
| SavedDict (d : list (string * Z))
| SavedList (l : list string)
| SavedOther.

(** [save._to_inventory_dict] *)
Definition _to_inventory_dict (inv : saved_inventory) : gmap string Z :=
  match inv with
  | SavedDict d =>
      fold_left (fun m (kv : string * Z) => <[_normalize_item_id (fst kv) := snd kv]> m) d ∅
  | SavedList l =>
      fold_left
        (fun counts item_id =>
           let key := _normalize_item_id item_id in
           <[key := get0 counts key + 1]> counts)
        l ∅
  | SavedOther => ∅
  end.

End Loading.

(** ** app.py: the end of a battle *)

Module Controller.

(** The attributes of the controller that [finish_battle] reads and writes;
    of [current_battle] only the log is touched, so the battle is its log.
    What [save] copies to the progress file is read off these and changes
    none of them. *)
Record game : Type := mkGame {
  g_player : Player;
  dungeon_progress : Dungeon.DungeonProgress;
  current_battle : option (list log_line);
  last_zone_stage : option (string * Z)
}.

(** How a call ends. *)
Inductive outcome : Type :=
| Returned
| Raised (e : pyexn)
| NoBattle.      (* AttributeError: [self.current_battle] is [None] *)

Definition set_exp_to_next (p : Player) (v : Z) : Player :=
  mkPlayer (p_actor p) (player_id p) (level p) (exp p) v (stat_points p)
    (inventory p) (equipment p) (allocated_stats p) (base_stats p).

(** [for drop_id, qty in drop_list: add_item_to_inventory(...)] *)
Definition bank_drops (p : Player) (drop_list : list (string * Z)) : Player :=
  fold_left (fun p d => Items.add_item_to_inventory p (fst d) (snd d)) drop_list p.

Section FinishBattle.

Variable py_int : string -> result Z.
Variable py_str : Z -> result string.
Variable data_items : gmap string item_def.

(** [finish_battle]: the controller as the call leaves it, and how it ended. *)
Definition finish_battle (result : BattleResult) (c : game) : game * outcome :=
  if String.eqb (winner result) "player" then
    let '(p1, logs) := Progression.gain_exp (g_player c) (exp_reward result) in
    match current_battle c with
    | None => (mkGame p1 (dungeon_progress c) None (last_zone_stage c), NoBattle)
    | Some battle_logs =>
        let battle := Some (battle_logs ++ logs) in
        let p2 := set_exp_to_next p1 (Progression.exp_to_next (level p1)) in
        let p3 := bank_drops p2 (drop_details result) in
        match last_zone_stage c with
        | Some (zone, stage) =>
            match Dungeon.clear_stage py_int py_str (dungeon_progress c) zone stage with
            | (dp, Some e) => (mkGame p3 dp battle (last_zone_stage c), Raised e)
            | (dp, None) => (mkGame p3 dp None (last_zone_stage c), Returned)
            end
        | None => (mkGame p3 (dungeon_progress c) None (last_zone_stage c), Returned)
        end
    end
  else
    match total_stats (g_player c) (Some data_items) with
    | Raise e => (c, Raised e)
    | Ok s =>
        (mkGame (set_p_actor (g_player c) (set_hp (p_actor (g_player c)) (PInt (max_hp s))))
           (dungeon_progress c) None (last_zone_stage c), Returned)
    end.

End FinishBattle.

End Controller.

(** * Notions used in the statements *)

Import Combat.

(** ** Damage *)











(** ** Conversions never produce nan *)


(** ** A small battle used to exercise the statements *)

Definition no_spec : effect_spec :=
  mkEffectSpec None None None None None None None None None.

Definition demo_skills : gmap string skill_def :=
  {[ "bash" :=
       mkSkill (Some "Bash") (Some (PInt 5)) (Some (PInt 0))
         (Some (mkScale (Some (PFloat f0_2)) (Some (PInt 0))))
         (ApplyDict (mkEffectSpec (Some "stun") None None (Some 2) None None None None
                       (Some "enemy")));
     "daze" :=
       mkSkill (Some "Daze") (Some (PInt 1)) (Some (PInt 0))
         (Some (mkScale (Some (PInt 0)) (Some (PInt 0))))
         (ApplyList [mkEffectSpec (Some "stun") None None (Some 1) None None None None
                       (Some "enemy")]) ]}.

Definition demo_items : gmap string item_def :=
  {[ "potion" :=
       mkItem (Some "Potion") (Some "consumable") None None None
         (Some (mkUseEffect (Some "heal") (Some 20) None None None));
     "blade" :=
       mkItem (Some "Blade") (Some "equipment") (Some "weapon")
         (Some {[ "attack" := 3 ]}) None None;
     "jelly" := mkItem (Some "Jelly") (Some "material") None None None None ]}.

Definition demo_drops : gmap string (list drop_entry) :=
  {[ "slime_drops" := [mkDropEntry (Some "jelly") (Some (PFloat f1_0)) (Some 1) (Some 2)] ]}.

Definition demo_ds : DataStore := mkDataStore demo_skills demo_items demo_drops.

Definition demo_player : Player :=
  mkPlayer (mkActor "hero" (mkStats 0 0 0 0 0) (PInt 50) ["__basic__"; "bash"] []) "p1"
    1 0 30 0 {[ "blade" := 1 ]}
    [("weapon", None); ("armor", None); ("accessory", None)] ∅ (mkStats 20 5 5 5 50).

Definition demo_enemy : Enemy :=
  mkEnemy (mkActor "slime" (mkStats 8 0 5 0 30) (PInt 30) [] []) "slime" "basic" []
    (Some "slime_drops") false.

Definition demo_rng : Rng.rng := Rng.mkRng (fun _ => 0%N) 0.

Definition demo_state : BattleState :=
  start_battle demo_player demo_enemy 12 (Some "slime_drops").


(** ** Total stats *)

(** The items worn, in the order of the equipment dict. *)
Fixpoint worn (items : option (gmap string item_def))
    (eq : list (string * option string)) : list item_def :=
  match eq with
  | [] => []
  | (_, item_id) :: eq' =>
      match slot_item items item_id with
      | Some obj => obj :: worn items eq'
      | None => worn items eq'
      end
  end.

Fixpoint sum_list (l : list Z) : Z :=
  match l with
  | [] => 0
  | x :: l' => x + sum_list l'
  end.

(** The additive bonus of a stat, as the specification words it: allocated
    points, plus the stats of the items worn, plus the deltas of the active
    buffs and debuffs. *)
Definition additive_bonus (p : Player) (items : option (gmap string item_def))
    (k : string) : Z :=
  get0 (allocated_stats p) k
  + sum_list (map (fun obj => get0 (default ∅ (it_stats obj)) k) (worn items (equipment p)))
  + sum_list (map (fun e => get0 (stats_delta e) k)
                (List.filter effect_counts (effects (p_actor p)))).

(** The multiplier an item contributes to a stat: the [mult] of its
    [stat_multiplier] special when it names that stat and is above zero. *)
Definition multiplier_of (obj : item_def) (k : string) : result (option spec_float) :=
  match it_special obj with
  | Some sp =>
      if decide (sp_type sp = Some "stat_multiplier") then
        let* mult := py_float (default (PFloat f1_0) (sp_mult sp)) in
        if bool_decide (sp_stat sp = Some k) && py_gt (PFloat mult) (PInt 0)
        then Ok (Some mult) else Ok None
      else Ok None
  | None => Ok None
  end.

(** The product of the multipliers of a list of items for one stat. *)
Fixpoint multiplier_product (objs : list item_def) (k : string) (acc : spec_float)
    : result spec_float :=
  match objs with
  | [] => Ok acc
  | obj :: objs' =>
      let* m := multiplier_of obj k in
      multiplier_product objs' k (match m with Some f => fmul acc f | None => acc end)
  end.

(** The total of one stat: additive step, then the product, then
    truncation. *)
Definition stat_total (base bonus : Z) (product : spec_float) : result Z :=
  scaled (base + bonus) product.

Definition spec_total_stats (p : Player) (items : option (gmap string item_def))
    : result Stats :=
  let objs := worn items (equipment p) in
  let b := base_stats p in
  let* pa := multiplier_product objs "attack" f1_0 in
  let* pm := multiplier_product objs "magic" f1_0 in
  let* pd := multiplier_product objs "defense" f1_0 in
  let* pr := multiplier_product objs "magic_resist" f1_0 in
  let* ph := multiplier_product objs "max_hp" f1_0 in
  let* a := stat_total (attack b) (additive_bonus p items "attack") pa in
  let* m := stat_total (magic b) (additive_bonus p items "magic") pm in
  let* d := stat_total (defense b) (additive_bonus p items "defense") pd in
  let* r := stat_total (magic_resist b) (additive_bonus p items "magic_resist") pr in
  let* h := stat_total (max_hp b) (additive_bonus p items "max_hp") ph in
  Ok (mkStats a m d r h).

(** ** Loot and the end of a battle *)

(** The player as [_finish] leaves it before the hp is restored. *)
Definition rested (p : Player) : Player :=
  set_p_actor p (clear_all_battle_effects (p_actor p)).

(** Whether [_finish] rolls the drop table. *)
Definition rolls_loot (st : BattleState) (w : string) : bool :=
  String.eqb w "player" && str_truthy (drop_table_id st).

Definition demo_finish : BattleResult * BattleState * Rng.rng :=
  Eval vm_compute in
    match _finish demo_ds demo_state demo_rng "player" with
    | Ok r => r
    | Raise _ => (mkBattleResult "" 0 [] [] [], demo_state, demo_rng)
    end.

Import Progression.

(** ** Experience and levels *)

(** The loop of [gain_exp] as the specification words it: while the exp
    reaches the threshold of the level, take the threshold off, raise the
    level, grant four stat points. *)
Inductive level_steps : Z * Z * Z -> Z * Z * Z -> Prop :=
| steps_done (s : Z * Z * Z) : level_steps s s
| steps_more (lv ex sp : Z) (s' : Z * Z * Z) :
    ex >= exp_to_next lv ->
    level_steps (lv + 1, ex - exp_to_next lv, sp + 4) s' ->
    level_steps (lv, ex, sp) s'.

Import Items.

(** ** Equipment and inventory *)

(** How many slots hold the item [i]; a slot with [None] or with the empty
    string is empty, as [if prev:] and [if not current:] read it. *)
Definition holds (v : option string) (i : string) : Z :=
  if str_truthy v && bool_decide (v = Some i) then 1 else 0.

Fixpoint worn_count (eq : list (string * option string)) (i : string) : Z :=
  match eq with
  | [] => 0
  | (_, v) :: eq' => holds v i + worn_count eq' i
  end.

(** Copies of [i] the player owns: in the inventory and in the slots. *)
Definition total_count (p : Player) (i : string) : Z :=
  get0 (inventory p) i + worn_count (equipment p) i.

Definition demo_equipped : Player :=
  Eval vm_compute in snd (equip_item demo_player "blade" demo_ds).

(** A catalog in which the empty string is the id of a weapon, and a player
    who holds two of it and wears nothing. *)
Definition nameless_ds : DataStore :=
  mkDataStore ∅
    {[ "" := mkItem (Some "Nameless") (Some "equipment") (Some "weapon") None None None ]} ∅.

Definition nameless_holder : Player := set_inventory demo_player {[ "" := 2 ]}.

Definition nameless_once : Player :=
  Eval vm_compute in snd (equip_item nameless_holder "" nameless_ds).

Definition nameless_twice : Player :=
  Eval vm_compute in snd (equip_item nameless_once "" nameless_ds).

(** The player of the demo wearing the blade and holding another one. *)
Definition demo_two_blades : Player := add_item_to_inventory demo_equipped "blade" 1.

Definition demo_reequipped : Player :=
  Eval vm_compute in snd (equip_item demo_two_blades "blade" demo_ds).

(** ** Drop tables *)

(** The quantities a table can emit for an item. *)
Definition in_entry_range (table : list drop_entry) (iq : string * Z) : Prop :=
  exists entry,
    entry ∈ table /\ de_item entry = Some (fst iq) /\
    let qty_min := default 1 (de_min entry) in
    let qty_max := default qty_min (de_max entry) in
    Z.min qty_min qty_max <= snd iq <= Z.max qty_min qty_max.

(** The shape of a draw of [random()]: zero, or a positive binary64 number
    with a full mantissa and an exponent of -53 at most. *)
Definition unit_draw (r : spec_float) : Prop :=
  r = S754_zero false \/
  exists m e, r = S754_finite false m e /\ Zpos (digits2_pos m) = 53 /\ -105 <= e <= -53.

(** An entry whose chance is 1.0 (or the int 1) and that names an item. *)
Definition sure_entry (entry : drop_entry) : Prop :=
  (de_chance entry = Some (PFloat f1_0) \/ de_chance entry = Some (PInt 1)) /\
  str_truthy (de_item entry) = true.

(** A table with one entry of chance 0.0 and a generator whose next draw is
    0: [random()] returns 0.0, the test [0.0 <= 0.0] holds, the entry
    fires. *)
Definition never_table : list drop_entry :=
  [mkDropEntry (Some "a") (Some (PFloat f0_0)) (Some 1) (Some 1)].

Definition never_ds : DataStore := mkDataStore ∅ ∅ {[ "t" := never_table ]}.

(** ** What the engine never touches *)

Definition actor_static (a : Actor) : string * Stats * list string :=
  (name a, stats a, skills a).

Definition player_static (p : Player) :=
  (actor_static (p_actor p), player_id p, level p, exp p, Entities.exp_to_next p,
   stat_points p,
   inventory p, equipment p, allocated_stats p, base_stats p).

Definition enemy_static (e : Enemy) :=
  (actor_static (e_actor e), enemy_id e, ai e, gimmicks e, drop_table e, is_boss e).

Definition combatant_static (c : combatant) :=
  match c with
  | CPlayer p => (Some (player_static p), None)
  | CEnemy e => (None, Some (enemy_static e))
  end.

Definition static_of (st : BattleState) :=
  (player_static (player st), enemy_static (enemy st), turn st, turn_index st,
   expected_exp st, drop_table_id st).

(** A gimmick mark, once set, stays. *)
Definition marks_kept (st st' : BattleState) : Prop :=
  forall idx, gimmick_used st !! idx = Some true -> gimmick_used st' !! idx = Some true.

Record frame (st st' : BattleState) : Prop := mkFrame {
  frame_static : static_of st' = static_of st;
  frame_logs : logs st `prefix_of` logs st';
  frame_marks : marks_kept st st'
}.

(** [_finish] wrapped as the engine returns it. *)
Definition finished (ds : DataStore) (st : BattleState) (g : Rng.rng) (w : string)
    : result (option BattleResult * BattleState * Rng.rng) :=
  let* (r, st', g') := _finish ds st g w in Ok (Some r, st', g').

(** Across a whole player input the turn counters move, and using an item
    changes the inventory; the rest is kept. *)
Record carried (st st' : BattleState) : Prop := mkCarried {
  carried_enemy : enemy_static (enemy st') = enemy_static (enemy st);
  carried_exp : expected_exp st' = expected_exp st;
  carried_drop : drop_table_id st' = drop_table_id st;
  carried_logs : logs st `prefix_of` logs st';
  carried_marks : marks_kept st st'
}.

(** ** The turn: who may act, and when the battle ends *)

Definition stunned (st : BattleState) (s : side) : bool :=
  has_effect (actor_of (get st s)) "stun".

(** The demo battle with the slime at 10 hp: the basic attack kills it. *)
Definition last_hit_state : BattleState :=
  set_enemy demo_state (set_e_actor demo_enemy (set_hp (e_actor demo_enemy) (PInt 10))).

Definition last_hit_resolved : BattleState * Rng.rng :=
  Eval vm_compute in
    match resolve_skill demo_ds SidePlayer SideEnemy basic_skill "__basic__" true
            last_hit_state demo_rng with
    | Ok r => r
    | Raise _ => (last_hit_state, demo_rng)
    end.

(** Both actors at 1 hp and bleeding for 5. *)
Definition f5_0 : spec_float := Eval vm_compute in binary_normalize prec emax 5 0 false.

Definition bleed_5 : EffectInstance := mkEffect "bleed" 1 f5_0 ∅ None.

Definition both_bleeding : BattleState :=
  mkState
    (set_p_actor demo_player (mkActor "hero" (mkStats 0 0 0 0 0) (PInt 1) [] [bleed_5]))
    (set_e_actor demo_enemy (mkActor "slime" (mkStats 8 0 5 0 30) (PInt 1) [] [bleed_5]))
    3 3 [] 12 None ∅.

Definition both_bleeding_1 : BattleState :=
  Eval vm_compute in
    match tick_side SidePlayer both_bleeding with Ok s => s | Raise _ => both_bleeding end.

Definition both_bleeding_2 : BattleState :=
  Eval vm_compute in
    match tick_side SideEnemy both_bleeding_1 with Ok s => s | Raise _ => both_bleeding end.

Definition both_bleeding_end : option BattleResult * BattleState * Rng.rng :=
  Eval vm_compute in
    match _end_of_turn demo_ds both_bleeding demo_rng with
    | Ok r => r
    | Raise _ => (None, both_bleeding, demo_rng)
    end.

(** ** Runs of player inputs *)

Inductive player_input : Type :=
| UseSkill (skill_id : string)
| UseItem (item_id : string).

Definition player_turn (ds : DataStore) (inp : player_input) (st : BattleState) (g : Rng.rng)
    : result (option BattleResult * BattleState * Rng.rng) :=
  match inp with
  | UseSkill skill_id => player_use_skill ds skill_id st g
  | UseItem item_id => player_use_item ds item_id st g
  end.

(** The inputs are played one after the other until the battle ends. *)
Fixpoint run (ds : DataStore) (inputs : list player_input) (st : BattleState) (g : Rng.rng)
    : result (option BattleResult * BattleState * Rng.rng) :=
  match inputs with
  | [] => Ok (None, st, g)
  | inp :: rest =>
      let* (res, st', g') := player_turn ds inp st g in
      match res with
      | Some r => Ok (Some r, st', g')
      | None => run ds rest st' g'
      end
  end.

(** ** Gimmicks *)

(** The gimmick at [idx] fires: the body of the loop reaches its action. *)
Definition fires (gm : gimmick) (idx : nat) (st : BattleState) : Prop :=
  spent gm idx st = false /\ should_fire gm st = Ok true.

(** A boss with a once-gimmick under full hp and a gimmick every 3 turns. *)
Definition once_gimmick : gimmick :=
  mkGimmick (Some true) (Some "hp_below") None (Some (PInt 1))
    (Some (mkGimmickAction (Some "apply_effect") (Some "player") (Some "bleed") (Some 2)
             (Some (PInt 3)))).

Definition every_3_gimmick : gimmick :=
  mkGimmick (Some false) (Some "every_n_turns") (Some 3) None
    (Some (mkGimmickAction (Some "apply_effect") (Some "self") (Some "buff_stats") (Some 2)
             None)).

Definition boss : Enemy :=
  mkEnemy (mkActor "ogre" (mkStats 12 0 6 2 80) (PInt 80) [] []) "ogre" "boss"
    [Some once_gimmick; Some every_3_gimmick] None true.

Definition boss_state : BattleState := set_turns (start_battle demo_player boss 0 None) 3 3.

Definition boss_after_once : BattleState * Rng.rng :=
  Eval vm_compute in
    match gimmick_step demo_ds 0 (Some once_gimmick) boss_state demo_rng with
    | Ok r => r
    | Raise _ => (boss_state, demo_rng)
    end.

(** The kinds of effect [apply_effect] puts on its target. *)
Definition lasting (e : string) : Prop :=
  e = "buff_stats" \/ e = "debuff_stats" \/ e = "bleed" \/ e = "stun".

(** The actor the action of a gimmick is aimed at. *)
Definition gimmick_target (action : gimmick_action) : side :=
  if String.eqb (default "player" (ga_target action)) "player" then SidePlayer else SideEnemy.

(** When the gimmick fires, it puts an effect of kind [e] on [t] for [d]
    turns. *)
Definition puts_effect (gm : gimmick) (e : string) (t : side) (d : Z) : Prop :=
  exists action,
    gm_action gm = Some action /\ ga_type action = Some "apply_effect" /\
    ga_effect action = Some e /\ lasting e /\
    gimmick_target action = t /\ default 1 (ga_duration action) = d.

(** The effect list [l'] is [l] with more effects at its end, one of them of
    kind [e] for [d] turns. *)
Definition gained (l l' : list EffectInstance) (e : string) (d : Z) : Prop :=
  exists pre inst post, l' = l ++ pre ++ inst :: post /\ kind inst = e /\ duration inst = d.

(** The gimmick list with the gimmick at [idx] taken out. *)
Definition without (gms : list (option gimmick)) (idx : nat) : list (option gimmick) :=
  <[idx := None]> gms.

Definition boss_handled : BattleState * Rng.rng :=
  Eval vm_compute in
    match _handle_gimmicks demo_ds boss_state demo_rng with
    | Ok r => r
    | Raise _ => (boss_state, demo_rng)
    end.

(** ** Illegal player actions *)

(** What a spent turn leaves of the state it started from. *)
Definition turn_spent (st st' : BattleState) : Prop :=
  player_static (player st') = player_static (player st) /\
  enemy_static (enemy st') = enemy_static (enemy st) /\
  logs st `prefix_of` logs st' /\
  (turn st' = turn st /\ turn_index st' = turn_index st \/
   turn st' = turn st + 1 /\ turn_index st' = turn_index st + 1).

Definition demo_missing_item : option BattleResult * BattleState * Rng.rng :=
  Eval vm_compute in
    match player_use_item demo_ds "potion" demo_state demo_rng with
    | Ok r => r
    | Raise _ => (None, demo_state, demo_rng)
    end.

(** ** Stuns *)

(** The turns of stun an effect list still holds: the longest stun in it. *)
Fixpoint stun_left_of (effs : list EffectInstance) : Z :=
  match effs with
  | [] => 0
  | e :: effs' =>
      if String.eqb (kind e) "stun" then Z.max (duration e) (stun_left_of effs')
      else stun_left_of effs'
  end.

Definition stun_left (a : Actor) : Z := stun_left_of (effects a).

(** The effect list after an end-of-turn tick. *)
Definition ticked (effs : list EffectInstance) : list EffectInstance :=
  List.filter (fun e => 0 <? duration e)
    (map (fun e => set_duration e (duration e - 1)) effs).

Definition effects_of (st : BattleState) (s : side) : list EffectInstance :=
  effects (actor_of (get st s)).

(** Effects are only added, at the end of the lists. *)
Definition grows (st st' : BattleState) : Prop :=
  forall s, effects_of st s `prefix_of` effects_of st' s.

Definition other (s : side) : side :=
  match s with SidePlayer => SideEnemy | SideEnemy => SidePlayer end.

(** A turn the player sits out: the log line of [can_act], then the rest of
    the turn. *)
Definition skipped_turn (ds : DataStore) (st : BattleState) (g : Rng.rng)
    : result (option BattleResult * BattleState * Rng.rng) :=
  _after_player_action ds (add_log st (LogCannotAct (name (p_actor (player st))))) g.

Fixpoint skipped_run (ds : DataStore) (n : nat) (st : BattleState) (g : Rng.rng)
    : result (option BattleResult * BattleState * Rng.rng) :=
  match n with
  | O => Ok (None, st, g)
  | S n' =>
      let* (res, st', g') := skipped_turn ds st g in
      match res with
      | Some r => Ok (Some r, st', g')
      | None => skipped_run ds n' st' g'
      end
  end.

(** The rest of a turn in which the enemy sits out: the log line of
    [can_act], the end of the turn, the counters. *)
Definition enemy_sits_out (ds : DataStore) (st : BattleState) (g : Rng.rng)
    : result (option BattleResult * BattleState * Rng.rng) :=
  let* (end_result, st1, g1) :=
    _end_of_turn ds (add_log st (LogCannotAct (name (e_actor (enemy st))))) g in
  Ok (end_result, set_turns st1 (turn st1 + 1) (turn_index st1 + 1), g1).

(** The player's own part of a turn: [player_use_skill] or [player_use_item]
    up to the call of [_after_player_action]. *)
Definition player_part (ds : DataStore) (inp : player_input) (st : BattleState) (g : Rng.rng)
    : result (option BattleResult * BattleState * Rng.rng) :=
  let '(ok, st) := can_act_side SidePlayer st in
  if negb ok then Ok (None, st, g)
  else
    match inp with
    | UseSkill skill_id =>
        let* (res, st, g) := _use_skill ds SidePlayer SideEnemy skill_id true st g in
        match res with
        | Some r => Ok (Some r, st, g)
        | None =>
            if is_dead (e_actor (enemy st)) then finished ds st g "player"
            else Ok (None, st, g)
        end
    | UseItem item_id =>
        if get0 (inventory (player st)) item_id <=? 0 then
          Ok (None, add_log st LogNoSuchItem, g)
        else
          let* (success, msg, p, logs', g) :=
            Items.apply_consumable_in_battle (player st) item_id ds (logs st) g in
          let st := set_logs (set_player st p) logs' in
          let st :=
            if success
            then set_player st (snd (Items.remove_item_from_inventory (player st) item_id 1))
            else st in
          Ok (None, add_log st (LogMessage msg), g)
    end.

(** What follows the player's part unless the battle is over. *)
Definition and_then
    (rest : BattleState -> Rng.rng -> result (option BattleResult * BattleState * Rng.rng))
    (r : result (option BattleResult * BattleState * Rng.rng))
    : result (option BattleResult * BattleState * Rng.rng) :=
  let* (res, st, g) := r in
  match res with
  | Some x => Ok (Some x, st, g)
  | None => rest st g
  end.

Definition quiet_turn (ds : DataStore) (inp : player_input) (st : BattleState) (g : Rng.rng)
    : result (option BattleResult * BattleState * Rng.rng) :=
  and_then (enemy_sits_out ds) (player_part ds inp st g).

Fixpoint quiet_run (ds : DataStore) (inputs : list player_input) (st : BattleState)
    (g : Rng.rng) : result (option BattleResult * BattleState * Rng.rng) :=
  match inputs with
  | [] => Ok (None, st, g)
  | inp :: rest =>
      let* (res, st', g') := quiet_turn ds inp st g in
      match res with
      | Some r => Ok (Some r, st', g')
      | None => quiet_run ds rest st' g'
      end
  end.

(** *** No stun lands without its log line *)

Definition is_stun_line (l : log_line) : bool :=
  match l with
  | LogStun _ _ => true
  | _ => false
  end.

Definition no_stun_line (r : list log_line) : Prop :=
  Forall (fun l => is_stun_line l = false) r.

(** From [st] to [st'] the log got the lines [r] and each effect list some
    effects [k] at its end; without a stun line in [r] no stun is among
    them. *)
Definition adds (st st' : BattleState) : Prop :=
  exists r, logs st' = logs st ++ r /\
    forall s, exists k, effects_of st' s = effects_of st s ++ k /\
                        (no_stun_line r -> stun_left_of k = 0).

(** How many times the log says that [who] could not act. *)
Fixpoint skips_of (who : string) (l : list log_line) : nat :=
  match l with
  | [] => O
  | LogCannotAct n :: l' => (if String.eqb n who then 1 else 0) + skips_of who l'
  | _ :: l' => skips_of who l'
  end.

(** An enemy whose only skill stuns for one turn. *)
Definition dazer : Enemy :=
  mkEnemy (mkActor "dazer" (mkStats 8 0 5 0 30) (PInt 30) ["daze"] []) "dazer" "basic" []
    None false.

Definition dazer_state : BattleState := start_battle demo_player dazer 12 None.

Definition dazed_1 : option BattleResult * BattleState * Rng.rng :=
  Eval vm_compute in
    match player_turn demo_ds (UseSkill "__basic__") dazer_state demo_rng with
    | Ok r => r
    | Raise _ => (None, dazer_state, demo_rng)
    end.

Definition dazed_2 : option BattleResult * BattleState * Rng.rng :=
  Eval vm_compute in
    match player_turn demo_ds (UseSkill "__basic__") (snd (fst dazed_1)) (snd dazed_1) with
    | Ok r => r
    | Raise _ => (None, dazer_state, demo_rng)
    end.

(** The player after the slime's turn left it stunned for two more turns. *)
Definition stunned_state : BattleState :=
  set_player demo_state
    (set_p_actor demo_player
       (set_effects (p_actor demo_player) [mkEffect "stun" 2 f0_0 ∅ None])).

Definition bashed : option BattleResult * BattleState * Rng.rng :=
  Eval vm_compute in
    match player_part demo_ds (UseSkill "bash") demo_state demo_rng with
    | Ok r => r
    | Raise _ => (None, demo_state, demo_rng)
    end.

Definition bash_then_two : option BattleResult * BattleState * Rng.rng :=
  Eval vm_compute in
    match run demo_ds [UseSkill "bash"; UseItem "potion"; UseItem "potion"] demo_state demo_rng with
    | Ok r => r
    | Raise _ => (None, demo_state, demo_rng)
    end.

(** ** The inventory as a bag *)

(** No entry of the inventory holds a count of zero or less. *)
Definition inv_positive (inv : gmap string Z) : Prop :=
  forall k v, inv !! k = Some v -> 0 < v.

(** ** What a battle does to the player's belongings *)

(** Whether [apply_consumable_in_battle] accepts the item: a consumable of
    the catalog whose use effect is a heal, a cleanse or a buff. *)
Definition usable_in_battle (ds : DataStore) (item_id : string) : bool :=
  match get_item ds item_id with
  | Some item =>
      bool_decide (it_type item = Some "consumable")
      && match it_use_effect item with
         | Some e =>
             bool_decide (ue_type e = Some "heal")
             || bool_decide (ue_type e = Some "cleanse")
             || bool_decide (ue_type e = Some "buff_stats")
         | None => false
         end
  | None => false
  end.

(** The use of [item_id] in this state costs a copy. *)
Definition consumes (ds : DataStore) (item_id : string) (st : BattleState) : bool :=
  negb (stunned st SidePlayer)
  && (0 <? get0 (inventory (player st)) item_id)
  && usable_in_battle ds item_id.

Definition is_skill_input (inp : player_input) : bool :=
  match inp with UseSkill _ => true | UseItem _ => false end.

Definition demo_with_potion : BattleState :=
  set_player demo_state (set_inventory demo_player {[ "potion" := 2 ]}).

Definition demo_potion_used : option BattleResult * BattleState * Rng.rng :=
  Eval vm_compute in
    match player_use_item demo_ds "potion" demo_with_potion demo_rng with
    | Ok r => r
    | Raise _ => (None, demo_state, demo_rng)
    end.

(** The player but for hp, effects and inventory. *)
Definition player_kept (p : Player) :=
  (actor_static (p_actor p), player_id p, level p, exp p, Entities.exp_to_next p,
   stat_points p, equipment p, allocated_stats p, base_stats p).

(** ** The turn counter *)

(** By how much the two counters moved, together. *)
Definition turns_moved (st st' : BattleState) (n : Z) : Prop :=
  turn st' = turn st + n /\ turn_index st' = turn_index st + n.

(** ** The result of a battle *)

(** What a returned result says about the state it is returned with: it
    carries the whole log, and a win of the player is over a dead enemy. *)
Definition sound_result (res : option BattleResult) (st' : BattleState) : Prop :=
  forall r, res = Some r ->
    result_logs r = logs st' /\
    ((winner r = "player" /\ is_dead (e_actor (enemy st')) = true) \/ winner r = "enemy").

Definition last_hit_run : option BattleResult * BattleState * Rng.rng :=
  Eval vm_compute in
    match run demo_ds [UseSkill "__basic__"] last_hit_state demo_rng with
    | Ok r => r
    | Raise _ => (None, last_hit_state, demo_rng)
    end.

(** ** The end-of-turn tick *)

Definition bleeding_slime : Actor :=
  mkActor "slime" (mkStats 8 0 5 0 30) (PInt 3)
    [] [bleed_5; mkEffect "stun" 2 f0_0 ∅ None].

(** ** Applying an effect *)

(** The probability gate of [apply_effect] is rolled: the chance is below
    1.0. *)
Definition gated (spec : effect_spec) : bool :=
  match py_float (default (PFloat f1_0) (es_chance spec)) with
  | Ok chance => SFltb chance f1_0
  | Raise _ => false
  end.

Definition stun_2_spec : effect_spec :=
  mkEffectSpec (Some "stun") None None (Some 2) None None None None (Some "enemy").

(** The probability gate of [apply_effect] is rolled and the roll fails. *)
Definition roll_fails (spec : effect_spec) (g : Rng.rng) : bool :=
  match py_float (default (PFloat f1_0) (es_chance spec)) with
  | Ok chance => SFltb chance f1_0 && negb (fst (roll_chance chance g))
  | Raise _ => false
  end.

Definition low_chance_spec : effect_spec :=
  mkEffectSpec (Some "stun") None (Some (PFloat (S754_zero true))) (Some 2) None None None None
    (Some "enemy").

Definition sure_miss_rng : Rng.rng := Rng.mkRng (fun _ => 1%N) 0.

Definition demo_failed_roll : combatant * list log_line * Rng.rng :=
  Eval vm_compute in
    match apply_effect (CEnemy demo_enemy) low_chance_spec [] sure_miss_rng None with
    | Ok r => r
    | Raise _ => (CEnemy demo_enemy, [], sure_miss_rng)
    end.

(** ** Experience as a total *)

(** All the exp it took to stand at level [lv] with [ex] exp, counted from
    level 0: the thresholds of the levels below, 20 + 10 i each, and the exp
    held. *)
Definition exp_total (lv ex : Z) : Z := 5 * lv * lv + 15 * lv + ex.

(** ** The stats of an enemy *)

(** The sum of the deltas for [k] of the effects that count. *)
Definition effect_delta (a : Actor) (k : string) : Z :=
  sum_list (map (fun e => get0 (stats_delta e) k) (List.filter effect_counts (effects a))).

(** ** Dungeon progress *)

(** [int] and [str] on decimal numerals, to run [clear_stage] on. *)
Definition dec_int (s : string) : result Z :=
  match NilZero.int_of_string s with
  | Some d => Ok (Z.of_int d)
  | None => Raise ValueError
  end.

Definition dec_str (z : Z) : result string := Ok (NilZero.string_of_int (Z.to_int z)).

(** No zone has a stage beyond the fifth unlocked. *)
Definition capped (dp : Dungeon.DungeonProgress) : Prop :=
  forall z v, Dungeon.unlocked_stage_by_zone dp !! z = Some v -> v <= 5.

Definition cleared_1_3 : Dungeon.DungeonProgress * option pyexn :=
  Eval vm_compute in Dungeon.clear_stage dec_int dec_str Dungeon.initial "1" 3.

Definition cleared_1_5 : Dungeon.DungeonProgress * option pyexn :=
  Eval vm_compute in Dungeon.clear_stage dec_int dec_str Dungeon.initial "1" 5.

(** ** Skill lists after loading *)

(** The ids of [ids] that the catalog knows, in their order. *)
Definition known_skills (ds : DataStore) (ids : list string) : list string :=
  List.filter (fun sid => bool_decide (is_Some (ds_skills ds !! sid))) ids.

(** ** Boss ids *)

(** [zid] occurs in [key]. *)
Definition occurs_in (zid key : string) : Prop :=
  exists pre post, key = String.append pre (String.append zid post).

(** ** Old inventories *)

(** How often [k] is in the list. *)
Fixpoint occurrences (k : string) (l : list string) : Z :=
  match l with
  | [] => 0
  | x :: l' => (if String.eqb x k then 1 else 0) + occurrences k l'
  end.

(** The sum of the counts of a dict. *)
Definition map_sum (m : gmap string Z) : Z := map_fold (fun _ v acc => acc + v) 0 m.

(** ** Stat points *)

(** What the negative entries of a spend dict take off its total. *)
Definition refund (spend : gmap string Z) : Z :=
  map_fold (fun _ v acc => acc + Z.max 0 (- v)) 0 spend.

(** Stat points in hand and allocated, together. *)
Definition points_owned (p : Player) : Z := stat_points p + map_sum (allocated_stats p).

Definition demo_rich : Player := set_allocation demo_player 4 ∅.

(** ** Loot *)

(** The drop [d] is one the entry [e] can yield: its item, with a quantity
    between the smaller and the larger of the entry's bounds. *)
Definition within_entry (e : drop_entry) (d : string * Z) : Prop :=
  de_item e = Some (fst d) /\ fst d <> "" /\
  let qty_min := default 1 (de_min e) in
  let qty_max := default qty_min (de_max e) in
  Z.min qty_min qty_max <= snd d <= Z.max qty_min qty_max.

(** ** The end of a battle *)

(** The copies of [item_id] that a list of drops puts in the inventory: a
    drop counts for its quantity, and for one copy when its quantity is
    below one. *)
Definition banked (item_id : string) (drop_list : list (string * Z)) : Z :=
  sum_list
    (map (fun d : string * Z => if decide (fst d = item_id) then Z.max 1 (snd d) else 0)
       drop_list).

(** What [finish_battle] leaves alone in a player when it banks drops. *)
Definition same_but_inventory (p p' : Player) : Prop :=
  p_actor p' = p_actor p /\ level p' = level p /\ exp p' = exp p /\
  Entities.exp_to_next p' = Entities.exp_to_next p /\
  stat_points p' = stat_points p /\ equipment p' = equipment p /\
  allocated_stats p' = allocated_stats p.

Definition demo_game : Controller.game :=
  Controller.mkGame demo_player Dungeon.initial (Some []) (Some ("1", 1)).

Definition demo_win : BattleResult :=
  mkBattleResult "player" 45 [("jelly", 0)] [("jelly", 0)] [].

(** * Properties *)

(** ** Generic facts *)

Lemma rbind_Ok {A B : Type} (r : result A) (k : A -> result B) (b : B) :
  rbind r k = Ok b -> exists a, r = Ok a /\ k a = Ok b.
Proof. destruct r as [a|e]; simpl; [eauto | discriminate]. Qed.

Ltac bind_step H :=
  match type of H with
  | context [rbind ?r _] =>
      let E := fresh "E" in
      destruct r eqn:E; cbn [rbind] in H; [ | discriminate H ]
  end.


(** ** Logs only grow *)

Lemma logs_put (st : BattleState) (c : combatant) : logs (put st c) = logs st.
Proof. destruct c; reflexivity. Qed.

Lemma apply_effect_logs target spec l g items c l' g' :
  apply_effect target spec l g items = Ok (c, l', g') -> l `prefix_of` l'.
Proof.
  unfold apply_effect. intros H.
  repeat bind_step H.
  destruct (if SFltb _ _ then _ else _) as [failed g1].
  destruct failed.
  { injection H as <- <- <-. by apply prefix_app_r. }
  repeat (case_decide; [ repeat bind_step H; injection H as <- <- <-;
                          try done; by apply prefix_app_r | ]).
  injection H as <- <- <-. by apply prefix_app_r.
Qed.





Ltac inv_ok :=
  repeat match goal with
         | H : rbind ?r _ = Ok _ |- _ =>
             destruct r eqn:?; cbn [rbind] in H; [ | discriminate H ]
         | H : (match ?p with (_, _) => _ end) = Ok _ |- _ =>
             first [ is_var p; destruct p | destruct p eqn:? ]
         | H : Ok _ = Ok _ |- _ =>
             first [ discriminate H | injection H; clear H; intros; subst ]
         | H : Raise _ = Ok _ |- _ => discriminate H
         end.


Lemma finish_logs ds st g w res st' g' :
  _finish ds st g w = Ok (res, st', g') -> logs st `prefix_of` logs st'.
Proof.
  unfold _finish. intros H.
  destruct (String.eqb w "player" && str_truthy (drop_table_id st)); inv_ok; simpl.
  - by apply prefix_app_r.
  - done.
Qed.

(** ** Damage *)




(** ** Conversions never produce nan *)








(** ** The damage of a skill use *)

















(** ** Total stats *)

Lemma get0_insert (d : gmap string Z) (k k' : string) (v : Z) :
  get0 (<[k := v]> d) k' = if decide (k = k') then v else get0 d k'.
Proof. unfold get0. rewrite lookup_insert. by case_decide. Qed.

Lemma get0_empty (k : string) : get0 ∅ k = 0.
Proof. unfold get0. by rewrite lookup_empty. Qed.

Lemma get0_add_all (src bonus : gmap string Z) (k : string) :
  get0 (add_all src bonus) k = get0 bonus k + get0 src k.
Proof.
  unfold add_all. revert k.
  apply (map_fold_weak_ind (fun r m => forall k, get0 r k = get0 bonus k + get0 m k)).
  - intros k. rewrite get0_empty. lia.
  - intros i x m r Hi IH k. rewrite !get0_insert.
    case_decide as Hk; [ subst | by apply IH ].
    rewrite IH. unfold get0 at 2. rewrite Hi. simpl. lia.
Qed.

Lemma get0_equip_bonus items eq : forall bonus k,
  get0 (equip_bonus items eq bonus) k =
  get0 bonus k + sum_list (map (fun obj => get0 (default ∅ (it_stats obj)) k) (worn items eq)).
Proof.
  unfold equip_bonus.
  induction eq as [|[slot id] eq IH]; simpl; intros bonus k; [ lia | ].
  destruct (slot_item items id) as [obj|]; simpl.
  - rewrite IH, get0_add_all. lia.
  - by rewrite IH.
Qed.

Lemma get0_effect_fold (effs : list EffectInstance) : forall bonus k,
  get0 (fold_left (fun b e => if effect_counts e then add_all (stats_delta e) b else b)
          effs bonus) k =
  get0 bonus k + sum_list (map (fun e => get0 (stats_delta e) k) (List.filter effect_counts effs)).
Proof.
  induction effs as [|e effs IH]; simpl; intros bonus k; [ lia | ].
  rewrite IH. destruct (effect_counts e); simpl; [ rewrite get0_add_all | ]; lia.
Qed.

Lemma get0_effect_bonus (a : Actor) (k : string) :
  get0 (_effect_bonus a) k =
  sum_list (map (fun e => get0 (stats_delta e) k) (List.filter effect_counts (effects a))).
Proof. unfold _effect_bonus. rewrite get0_effect_fold, get0_empty. lia. Qed.

Lemma total_bonus (p : Player) items (k : string) :
  get0 (add_all (_effect_bonus (p_actor p))
          (equip_bonus items (equipment p) (allocated_stats p))) k =
  additive_bonus p items k.
Proof.
  unfold additive_bonus. by rewrite get0_add_all, get0_equip_bonus, get0_effect_bonus.
Qed.

Lemma mult_at_insert (mults : gmap string spec_float) (k k' : string) (f : spec_float) :
  mult_at (<[k := f]> mults) k' = if decide (k = k') then f else mult_at mults k'.
Proof. unfold mult_at. rewrite lookup_insert. by case_decide. Qed.

Lemma apply_multiplier_of (obj : item_def) (mults : gmap string spec_float) :
  match apply_multiplier obj mults with
  | Ok mults' =>
      forall k, exists m,
        multiplier_of obj k = Ok m /\
        (is_Some (mults !! k) ->
         is_Some (mults' !! k) /\
         mult_at mults' k =
           match m with Some f => fmul (mult_at mults k) f | None => mult_at mults k end)
  | Raise e => forall k, multiplier_of obj k = Raise e
  end.
Proof.
  unfold apply_multiplier, multiplier_of.
  destruct (it_special obj) as [sp|]; [ | by eauto ].
  case_decide; [ | by eauto ].
  destruct (py_float _) as [mult|e]; cbn [rbind]; [ | done ].
  destruct (sp_stat sp) as [stat_key|].
  - destruct (mults !! stat_key) as [cur|] eqn:Hcur.
    + destruct (py_gt (PFloat mult) (PInt 0)) eqn:Hgt.
      * intros k. destruct (decide (stat_key = k)) as [->|Hne].
        -- rewrite bool_decide_eq_true_2 by done. simpl. eexists; split; [done|].
           intros _. rewrite lookup_insert_eq, mult_at_insert, decide_True by done.
           split; [by eauto|]. unfold mult_at. by rewrite Hcur.
        -- rewrite bool_decide_eq_false_2 by congruence. simpl. eexists; split; [done|].
           intros Hk. by rewrite lookup_insert_ne, mult_at_insert, decide_False.
      * intros k. rewrite andb_false_r. eauto.
    + intros k. destruct (decide (stat_key = k)) as [->|Hne].
      * destruct (bool_decide _ && py_gt _ _); eexists; (split; [done|]);
          rewrite Hcur; by intros [? ?].
      * rewrite bool_decide_eq_false_2 by congruence. simpl. eauto.
  - intros k. rewrite bool_decide_eq_false_2 by done. simpl. eauto.
Qed.

Lemma equip_multipliers_product items eq : forall mults,
  match equip_multipliers items eq mults with
  | Ok mults' =>
      forall k, is_Some (mults !! k) ->
        multiplier_product (worn items eq) k (mult_at mults k) = Ok (mult_at mults' k)
  | Raise e => forall k acc, multiplier_product (worn items eq) k acc = Raise e
  end.
Proof.
  induction eq as [|[slot id] eq IH]; simpl; intros mults; [ done | ].
  destruct (slot_item items id) as [obj|]; [ | apply IH ].
  pose proof (apply_multiplier_of obj mults) as Hobj.
  destruct (apply_multiplier obj mults) as [mults1|e]; cbn [rbind].
  - specialize (IH mults1).
    destruct (equip_multipliers items eq mults1) as [mults'|e].
    + intros k Hk. simpl. destruct (Hobj k) as (m & -> & Hm). cbn [rbind].
      destruct (Hm Hk) as [Hk1 <-]. by apply IH.
    + intros k acc. simpl. destruct (Hobj k) as (m & -> & _). cbn [rbind]. apply IH.
  - intros k acc. simpl. by rewrite Hobj.
Qed.

(** C2. [Player.total_stats] adds, in one step onto the base stats, the
    allocated points, the stats of the items worn and the deltas of the
    active buffs and debuffs; then scales each of the five fields by the
    product of the [stat_multiplier] specials of the items worn that name the
    field (a multiplier that is not above zero is left out); then truncates.
    The product applies to the sum, not to the base: base attack 10 with a
    buff of 5 and a weapon that doubles attack gives 30. *)
Theorem total_stats_pipeline :
  (forall p items, total_stats p items = spec_total_stats p items)
  /\
  total_stats
    (mkPlayer
       (mkActor "hero" (mkStats 0 0 0 0 0) (PInt 1) []
          [mkEffect "buff_stats" 2 f0_0 {["attack" := 5]} None])
       "p1" 1 0 30 0 ∅ [("weapon", Some "blade")] ∅ (mkStats 10 0 0 0 1))
    (Some {["blade" :=
              mkItem None (Some "equipment") (Some "weapon") None
                (Some (mkSpecial (Some "stat_multiplier") (Some "attack")
                         (Some (PInt 2)) None None None None))
                None]})
  = Ok (mkStats 30 0 0 0 1).
Proof.
  split; [ | by vm_compute ].
  intros p items. unfold total_stats, spec_total_stats, stat_total.
  pose proof (equip_multipliers_product items (equipment p) multipliers_init) as H.
  destruct (equip_multipliers items (equipment p) multipliers_init) as [mults|e];
    cbn [rbind].
  - assert (Hkey : forall k, k ∈ stat_keys ->
              multiplier_product (worn items (equipment p)) k f1_0 = Ok (mult_at mults k)).
    { intros k Hk. specialize (H k).
      unfold stat_keys in Hk. rewrite !elem_of_cons, elem_of_nil in Hk.
      destruct Hk as [->|[->|[->|[->|[->|[]]]]]]; apply H; by vm_compute; eauto. }
    rewrite !Hkey by (unfold stat_keys; set_solver). cbn [rbind].
    simpl. by rewrite !total_bonus.
  - by rewrite H.
Qed.

(** ** Loot and the end of a battle *)

Lemma randint_total (a b : Z) (g : Rng.rng) :
  a <= b -> exists q g', Rng.randint a b g = Ok (q, g') /\ a <= q <= b.
Proof.
  intros Hab. unfold Rng.randint, Rng.randbelow.
  destruct (Z.ltb_spec b a); [ lia | ].
  destruct (Rng.next g) as [k g']. do 2 eexists. split; [ reflexivity | ].
  pose proof (Z.mod_pos_bound (Z.of_N k) (b - a + 1)). lia.
Qed.

Lemma roll_entries_total (table : list drop_entry) : forall g results,
  exists out g', Loot.roll_entries table g results = Ok (out, g').
Proof.
  induction table as [|entry table IH]; intros g results;
    cbn [Loot.roll_entries]; [ eauto | ].
  destruct (Rng.random g) as [r g1].
  destruct (py_le _ _); [ | apply IH ].
  destruct (str_truthy _); [ | apply IH ].
  destruct (randint_total (Z.min (default 1 (de_min entry))
                             (default (default 1 (de_min entry)) (de_max entry)))
              (Z.max (default 1 (de_min entry))
                 (default (default 1 (de_min entry)) (de_max entry))) g1)
    as (q & g2 & -> & _); [ lia | ].
  cbn [rbind]. apply IH.
Qed.

Lemma roll_drop_total (table_name : string) (ds : DataStore) (g : Rng.rng) :
  exists out g', Loot.roll_drop table_name ds g = Ok (out, g').
Proof. apply roll_entries_total. Qed.

Lemma total_stats_set_hp (p : Player) (h : pynum) items :
  total_stats (set_p_actor p (set_hp (p_actor p) h)) items = total_stats p items.
Proof. reflexivity. Qed.

(** C3. When [_finish] returns, for any winner: the player's hp is the max
    hp of the total stats computed afresh, both effect lists are empty, the
    exp of the result is the expected reward for the winner "player" and 0
    otherwise, and the drop table is rolled exactly when the winner is
    "player" and a drop table id is set. [_finish] returns whenever the total
    stats of the player can be computed. *)
Theorem finish_cleanup :
  (forall ds st g w res st' g',
     _finish ds st g w = Ok (res, st', g') ->
     (exists s, total_stats (player st') (Some (ds_items ds)) = Ok s /\
                hp (p_actor (player st')) = PInt (max_hp s)) /\
     effects (p_actor (player st')) = [] /\
     effects (e_actor (enemy st')) = [] /\
     winner res = w /\
     exp_reward res = (if String.eqb w "player" then expected_exp st else 0) /\
     (if rolls_loot st w
      then Loot.roll_drop (default "" (drop_table_id st)) ds g = Ok (drop_details res, g')
      else drop_details res = [] /\ g' = g /\ logs st' = logs st))
  /\
  (forall ds st g w s,
     total_stats (rested (player st)) (Some (ds_items ds)) = Ok s ->
     exists res st' g', _finish ds st g w = Ok (res, st', g')).
Proof.
  split.
  - intros ds st g w res st' g' H. unfold _finish in H. fold (rolls_loot st w) in H.
    destruct (rolls_loot st w) eqn:Hroll; inv_ok; simpl.
    + repeat split; eauto.
    + repeat split; eauto.
  - intros ds st g w s Hs. unfold _finish. fold (rolls_loot st w).
    destruct (rolls_loot st w).
    + destruct (roll_drop_total (default "" (drop_table_id st)) ds g) as (out & g1 & ->).
      cbn [rbind]. simpl. unfold rested in Hs. simpl in Hs. rewrite Hs. cbn [rbind]. eauto.
    + cbn [rbind]. simpl. unfold rested in Hs. simpl in Hs. rewrite Hs. cbn [rbind]. eauto.
Qed.

Lemma finish_cleanup_witness :
  _finish demo_ds demo_state demo_rng "player" = Ok demo_finish /\
  hp (p_actor (player (snd (fst demo_finish)))) = PInt 50 /\
  effects (p_actor (player (snd (fst demo_finish)))) = [] /\
  exp_reward (fst (fst demo_finish)) = 12 /\
  drop_details (fst (fst demo_finish)) = [("jelly", 1)].
Proof.
  assert (H : _finish demo_ds demo_state demo_rng "player" = Ok demo_finish)
    by (vm_compute; reflexivity).
  destruct (proj1 finish_cleanup demo_ds demo_state demo_rng "player"
              (fst (fst demo_finish)) (snd (fst demo_finish)) (snd demo_finish) H)
    as (_ & He & _ & _ & Hexp & _).
  exact (conj H (conj eq_refl (conj He (conj Hexp eq_refl)))).
Defined.

(** ** Experience and levels *)

Lemma level_up_loop_spec (lv ex sp : Z) (logs : list log_line) :
  let '(lv', ex', sp', _) := level_up_loop lv ex sp logs in
  level_steps (lv, ex, sp) (lv', ex', sp') /\ ex' < exp_to_next lv'.
Proof.
  funelim (level_up_loop lv ex sp logs).
  - destruct (level_up_loop _ _ _ _) as [[[lv' ex'] sp'] logs'].
    destruct H as [Hsteps Hlt]. split; [ | exact Hlt ].
    by apply steps_more.
  - split; [ apply steps_done | lia ].
Qed.

Lemma level_up_loop_once (lv ex sp : Z) (logs : list log_line) :
  exp_to_next lv <= ex -> ex - exp_to_next lv < exp_to_next (lv + 1) ->
  level_up_loop lv ex sp logs =
  (lv + 1, ex - exp_to_next lv, sp + 4, logs ++ [LogLevelUp (lv + 1)]).
Proof.
  intros H1 H2. simp level_up_loop.
  destruct (Z_ge_dec ex (exp_to_next lv)); [ | lia ]. simpl.
  simp level_up_loop.
  destruct (Z_ge_dec (ex - exp_to_next lv) (exp_to_next (lv + 1))); [ lia | ]. reflexivity.
Qed.

(** C9. [exp_to_next level] is [20 + level * 10] and strictly increasing.
    [gain_exp] adds the amount to the exp and runs the level-up loop: each
    turn of the loop takes the threshold off the exp, raises the level by one
    and grants four stat points, several times in one call if need be. When
    it returns the exp is below the threshold of the new level, and what is
    left of the exp is kept. A player at level 1 with no exp who gains 35
    ends at level 2 with exp 5 and four more stat points. *)
Theorem gain_exp_levels :
  (forall lv, exp_to_next lv = 20 + lv * 10) /\
  (forall l1 l2, l1 < l2 -> exp_to_next l1 < exp_to_next l2) /\
  (forall p amount,
     let p' := fst (gain_exp p amount) in
     level_steps (level p, exp p + amount, stat_points p)
       (level p', exp p', stat_points p') /\
     exp p' < exp_to_next (level p') /\
     p' = set_progress p (level p') (exp p') (stat_points p')) /\
  (forall p, level p = 1 -> exp p = 0 ->
     let p' := fst (gain_exp p 35) in
     level p' = 2 /\ exp p' = 5 /\ stat_points p' = stat_points p + 4).
Proof.
  split; [ reflexivity | ].
  split; [ unfold exp_to_next; lia | ].
  split.
  - intros p amount. unfold gain_exp.
    pose proof (level_up_loop_spec (level p) (exp p + amount) (stat_points p) [LogExp amount]) as H.
    destruct (level_up_loop _ _ _ _) as [[[lv' ex'] sp'] logs']. simpl.
    destruct H as [H1 H2]. auto.
  - intros p Hl He. unfold gain_exp. rewrite Hl, He.
    rewrite level_up_loop_once by (unfold exp_to_next; lia).
    simpl. unfold exp_to_next. repeat split; lia.
Qed.

Lemma gain_exp_levels_witness :
  level demo_player = 1 /\ exp demo_player = 0 /\
  level (fst (gain_exp demo_player 35)) = 2 /\
  exp (fst (gain_exp demo_player 35)) = 5 /\
  stat_points (fst (gain_exp demo_player 35)) = stat_points demo_player + 4.
Proof.
  exact (conj eq_refl (conj eq_refl
           (proj2 (proj2 (proj2 gain_exp_levels)) demo_player eq_refl eq_refl))).
Defined.

(** ** Equipment and inventory *)

Lemma holds_None (i : string) : holds None i = 0.
Proof. reflexivity. Qed.

Lemma worn_count_od_set (eq : list (string * option string)) (slot : string)
    (v : option string) (i : string) :
  worn_count (od_set eq slot v) i =
  worn_count eq i - holds (default None (od_get eq slot)) i + holds v i.
Proof.
  induction eq as [|[k v'] eq IH]; simpl.
  - rewrite holds_None. lia.
  - destruct (String.eqb k slot); simpl; [ lia | rewrite IH; lia ].
Qed.

Lemma equipped_default (p : Player) (slot : string) :
  equipped p slot = default None (od_get (equipment p) slot).
Proof. unfold equipped. by destruct (od_get _ _). Qed.

Lemma get0_add_item (p : Player) (k : string) (i : string) :
  get0 (inventory (add_item_to_inventory p k 1)) i =
  get0 (inventory p) i + (if decide (k = i) then 1 else 0).
Proof.
  unfold add_item_to_inventory. simpl. rewrite get0_insert.
  case_decide; subst; lia.
Qed.

Lemma get0_delete (d : gmap string Z) (k i : string) :
  get0 (delete k d) i = if decide (k = i) then 0 else get0 d i.
Proof. unfold get0. rewrite lookup_delete. by case_decide. Qed.

Lemma get0_remove_item (p : Player) (k : string) (i : string) :
  1 <= get0 (inventory p) k ->
  get0 (inventory (snd (remove_item_from_inventory p k 1))) i =
  get0 (inventory p) i - (if decide (k = i) then 1 else 0).
Proof.
  intros Hk. unfold remove_item_from_inventory.
  change (Z.max 1 1) with 1.
  destruct (Z.ltb_spec (get0 (inventory p) k) 1); [ lia | ].
  destruct (Z.leb_spec (get0 (inventory p) k - 1) 0); simpl.
  - rewrite get0_delete. case_decide; subst; lia.
  - rewrite get0_insert. case_decide; subst; lia.
Qed.

Lemma equipment_remove_item (p : Player) (k : string) (q : Z) :
  equipment (snd (remove_item_from_inventory p k q)) = equipment p.
Proof.
  unfold remove_item_from_inventory.
  destruct (_ <? _); [ done | ]. by destruct (_ <=? _).
Qed.

Lemma holds_truthy (v : option string) (i : string) :
  str_truthy v = true ->
  holds v i = if decide (default "" v = i) then 1 else 0.
Proof.
  intros Hv. unfold holds. rewrite Hv. simpl.
  destruct v as [s|]; [ | discriminate ]. simpl.
  destruct (decide (s = i)) as [->|Hne].
  - by rewrite bool_decide_eq_true_2.
  - rewrite bool_decide_eq_false_2; [ done | congruence ].
Qed.

Lemma holds_falsy (v : option string) (i : string) :
  str_truthy v = false -> holds v i = 0.
Proof. intros Hv. unfold holds. by rewrite Hv. Qed.

Lemma valid_slot_Some (slot : option string) :
  valid_slot slot = true -> exists s, slot = Some s.
Proof. destruct slot; [ eauto | discriminate ]. Qed.

Lemma str_truthy_Some (s : string) : s <> "" -> str_truthy (Some s) = true.
Proof.
  intros H. simpl. destruct (String.eqb_spec s ""); [ contradiction | reflexivity ].
Qed.

Lemma equip_item_count (p : Player) (item_id : string) (ds : DataStore)
    (msg : message) (p' : Player) (i : string) :
  item_id <> "" ->
  equip_item p item_id ds = (true, msg, p') ->
  total_count p' i = total_count p i.
Proof.
  intros Hid H. unfold equip_item in H.
  destruct (get_item ds item_id) as [item|]; [ | discriminate ].
  destruct (negb (bool_decide _)); [ discriminate | ].
  destruct (negb (valid_slot _)); [ discriminate | ].
  destruct (Z.leb_spec (get0 (inventory p) item_id) 0) as [|Hpos]; [ discriminate | ].
  injection H as <- <-.
  set (slot := default "" (it_slot item)).
  set (p1 := if str_truthy (equipped p slot)
             then add_item_to_inventory p (default "" (equipped p slot)) 1 else p).
  set (p2 := set_equipment p1 (od_set (equipment p1) slot (Some item_id))).
  assert (Heq1 : equipment p1 = equipment p) by (subst p1; by destruct (str_truthy _)).
  assert (Hinv1 : forall j, get0 (inventory p1) j =
                    get0 (inventory p) j + holds (equipped p slot) j).
  { intros j. subst p1. destruct (str_truthy (equipped p slot)) eqn:Hprev.
    - by rewrite get0_add_item, (holds_truthy _ _ Hprev).
    - rewrite (holds_falsy _ _ Hprev). lia. }
  assert (Hholds : forall v j, 0 <= holds v j).
  { intros v j. unfold holds. destruct (_ && _); lia. }
  unfold total_count.
  rewrite get0_remove_item.
  - change (inventory p2) with (inventory p1).
    rewrite equipment_remove_item.
    change (equipment p2) with (od_set (equipment p1) slot (Some item_id)).
    rewrite Hinv1, worn_count_od_set, Heq1, <- equipped_default,
      (holds_truthy _ _ (str_truthy_Some _ Hid)). simpl.
    case_decide; lia.
  - change (inventory p2) with (inventory p1). rewrite Hinv1.
    specialize (Hholds (equipped p slot) item_id). lia.
Qed.

Lemma unequip_slot_count (p : Player) (slot : string) (ds : DataStore)
    (ok : bool) (msg : message) (p' : Player) (i : string) :
  unequip_slot p slot ds = (ok, msg, p') ->
  total_count p' i = total_count p i.
Proof.
  intros H. unfold unequip_slot in H.
  destruct (negb (valid_slot _)); [ by injection H as <- <- <- | ].
  destruct (str_truthy (equipped p slot)) eqn:Hcur; simpl in H;
    [ | by injection H as <- <- <- ].
  injection H as <- <- <-. unfold total_count. simpl.
  rewrite get0_insert, worn_count_od_set, <- equipped_default,
    (holds_truthy _ _ Hcur), holds_None.
  repeat case_decide; subst; lia.
Qed.

Lemma od_get_set (V : Type) (d : list (string * V)) (k : string) (v : V) :
  od_get (od_set d k v) k = Some v.
Proof.
  induction d as [|[k' v'] d IH]; simpl.
  - by rewrite String.eqb_refl.
  - destruct (String.eqb k' k) eqn:Hk; simpl.
    + by rewrite String.eqb_refl.
    + by rewrite Hk.
Qed.

Lemma equip_item_success (p : Player) (item_id : string) (ds : DataStore)
    (msg : message) (p' : Player) :
  equip_item p item_id ds = (true, msg, p') ->
  exists item slot,
    get_item ds item_id = Some item /\
    it_type item = Some "equipment" /\
    it_slot item = Some slot /\
    valid_slot (Some slot) = true /\
    0 < get0 (inventory p) item_id /\
    equipped p' slot = Some item_id /\
    (forall i, get0 (inventory p') i =
               get0 (inventory p) i - (if decide (item_id = i) then 1 else 0)
               + holds (equipped p slot) i).
Proof.
  intros H. unfold equip_item in H.
  destruct (get_item ds item_id) as [item|]; [ | discriminate ].
  destruct (bool_decide (it_type item = Some "equipment")) eqn:Hty; [ | discriminate ].
  apply bool_decide_eq_true in Hty.
  destruct (valid_slot (it_slot item)) eqn:Hslot; [ | discriminate ]. simpl in H.
  destruct (Z.leb_spec (get0 (inventory p) item_id) 0) as [|Hpos]; [ discriminate | ].
  injection H as <- <-.
  destruct (valid_slot_Some _ Hslot) as [slot Hs]. rewrite Hs in *. simpl.
  set (p1 := if str_truthy (equipped p slot)
             then add_item_to_inventory p (default "" (equipped p slot)) 1 else p).
  set (p2 := set_equipment p1 (od_set (equipment p1) slot (Some item_id))).
  assert (Hinv1 : forall j, get0 (inventory p1) j =
                    get0 (inventory p) j + holds (equipped p slot) j).
  { intros j. subst p1. destruct (str_truthy (equipped p slot)) eqn:Hprev.
    - by rewrite get0_add_item, (holds_truthy _ _ Hprev).
    - rewrite (holds_falsy _ _ Hprev). lia. }
  assert (Hholds : forall v j, 0 <= holds v j).
  { intros v j. unfold holds. destruct (_ && _); lia. }
  exists item, slot. repeat split; auto.
  - unfold equipped. rewrite equipment_remove_item.
    change (equipment p2) with (od_set (equipment p1) slot (Some item_id)).
    by rewrite od_get_set.
  - intros i. rewrite get0_remove_item.
    + change (inventory p2) with (inventory p1). rewrite Hinv1. lia.
    + change (inventory p2) with (inventory p1). rewrite Hinv1.
      specialize (Hholds (equipped p slot) item_id). lia.
Qed.

Lemma equip_item_failure (p : Player) (item_id : string) (ds : DataStore)
    (msg : message) (p' : Player) :
  equip_item p item_id ds = (false, msg, p') ->
  p' = p /\
  match get_item ds item_id with
  | None => msg = MsgItemNotFound
  | Some item =>
      (it_type item <> Some "equipment" /\ msg = MsgOnlyEquipment) \/
      (valid_slot (it_slot item) = false /\ msg = MsgBadEquipSlot) \/
      (get0 (inventory p) item_id <= 0 /\ msg = MsgNotInInventory)
  end.
Proof.
  intros H. unfold equip_item in H.
  destruct (get_item ds item_id) as [item|]; [ | by injection H as <- <- ].
  destruct (bool_decide (it_type item = Some "equipment")) eqn:Hty; simpl in H.
  - destruct (valid_slot (it_slot item)) eqn:Hslot; simpl in H.
    + destruct (Z.leb_spec (get0 (inventory p) item_id) 0); [ | discriminate ].
      injection H as <- <-. auto.
    + injection H as <- <-. auto.
  - apply bool_decide_eq_false in Hty. injection H as <- <-. auto.
Qed.

Lemma equip_item_count_any (p : Player) (item_id : string) (ds : DataStore)
    (msg : message) (p' : Player) (i : string) :
  equip_item p item_id ds = (true, msg, p') ->
  total_count p' i =
  total_count p i - (if decide (item_id = i) then 1 else 0) + holds (Some item_id) i.
Proof.
  intros H. unfold equip_item in H.
  destruct (get_item ds item_id) as [item|]; [ | discriminate ].
  destruct (negb (bool_decide _)); [ discriminate | ].
  destruct (negb (valid_slot _)); [ discriminate | ].
  destruct (Z.leb_spec (get0 (inventory p) item_id) 0) as [|Hpos]; [ discriminate | ].
  injection H as <- <-.
  set (slot := default "" (it_slot item)).
  set (p1 := if str_truthy (equipped p slot)
             then add_item_to_inventory p (default "" (equipped p slot)) 1 else p).
  set (p2 := set_equipment p1 (od_set (equipment p1) slot (Some item_id))).
  assert (Heq1 : equipment p1 = equipment p) by (subst p1; by destruct (str_truthy _)).
  assert (Hinv1 : forall j, get0 (inventory p1) j =
                    get0 (inventory p) j + holds (equipped p slot) j).
  { intros j. subst p1. destruct (str_truthy (equipped p slot)) eqn:Hprev.
    - by rewrite get0_add_item, (holds_truthy _ _ Hprev).
    - rewrite (holds_falsy _ _ Hprev). lia. }
  assert (Hholds : forall v j, 0 <= holds v j).
  { intros v j. unfold holds. destruct (_ && _); lia. }
  unfold total_count.
  rewrite get0_remove_item.
  - change (inventory p2) with (inventory p1).
    rewrite equipment_remove_item.
    change (equipment p2) with (od_set (equipment p1) slot (Some item_id)).
    rewrite Hinv1, worn_count_od_set, Heq1, <- equipped_default. lia.
  - change (inventory p2) with (inventory p1). rewrite Hinv1.
    specialize (Hholds (equipped p slot) item_id). lia.
Qed.

(** C10. [equip_item] either fails, for an unknown item, a type other than
    equipment, an invalid slot or no copy in the inventory, and then leaves
    the player as it was; or it puts the item in its slot, takes one copy
    out of the inventory and puts the item the slot held back into the
    inventory. A successful equip of an item whose id is not the empty
    string and every [unequip_slot] keep, for each item id, the number of
    copies in the inventory and the slots together. With the empty string
    as id a successful equip loses the copy: a slot that holds the empty
    string reads as empty. *)
Theorem equip_keeps_item_counts :
  (forall p item_id ds msg p',
     equip_item p item_id ds = (false, msg, p') ->
     p' = p /\
     match get_item ds item_id with
     | None => msg = MsgItemNotFound
     | Some item =>
         (it_type item <> Some "equipment" /\ msg = MsgOnlyEquipment) \/
         (valid_slot (it_slot item) = false /\ msg = MsgBadEquipSlot) \/
         (get0 (inventory p) item_id <= 0 /\ msg = MsgNotInInventory)
     end)
  /\
  (forall p item_id ds msg p',
     item_id <> "" ->
     equip_item p item_id ds = (true, msg, p') ->
     (exists item slot,
        get_item ds item_id = Some item /\
        it_type item = Some "equipment" /\
        it_slot item = Some slot /\
        valid_slot (Some slot) = true /\
        0 < get0 (inventory p) item_id /\
        equipped p' slot = Some item_id /\
        (forall i, get0 (inventory p') i =
                   get0 (inventory p) i - (if decide (item_id = i) then 1 else 0)
                   + holds (equipped p slot) i)) /\
     (forall i, total_count p' i = total_count p i))
  /\
  (forall p slot ds ok msg p',
     unequip_slot p slot ds = (ok, msg, p') ->
     forall i, total_count p' i = total_count p i)
  /\
  (forall p ds msg p',
     equip_item p "" ds = (true, msg, p') ->
     (exists item slot,
        get_item ds "" = Some item /\ it_slot item = Some slot /\
        equipped p' slot = Some "" /\
        unequip_slot p' slot ds = (false, MsgNothingEquipped, p')) /\
     forall i, total_count p' i = total_count p i - (if decide (i = "") then 1 else 0)).
Proof.
  split; [ | split; [ | split ] ].
  - apply equip_item_failure.
  - intros p item_id ds msg p' Hid H. split.
    + eauto using equip_item_success.
    + intros i. eauto using equip_item_count.
  - intros p slot ds ok msg p' H i. eauto using unequip_slot_count.
  - intros p ds msg p' H. split.
    + destruct (equip_item_success _ _ _ _ _ H)
        as (item & slot & Hitem & _ & Hslot & Hvalid & _ & Heq & _).
      exists item, slot. repeat split; auto.
      unfold unequip_slot. rewrite Hvalid, Heq. reflexivity.
    + intros i. rewrite (equip_item_count_any _ _ _ _ _ i H).
      rewrite (holds_falsy (Some "") i) by reflexivity.
      destruct (decide ("" = i)), (decide (i = "")); congruence || lia.
Qed.

(** With the empty string as the id of a weapon, two equips in a row
    succeed and leave of two copies at most the one in the slot, which
    [unequip_slot] does not give back. *)
Lemma equip_empty_id_loses_copy :
  get0 (inventory nameless_holder) "" = 2 /\
  equipment nameless_holder = [("weapon", None); ("armor", None); ("accessory", None)] /\
  equip_item nameless_holder "" nameless_ds = (true, MsgEquipped "Nameless", nameless_once) /\
  equip_item nameless_once "" nameless_ds = (true, MsgEquipped "Nameless", nameless_twice) /\
  inventory nameless_twice = ∅ /\
  equipment nameless_twice = [("weapon", Some ""); ("armor", None); ("accessory", None)] /\
  unequip_slot nameless_twice "weapon" nameless_ds
    = (false, MsgNothingEquipped, nameless_twice) /\
  total_count nameless_holder "" = 2 /\
  total_count nameless_once "" = 1 /\
  total_count nameless_twice "" = 0.
Proof. repeat split; vm_compute; reflexivity. Qed.

Lemma equip_keeps_item_counts_witness :
  "blade" <> "" /\
  equipped demo_two_blades "weapon" = Some "blade" /\
  get0 (inventory demo_two_blades) "blade" = 1 /\
  equip_item demo_two_blades "blade" demo_ds = (true, MsgEquipped "Blade", demo_reequipped) /\
  total_count demo_reequipped "blade" = total_count demo_two_blades "blade" /\
  get0 (inventory demo_reequipped) "blade" = 1.
Proof.
  assert (H1 : "blade" <> "") by discriminate.
  assert (H2 : equip_item demo_two_blades "blade" demo_ds
               = (true, MsgEquipped "Blade", demo_reequipped)) by (vm_compute; reflexivity).
  split; [ exact H1 | ]. split; [ reflexivity | ]. split; [ reflexivity | ].
  split; [ exact H2 | ]. split; [ | reflexivity ].
  exact (proj2 (proj1 (proj2 equip_keeps_item_counts) demo_two_blades "blade" demo_ds
                  (MsgEquipped "Blade") demo_reequipped H1 H2) "blade").
Defined.

(** ** Drop tables *)

Lemma digits2_pos_iter_xO (p n : positive) :
  digits2_pos (Pos.iter xO p n) = (digits2_pos p + n)%positive.
Proof.
  induction n as [|n IH] using Pos.peano_ind.
  - simpl. lia.
  - rewrite Pos.iter_succ. simpl. rewrite IH. lia.
Qed.

Lemma digits2_pos_bound (p : positive) : forall k,
  0 <= k -> Zpos p < 2 ^ k -> Zpos (digits2_pos p) <= k.
Proof.
  induction p as [p IH|p IH|]; intros k Hk H; simpl.
  - assert (k <> 0) by (intros ->; simpl in H; lia).
    replace k with (Z.succ (k - 1)) in H by lia.
    rewrite Z.pow_succ_r in H by lia.
    specialize (IH (k - 1)). lia.
  - assert (k <> 0) by (intros ->; simpl in H; lia).
    replace k with (Z.succ (k - 1)) in H by lia.
    rewrite Z.pow_succ_r in H by lia.
    specialize (IH (k - 1)). lia.
  - assert (k <> 0) by (intros ->; simpl in H; lia). lia.
Qed.

Lemma binary_round_aux_canonical (mz : positive) (ez : Z) :
  Zpos (digits2_pos mz) = 53 -> -1074 <= ez <= 971 ->
  binary_round_aux prec emax false (Zpos mz) ez loc_Exact = S754_finite false mz ez.
Proof.
  intros Hd He.
  assert (Hshift : shr_fexp prec emax (Zpos mz) ez loc_Exact
                   = ({| shr_m := Zpos mz; shr_r := false; shr_s := false |}, ez)).
  { unfold shr_fexp. simpl Zdigits2. rewrite Hd.
    replace (fexp prec emax (53 + ez) - ez) with 0
      by (unfold fexp, emin, prec, emax; lia).
    reflexivity. }
  unfold binary_round_aux. rewrite Hshift.
  cbn [shr_m loc_of_shr_record round_nearest_even]. rewrite Hshift. cbn [shr_m].
  destruct (Z.leb_spec ez (emax - prec)) as [_|Hgt]; [ done | ].
  unfold emax, prec in Hgt. lia.
Qed.

Lemma digits2_pos_upper (p : positive) : Zpos p < 2 ^ Zpos (digits2_pos p).
Proof.
  induction p as [p IH|p IH|]; simpl digits2_pos; [ | | done ];
    rewrite Pos2Z.inj_succ, Z.pow_succ_r by lia; lia.
Qed.

Lemma random_unit_draw (g : Rng.rng) : unit_draw (fst (Rng.random g)).
Proof.
  unfold Rng.random, Rng.next. simpl.
  assert (Hk : 0 <= Z.of_N (Rng.tape g (Rng.cursor g)) mod 2 ^ 53 < 2 ^ 53)
    by (apply Z.mod_pos_bound; lia).
  destruct (Z.of_N (Rng.tape g (Rng.cursor g)) mod 2 ^ 53) as [|mx|mx];
    [ by left | right | lia ].
  unfold binary_normalize, binary_round.
  pose proof (digits2_pos_bound mx 53 ltac:(lia) (proj2 Hk)) as Hd.
  assert (Hf : fexp prec emax (Z.pos (digits2_pos mx) + -53) = Z.pos (digits2_pos mx) - 106)
    by (unfold fexp, emin, prec, emax; lia).
  rewrite Hf. unfold shl_align.
  destruct (Z.pos (digits2_pos mx) - 106 - -53) as [|d|d] eqn:Hdiff; [ | lia | ].
  - rewrite binary_round_aux_canonical by lia.
    exists mx, (-53). split; [ done | lia ].
  - rewrite binary_round_aux_canonical; [ | rewrite digits2_pos_iter_xO; lia | lia ].
    eexists _, _. split; [ done | ]. rewrite digits2_pos_iter_xO. lia.
Qed.

(** A draw is below 1.0, and below the int 1. *)
Lemma unit_draw_le_one (r : spec_float) :
  unit_draw r -> py_le (PFloat r) (PFloat f1_0) = true /\ py_le (PFloat r) (PInt 1) = true.
Proof.
  intros [->|(m & e & -> & Hd & He)]; [ done | ].
  unfold py_le, py_compare, f1_0. cbn [SFcompare float_compare_int].
  split.
  - destruct (Z.compare_spec e (-52)); [ lia | done | lia ].
  - destruct e as [|p|p]; [ lia | lia | ].
    pose proof (digits2_pos_upper m) as Hm. rewrite Hd in Hm.
    assert (Hp : 2 ^ 53 <= 2 ^ Z.pos p) by (apply Z.pow_le_mono_r; lia).
    destruct (Z.compare_spec (Z.pos m) (1 * 2 ^ Z.pos p)); [ done | done | lia ].
Qed.

Lemma roll_entries_shape (table : list drop_entry) : forall g results out g',
  Loot.roll_entries table g results = Ok (out, g') ->
  exists fresh,
    out = results ++ fresh /\
    (length fresh <= length table)%nat /\
    Forall (in_entry_range table) fresh.
Proof.
  induction table as [|entry table IH]; intros g results out g' H;
    cbn [Loot.roll_entries] in H.
  - injection H as <- <-. exists []. by rewrite app_nil_r.
  - assert (Hweak : forall fresh, Forall (in_entry_range table) fresh ->
                                  Forall (in_entry_range (entry :: table)) fresh).
    { intros fresh Hf. eapply Forall_impl; [ exact Hf | ]. intros iq (e & He & Hi & Hq).
      exists e. split; [ by right | done ]. }
    destruct (Rng.random g) as [r g1].
    destruct (py_le _ _).
    + destruct (str_truthy (de_item entry)) eqn:Hitem.
      * destruct (randint_total
                    (Z.min (default 1 (de_min entry))
                       (default (default 1 (de_min entry)) (de_max entry)))
                    (Z.max (default 1 (de_min entry))
                       (default (default 1 (de_min entry)) (de_max entry))) g1)
          as (q & g2 & Hq & Hrange); [ lia | ].
        rewrite Hq in H. cbn [rbind] in H.
        destruct (IH _ _ _ _ H) as (fresh & -> & Hlen & Hall).
        exists ((default "" (de_item entry), q) :: fresh).
        rewrite <- app_assoc. split; [ done | ]. split; [ simpl; lia | ].
        constructor; [ | auto ].
        exists entry. split; [ by left | ]. split; [ | exact Hrange ].
        destruct (de_item entry); [ done | discriminate ].
      * destruct (IH _ _ _ _ H) as (fresh & -> & Hlen & Hall).
        exists fresh. split; [ done | ]. split; [ simpl; lia | auto ].
    + destruct (IH _ _ _ _ H) as (fresh & -> & Hlen & Hall).
      exists fresh. split; [ done | ]. split; [ simpl; lia | auto ].
Qed.

Lemma roll_entries_sure (table : list drop_entry) : forall g results out g',
  Loot.roll_entries table g results = Ok (out, g') ->
  forall entry, entry ∈ table -> sure_entry entry ->
  exists q, (default "" (de_item entry), q) ∈ out.
Proof.
  induction table as [|e table IH]; intros g results out g' H entry Hin Hsure;
    [ by apply elem_of_nil in Hin | ].
  cbn [Loot.roll_entries] in H.
  pose proof (random_unit_draw g) as Hdraw.
  destruct (Rng.random g) as [r g1]. simpl in Hdraw.
  apply elem_of_cons in Hin as [->|Hin].
  - destruct Hsure as [Hchance Hitem].
    assert (Hle : py_le (PFloat r) (default (PInt 0) (de_chance e)) = true).
    { destruct (unit_draw_le_one r Hdraw) as [Hf Hi].
      destruct Hchance as [-> | ->]; assumption. }
    rewrite Hle, Hitem in H.
    bind_step H. destruct a as [q g2].
    destruct (roll_entries_shape _ _ _ _ _ H) as (fresh & -> & _).
    exists q. apply elem_of_app. left. apply elem_of_app. right. by apply list_elem_of_singleton.
  - destruct (py_le _ _); [ destruct (str_truthy (de_item e)) | ]; eauto.
    bind_step H. destruct a as [q g2]. eauto.
Qed.

(** C8 on the code: an entry with chance 0.0 is emitted when the generator
    draws 0.0, because the test is [rng.random() <= chance]. For the rest a
    roll does what is expected of it: whatever it emits is an item of an
    entry of the table, at most one per entry, with a quantity between the
    two bounds of the entry; and a roll always returns, with the item of
    every entry of chance 1.0 among its drops, since a draw is below 1. *)
Theorem roll_drop_zero_chance_fires :
  Loot.roll_drop "t" never_ds demo_rng = Ok ([("a", 1)], Rng.mkRng (Rng.tape demo_rng) 2)
  /\
  (forall name ds g out g',
     Loot.roll_drop name ds g = Ok (out, g') ->
     (length out <= length (default [] (ds_drop_tables ds !! name)))%nat /\
     Forall (in_entry_range (default [] (ds_drop_tables ds !! name))) out)
  /\
  (forall name ds g,
     exists out g',
       Loot.roll_drop name ds g = Ok (out, g') /\
       forall entry,
         entry ∈ default [] (ds_drop_tables ds !! name) -> sure_entry entry ->
         exists q, (default "" (de_item entry), q) ∈ out).
Proof.
  split; [ by vm_compute | ]. split.
  - intros name ds g out g' H. unfold Loot.roll_drop in H.
    destruct (roll_entries_shape _ _ _ _ _ H) as (fresh & -> & Hlen & Hall). auto.
  - intros name ds g.
    destruct (roll_drop_total name ds g) as (out & g' & H).
    exists out, g'. split; [ exact H | ].
    intros entry Hin Hsure. unfold Loot.roll_drop in H.
    exact (roll_entries_sure _ _ _ _ _ H entry Hin Hsure).
Qed.

Lemma roll_drop_zero_chance_fires_witness :
  Loot.roll_drop "slime_drops" demo_ds demo_rng
    = Ok ([("jelly", 1)], Rng.mkRng (Rng.tape demo_rng) 2) /\
  (length [("jelly", 1)] <= length (default [] (ds_drop_tables demo_ds !! "slime_drops")))%nat /\
  Forall (in_entry_range (default [] (ds_drop_tables demo_ds !! "slime_drops"))) [("jelly", 1)].
Proof.
  assert (H : Loot.roll_drop "slime_drops" demo_ds demo_rng
              = Ok ([("jelly", 1)], Rng.mkRng (Rng.tape demo_rng) 2)) by (vm_compute; reflexivity).
  exact (conj H (proj1 (proj2 roll_drop_zero_chance_fires) _ _ _ _ _ H)).
Defined.

(** ** What the engine never touches

    Fighting changes the hp and the effects of the two actors, the log, the
    generator and the gimmick marks. Everything else in the state is the same
    after any step of the engine. *)

Lemma frame_refl (st : BattleState) : frame st st.
Proof. split; [ done | done | by intros idx ]. Qed.

Lemma frame_trans (st1 st2 st3 : BattleState) :
  frame st1 st2 -> frame st2 st3 -> frame st1 st3.
Proof.
  intros [S1 L1 M1] [S2 L2 M2]. split.
  - congruence.
  - by etrans.
  - intros idx H. auto.
Qed.

Lemma frame_add_log (st : BattleState) (l : log_line) : frame st (add_log st l).
Proof. split; [ done | by apply prefix_app_r | by intros idx ]. Qed.

Lemma with_actor_static (c : combatant) (a : Actor) :
  actor_static a = actor_static (actor_of c) ->
  combatant_static (with_actor c a) = combatant_static c.
Proof.
  unfold actor_static. intros H. injection H as H1 H2 H3.
  destruct c as [p|e]; simpl in *;
    cbv [player_static enemy_static actor_static]; simpl; congruence.
Qed.

Lemma frame_put (st : BattleState) (s : side) (c : combatant) :
  combatant_static c = combatant_static (get st s) -> frame st (put st c).
Proof.
  intros H. split; [ | by rewrite logs_put | by destruct c; intros idx ].
  destruct s, c as [p|e]; simpl in H; try discriminate; unfold static_of;
    cbn [put set_player set_enemy player enemy turn turn_index expected_exp drop_table_id];
    congruence.
Qed.

Lemma frame_put_actor (st : BattleState) (s : side) (a : Actor) :
  actor_static a = actor_static (actor_of (get st s)) ->
  frame st (put st (with_actor (get st s) a)).
Proof. intros H. by apply (frame_put st s), with_actor_static. Qed.

Lemma frame_set_logs (st : BattleState) (l : list log_line) :
  logs st `prefix_of` l -> frame st (set_logs st l).
Proof. intros H. split; [ done | done | by intros idx ]. Qed.

Lemma apply_effect_static target spec l g items c l' g' :
  apply_effect target spec l g items = Ok (c, l', g') ->
  combatant_static c = combatant_static target.
Proof.
  unfold apply_effect. intros H.
  repeat bind_step H.
  destruct (if SFltb _ _ then _ else _) as [failed g1].
  destruct failed; [ by injection H as <- <- <- | ].
  repeat (case_decide;
          [ repeat bind_step H; injection H as <- <- <-;
            try done; by apply with_actor_static | ]).
  by injection H as <- <- <-.
Qed.

Lemma frame_apply_effect_to ds target spec st g st' g' :
  apply_effect_to ds target spec st g = Ok (st', g') -> frame st st'.
Proof.
  unfold apply_effect_to. intros H. inv_ok.
  apply (frame_trans _ (put st c)).
  - apply (frame_put _ target). eauto using apply_effect_static.
  - apply frame_set_logs. rewrite logs_put. eauto using apply_effect_logs.
Qed.

Lemma frame_apply_skill_effects ds att def effs : forall st g ls st' g' ls',
  apply_skill_effects ds att def effs st g ls = Ok (st', g', ls') -> frame st st'.
Proof.
  induction effs as [|eff effs IH]; simpl; intros st g ls st' g' ls' H.
  - injection H as <- <- <-. apply frame_refl.
  - case_decide.
    + bind_step H. eauto.
    + bind_step H. destruct a as [st1 g1].
      eapply frame_trans; [ eapply frame_apply_effect_to; eauto | eauto ].
Qed.

Lemma frame_on_hit_proc ds att def st g st' g' :
  on_hit_proc ds att def st g = Ok (st', g') -> frame st st'.
Proof.
  unfold on_hit_proc. intros H.
  destruct (str_truthy _); [ | injection H as <- <-; apply frame_refl ].
  destruct (match ds_items ds !! _ with Some _ => _ | None => _ end) as [sp|];
    [ | injection H as <- <-; apply frame_refl ].
  case_decide; [ | injection H as <- <-; apply frame_refl ].
  bind_step H. destruct (roll_chance _ _) as [hit g1].
  destruct hit; [ eauto using frame_apply_effect_to | injection H as <- <-; apply frame_refl ].
Qed.

Lemma frame_lifesteal_heal ds att total ls st st' :
  lifesteal_heal ds att total ls st = Ok st' -> frame st st'.
Proof.
  unfold lifesteal_heal. intros H.
  destruct (py_gt _ _); [ | injection H as <-; apply frame_refl ].
  repeat bind_step H. injection H as <-.
  eapply frame_trans; [ | apply frame_add_log ].
  by apply (frame_put_actor _ att).
Qed.

Lemma apply_damage_static (a : Actor) (amount : Z) (a' : Actor) :
  apply_damage a amount = Ok a' -> actor_static a' = actor_static a.
Proof. unfold apply_damage. intros H. bind_step H. by injection H as <-. Qed.

Lemma frame_resolve_skill ds att def sd skill_id is_player st g st' g' :
  resolve_skill ds att def sd skill_id is_player st g = Ok (st', g') -> frame st st'.
Proof.
  unfold resolve_skill. intros H. inv_ok.
  match goal with
  | H1 : apply_damage _ _ = Ok ?d,
    H2 : apply_skill_effects _ _ _ _ ?mid _ _ = Ok (?b, _, _),
    H3 : _ = Ok (?b0, _),
    H4 : lifesteal_heal _ _ _ _ _ = Ok _ |- _ =>
      apply (frame_trans _ b0); [ | exact (frame_lifesteal_heal _ _ _ _ _ _ H4) ];
      apply (frame_trans _ b);
        [ | destruct is_player; inv_ok;
            [ eapply frame_on_hit_proc; eassumption | apply frame_refl ] ];
      apply (frame_trans _ mid); [ | exact (frame_apply_skill_effects _ _ _ _ _ _ _ _ _ _ H2) ];
      apply (frame_trans _ (put st (with_actor (get st def) d)));
        [ apply (frame_put_actor _ def); exact (apply_damage_static _ _ _ H1) | ]
  end.
  destruct is_player;
    (eapply frame_trans; [ eapply frame_trans | ]); apply frame_add_log.
Qed.

Lemma frame_finish ds st g w res st' g' :
  _finish ds st g w = Ok (res, st', g') -> frame st st'.
Proof.
  intros H. split.
  - unfold _finish in H.
    destruct (String.eqb w "player" && str_truthy (drop_table_id st)); inv_ok; reflexivity.
  - eauto using finish_logs.
  - unfold _finish in H.
    destruct (String.eqb w "player" && str_truthy (drop_table_id st)); inv_ok;
      by intros idx.
Qed.

Lemma frame_use_skill ds att def skill_id is_player st g res st' g' :
  _use_skill ds att def skill_id is_player st g = Ok (res, st', g') -> frame st st'.
Proof.
  unfold _use_skill. intros H.
  destruct (lookup_skill ds skill_id) as [sd|].
  - inv_ok. eapply frame_trans; [ eapply frame_resolve_skill; eauto | ].
    destruct (is_dead _); inv_ok; eauto using frame_finish, frame_refl.
  - injection H as <- <- <-. apply frame_add_log.
Qed.

Lemma frame_set_gimmick_used (st : BattleState) (idx : nat) :
  frame st (set_gimmick_used st (<[idx := true]> (gimmick_used st))).
Proof.
  split; [ done | done | ].
  intros i H. simpl. destruct (decide (idx = i)) as [->|Hne].
  - by rewrite lookup_insert_eq.
  - by rewrite lookup_insert_ne.
Qed.

Lemma frame_fire_gimmick ds idx gm st g st' g' :
  fire_gimmick ds idx gm st g = Ok (st', g') -> frame st st'.
Proof.
  unfold fire_gimmick. intros H. bind_step H. destruct a as [st1 g1].
  assert (Hmid : frame st st1).
  { destruct (gm_action gm) as [action|]; [ | inv_ok; apply frame_refl ].
    case_decide; [ | inv_ok; apply frame_refl ].
    eauto using frame_apply_effect_to. }
  destruct (default false (gm_once gm)); inv_ok; [ | exact Hmid ].
  eapply frame_trans; [ exact Hmid | apply frame_set_gimmick_used ].
Qed.

Lemma frame_gimmick_step ds idx gm st g st' g' :
  gimmick_step ds idx gm st g = Ok (st', g') -> frame st st'.
Proof.
  unfold gimmick_step. intros H.
  destruct gm as [gm|]; [ | inv_ok; apply frame_refl ].
  destruct (spent gm idx st); [ inv_ok; apply frame_refl | ].
  bind_step H. destruct a; [ eauto using frame_fire_gimmick | inv_ok; apply frame_refl ].
Qed.

Lemma frame_gimmick_loop ds gms : forall idx st g st' g',
  gimmick_loop ds idx gms st g = Ok (st', g') -> frame st st'.
Proof.
  induction gms as [|gm gms IH]; simpl; intros idx st g st' g' H.
  - inv_ok. apply frame_refl.
  - bind_step H. destruct a as [st1 g1].
    eapply frame_trans; [ eapply frame_gimmick_step; eauto | eauto ].
Qed.

Lemma frame_can_act_side (s : side) (st : BattleState) :
  frame st (snd (can_act_side s st)).
Proof.
  unfold can_act_side, can_act. destruct (has_effect _ _); simpl.
  - apply frame_set_logs. by apply prefix_app_r.
  - apply frame_set_logs. done.
Qed.

Lemma tick_loop_logs tname effs : forall h l rem h' l' rem',
  tick_loop tname effs h l rem = Ok (h', l', rem') -> l `prefix_of` l'.
Proof.
  induction effs as [|e effs IH]; simpl; intros h l rem h' l' rem' H.
  - by inv_ok.
  - bind_step H. destruct a as [h1 l1].
    assert (Hl : l `prefix_of` l1).
    { destruct (String.eqb _ _); inv_ok; [ by apply prefix_app_r | done ]. }
    destruct (0 <? _).
    + etrans; [ exact Hl | eauto ].
    + etrans; [ exact Hl | ].
      etrans; [ apply (prefix_app_r l1 l1 [LogEffectEnd tname (kind e)]); done | eauto ].
Qed.

Lemma frame_tick_side (s : side) (st st' : BattleState) :
  tick_side s st = Ok st' -> frame st st'.
Proof.
  unfold tick_side, tick_end_of_turn. intros H. inv_ok.
  eapply frame_trans;
    [ | apply frame_set_logs; rewrite logs_put; eauto using tick_loop_logs ].
  by apply (frame_put_actor _ s).
Qed.

Lemma frame_finished ds st g w res st' g' :
  finished ds st g w = Ok (res, st', g') -> frame st st'.
Proof. unfold finished. intros H. inv_ok. eauto using frame_finish. Qed.

Lemma frame_end_of_turn ds st g res st' g' :
  _end_of_turn ds st g = Ok (res, st', g') -> frame st st'.
Proof.
  unfold _end_of_turn. intros H. do 2 bind_step H.
  eapply frame_trans; [ eapply frame_tick_side; eauto | ].
  eapply frame_trans; [ eapply frame_tick_side; eauto | ].
  destruct (is_dead _); [ eapply frame_finished; eauto | ].
  destruct (is_dead _); [ eapply frame_finished; eauto | ].
  inv_ok. apply frame_refl.
Qed.

Lemma frame_enemy_action ds st g res st' g' :
  _enemy_action ds st g = Ok (res, st', g') -> frame st st'.
Proof.
  unfold _enemy_action. intros H.
  pose proof (frame_can_act_side SideEnemy st) as Hc.
  destruct (can_act_side SideEnemy st) as [ok st0]. simpl in Hc.
  eapply frame_trans; [ exact Hc | ].
  destruct ok; simpl in H; [ | inv_ok; apply frame_refl ].
  bind_step H. destruct a as [st1 g1].
  assert (H1 : frame st0 st1).
  { destruct (String.eqb _ _); [ | inv_ok; apply frame_refl ].
    unfold _handle_gimmicks in *. eauto using frame_gimmick_loop. }
  eapply frame_trans; [ exact H1 | ].
  bind_step H. destruct a as [skill_choice g2].
  bind_step H. destruct a as [[r st2] g3].
  eapply frame_trans; [ eapply frame_use_skill; eauto | ].
  destruct r; [ inv_ok; apply frame_refl | ].
  destruct (is_dead _); [ eapply frame_finished; eauto | inv_ok; apply frame_refl ].
Qed.

Lemma frame_carried (st st' : BattleState) : frame st st' -> carried st st'.
Proof.
  intros [S L M]. unfold static_of in S. split; auto; congruence.
Qed.

Lemma carried_trans (st1 st2 st3 : BattleState) :
  carried st1 st2 -> carried st2 st3 -> carried st1 st3.
Proof.
  intros [E1 X1 D1 L1 M1] [E2 X2 D2 L2 M2]. split; try congruence.
  - by etrans.
  - intros idx H. auto.
Qed.

Lemma frame_player_static (st st' : BattleState) :
  frame st st' -> player_static (player st') = player_static (player st).
Proof. intros [S _ _]. unfold static_of in S. congruence. Qed.

Lemma frame_turn (st st' : BattleState) :
  frame st st' -> turn st' = turn st /\ turn_index st' = turn_index st.
Proof. intros [S _ _]. unfold static_of in S. split; congruence. Qed.

(** [_after_player_action]: the frame but for the turn counters, which
    advance when the end of the turn is reached. *)
Lemma after_player_action_frame ds st g res st' g' :
  _after_player_action ds st g = Ok (res, st', g') ->
  exists st1, frame st st1 /\
    (st' = st1 \/ st' = set_turns st1 (turn st1 + 1) (turn_index st1 + 1)).
Proof.
  unfold _after_player_action. intros H.
  bind_step H. destruct a as [[r st1] g1].
  pose proof (frame_enemy_action _ _ _ _ _ _ E) as H1.
  destruct r; [ inv_ok; eauto | ].
  bind_step H. destruct a as [[r st2] g2]. inv_ok.
  exists st2. split; [ | by right ].
  eauto using frame_trans, frame_end_of_turn.
Qed.

Lemma carried_set_turns (st : BattleState) (t ti : Z) : carried st (set_turns st t ti).
Proof. split; try done. by intros idx. Qed.

Lemma after_player_action_carried ds st g res st' g' :
  _after_player_action ds st g = Ok (res, st', g') ->
  carried st st' /\ player_static (player st') = player_static (player st).
Proof.
  intros H. destruct (after_player_action_frame _ _ _ _ _ _ H) as (st1 & F & [->| ->]).
  - auto using frame_carried, frame_player_static.
  - split.
    + eapply carried_trans; [ apply frame_carried; exact F | apply carried_set_turns ].
    + exact (frame_player_static _ _ F).
Qed.

Lemma player_use_skill_carried ds skill_id st g res st' g' :
  player_use_skill ds skill_id st g = Ok (res, st', g') -> carried st st'.
Proof.
  unfold player_use_skill. intros H.
  pose proof (frame_can_act_side SidePlayer st) as Hc.
  destruct (can_act_side SidePlayer st) as [ok st0]. simpl in Hc.
  eapply carried_trans; [ apply frame_carried; exact Hc | ].
  destruct ok; simpl in H.
  - bind_step H. destruct a as [[r st1] g1].
    eapply carried_trans; [ apply frame_carried; eapply frame_use_skill; eauto | ].
    destruct r; [ inv_ok; apply frame_carried, frame_refl | ].
    destruct (is_dead _).
    + apply frame_carried. eapply frame_finished. exact H.
    + eapply after_player_action_carried; eauto.
  - eapply after_player_action_carried; eauto.
Qed.

Lemma carried_set_player (st : BattleState) (p : Player) : carried st (set_player st p).
Proof. split; try done. by intros idx. Qed.

Lemma player_use_item_carried ds item_id st g res st' g' :
  player_use_item ds item_id st g = Ok (res, st', g') -> carried st st'.
Proof.
  unfold player_use_item. intros H.
  pose proof (frame_can_act_side SidePlayer st) as Hc.
  destruct (can_act_side SidePlayer st) as [ok st0]. simpl in Hc.
  eapply carried_trans; [ apply frame_carried; exact Hc | ].
  destruct ok; simpl in H; [ | eapply after_player_action_carried; eauto ].
  destruct (_ <=? _).
  - eapply carried_trans; [ apply frame_carried, frame_add_log | ].
    eapply after_player_action_carried; eauto.
  - bind_step H. destruct a as [[[[success msg] p] l] g1].
    eapply carried_trans; [ | eapply after_player_action_carried; eauto ].
    assert (Hl : logs st0 `prefix_of` l).
    { clear H. unfold Items.apply_consumable_in_battle in E.
      destruct (get_item ds item_id) as [item|]; [ | by inv_ok ].
      destruct (negb _); [ by inv_ok | ].
      repeat case_decide; try destruct (0 <? _); inv_ok;
        try (rewrite <- ?app_assoc; first [ done | by apply prefix_app_r ]).
      etrans; [ | eapply apply_effect_logs; eauto ]. by apply prefix_app_r. }
    split; try (by destruct success); try (destruct success; by intros idx).
    destruct success; simpl; etrans; try exact Hl; by apply prefix_app_r.
Qed.

(** ** The turn: who may act, and when the battle ends *)

Lemma set_logs_id (st : BattleState) : set_logs st (logs st) = st.
Proof. by destruct st. Qed.

Lemma can_act_side_free (s : side) (st : BattleState) :
  stunned st s = false -> can_act_side s st = (true, st).
Proof.
  unfold stunned, can_act_side, can_act. intros ->. by rewrite set_logs_id.
Qed.

Lemma can_act_side_stunned (s : side) (st : BattleState) :
  stunned st s = true ->
  can_act_side s st = (false, add_log st (LogCannotAct (name (actor_of (get st s))))).
Proof. unfold stunned, can_act_side, can_act. by intros ->. Qed.

Lemma finished_result ds st g w res st' g' :
  finished ds st g w = Ok (res, st', g') ->
  exists r, res = Some r /\ winner r = w /\
            turn st' = turn st /\ turn_index st' = turn_index st.
Proof.
  unfold finished, _finish. intros H.
  destruct (String.eqb w "player" && str_truthy (drop_table_id st)); inv_ok;
    eexists; simpl; eauto.
Qed.

(** C6. If the enemy is at 0 hp once the player's skill is resolved, the
    battle ends there with the winner "player": the state returned is the one
    [_finish] makes of the state the skill left, so the enemy does not act, no
    effect ticks and the turn counters stay. At the end of a turn both actors
    are ticked, then the player's hp is tested first: a player at 0 hp loses
    also when the enemy is at 0 hp too. *)
Theorem battle_ends_at_zero_hp :
  (forall ds skill_id sd st g st1 g1,
     stunned st SidePlayer = false ->
     lookup_skill ds skill_id = Some sd ->
     resolve_skill ds SidePlayer SideEnemy sd skill_id true st g = Ok (st1, g1) ->
     is_dead (e_actor (enemy st1)) = true ->
     player_use_skill ds skill_id st g = finished ds st1 g1 "player" /\
     forall res st2 g2,
       player_use_skill ds skill_id st g = Ok (res, st2, g2) ->
       exists r, res = Some r /\ winner r = "player" /\
                 turn st2 = turn st /\ turn_index st2 = turn_index st)
  /\
  (forall ds st g st1 st2,
     tick_side SidePlayer st = Ok st1 ->
     tick_side SideEnemy st1 = Ok st2 ->
     _end_of_turn ds st g =
       if is_dead (p_actor (player st2)) then finished ds st2 g "enemy"
       else if is_dead (e_actor (enemy st2)) then finished ds st2 g "player"
       else Ok (None, st2, g))
  /\
  (forall ds st g st1 st2 res st3 g3,
     tick_side SidePlayer st = Ok st1 ->
     tick_side SideEnemy st1 = Ok st2 ->
     is_dead (p_actor (player st2)) = true ->
     is_dead (e_actor (enemy st2)) = true ->
     _end_of_turn ds st g = Ok (res, st3, g3) ->
     exists r, res = Some r /\ winner r = "enemy").
Proof.
  split; [ | split ].
  - intros ds skill_id sd st g st1 g1 Hfree Hsk Hres Hdead.
    assert (Heq : player_use_skill ds skill_id st g = finished ds st1 g1 "player").
    { unfold player_use_skill, _use_skill. rewrite (can_act_side_free _ _ Hfree). simpl.
      rewrite Hsk, Hres. cbn [rbind]. simpl.
      rewrite Hdead. unfold finished.
      destruct (_finish ds st1 g1 "player") as [[[r st2] g2]|e]; reflexivity. }
    split; [ exact Heq | ].
    intros res st2 g2 H. rewrite Heq in H.
    destruct (finished_result _ _ _ _ _ _ _ H) as (r & -> & Hw & Ht & Hti).
    destruct (frame_turn _ _ (frame_resolve_skill _ _ _ _ _ _ _ _ _ _ Hres)) as [Ht1 Hti1].
    exists r. repeat split; auto; congruence.
  - intros ds st g st1 st2 H1 H2. unfold _end_of_turn. rewrite H1. cbn [rbind].
    rewrite H2. cbn [rbind]. reflexivity.
  - intros ds st g st1 st2 res st3 g3 H1 H2 Hp He H.
    unfold _end_of_turn in H. rewrite H1 in H. cbn [rbind] in H.
    rewrite H2 in H. cbn [rbind] in H. rewrite Hp in H.
    destruct (finished_result ds st2 g "enemy" res st3 g3 H) as (r & -> & Hw & _).
    eauto.
Qed.

Lemma battle_ends_at_zero_hp_witness :
  (player_use_skill demo_ds "__basic__" last_hit_state demo_rng =
   finished demo_ds (fst last_hit_resolved) (snd last_hit_resolved) "player")
  /\
  (exists r, fst (fst both_bleeding_end) = Some r /\ winner r = "enemy").
Proof.
  split.
  - exact (proj1 (proj1 battle_ends_at_zero_hp demo_ds "__basic__" basic_skill
                    last_hit_state demo_rng (fst last_hit_resolved) (snd last_hit_resolved)
                    eq_refl eq_refl eq_refl eq_refl)).
  - exact (proj2 (proj2 battle_ends_at_zero_hp) demo_ds both_bleeding demo_rng
             both_bleeding_1 both_bleeding_2
             (fst (fst both_bleeding_end)) (snd (fst both_bleeding_end))
             (snd both_bleeding_end) eq_refl eq_refl eq_refl eq_refl eq_refl).
Defined.

(** ** Runs of player inputs *)

Lemma carried_refl (st : BattleState) : carried st st.
Proof. apply frame_carried, frame_refl. Qed.

Lemma player_turn_carried ds inp st g res st' g' :
  player_turn ds inp st g = Ok (res, st', g') -> carried st st'.
Proof.
  destruct inp; simpl; eauto using player_use_skill_carried, player_use_item_carried.
Qed.

Lemma run_carried ds inputs : forall st g res st' g',
  run ds inputs st g = Ok (res, st', g') -> carried st st'.
Proof.
  induction inputs as [|inp rest IH]; simpl; intros st g res st' g' H.
  - inv_ok. apply carried_refl.
  - bind_step H. destruct a as [[r st1] g1].
    pose proof (player_turn_carried _ _ _ _ _ _ _ E) as H1.
    destruct r; [ by inv_ok | ].
    eauto using carried_trans.
Qed.

(** ** Gimmicks *)

Lemma gimmick_step_fires ds idx gm st g :
  fires gm idx st -> gimmick_step ds idx (Some gm) st g = fire_gimmick ds idx gm st g.
Proof. intros [Hs Hf]. unfold gimmick_step. by rewrite Hs, Hf. Qed.

Lemma fire_gimmick_marks ds idx gm st g st' g' :
  gm_once gm = Some true ->
  fire_gimmick ds idx gm st g = Ok (st', g') ->
  gimmick_used st' !! idx = Some true.
Proof.
  intros Honce H. unfold fire_gimmick in H. rewrite Honce in H.
  bind_step H. destruct a as [st1 g1]. simpl in H. injection H as <- <-.
  simpl. by rewrite lookup_insert_eq.
Qed.

Lemma spent_idle ds idx gm st g :
  gm_once gm = Some true ->
  gimmick_used st !! idx = Some true ->
  ~ fires gm idx st /\ gimmick_step ds idx (Some gm) st g = Ok (st, g).
Proof.
  intros Honce Hused.
  assert (Hs : spent gm idx st = true) by (unfold spent; by rewrite Honce, Hused).
  split.
  - intros [Hn _]. congruence.
  - unfold gimmick_step. by rewrite Hs.
Qed.

Lemma every_n_fires gm idx st n :
  gm_trigger gm = Some "every_n_turns" ->
  gm_n gm = Some n ->
  default false (gm_once gm) = false ->
  0 < n ->
  (fires gm idx st <-> turn_index st mod n = 0).
Proof.
  intros Htr Hn Honce Hpos. unfold fires, spent, should_fire.
  rewrite Htr, Hn, Honce. simpl.
  destruct (Z.ltb_spec 0 n); [ | lia ]. simpl.
  destruct (Z.eqb_spec (turn_index st mod n) 0); split; try done.
  - by intros [_ [=]].
Qed.

(** ** Illegal player actions *)

Lemma equip_item_rejects (p : Player) (item_id : string) (ds : DataStore) :
  match get_item ds item_id with
  | None => equip_item p item_id ds = (false, MsgItemNotFound, p)
  | Some item =>
      (it_type item <> Some "equipment" ->
       equip_item p item_id ds = (false, MsgOnlyEquipment, p)) /\
      (it_type item = Some "equipment" -> valid_slot (it_slot item) = false ->
       equip_item p item_id ds = (false, MsgBadEquipSlot, p)) /\
      (it_type item = Some "equipment" -> valid_slot (it_slot item) = true ->
       get0 (inventory p) item_id <= 0 ->
       equip_item p item_id ds = (false, MsgNotInInventory, p))
  end.
Proof.
  unfold equip_item. destruct (get_item ds item_id) as [item|]; [ | done ].
  split; [ | split ].
  - intros H. by rewrite bool_decide_eq_false_2.
  - intros H1 H2. by rewrite bool_decide_eq_true_2, H2.
  - intros H1 H2 H3. rewrite bool_decide_eq_true_2, H2 by done. simpl.
    destruct (Z.leb_spec (get0 (inventory p) item_id) 0); [ done | lia ].
Qed.

Lemma stunned_turn_skill ds skill_id st g :
  stunned st SidePlayer = true ->
  player_use_skill ds skill_id st g =
  _after_player_action ds (add_log st (LogCannotAct (name (p_actor (player st))))) g.
Proof.
  intros H. unfold player_use_skill. by rewrite (can_act_side_stunned _ _ H).
Qed.

Lemma stunned_turn_item ds item_id st g :
  stunned st SidePlayer = true ->
  player_use_item ds item_id st g =
  _after_player_action ds (add_log st (LogCannotAct (name (p_actor (player st))))) g.
Proof.
  intros H. unfold player_use_item. by rewrite (can_act_side_stunned _ _ H).
Qed.

Lemma missing_item_turn ds item_id st g :
  stunned st SidePlayer = false ->
  get0 (inventory (player st)) item_id <= 0 ->
  player_use_item ds item_id st g = _after_player_action ds (add_log st LogNoSuchItem) g.
Proof.
  intros H Hinv. unfold player_use_item. rewrite (can_act_side_free _ _ H). simpl.
  destruct (Z.leb_spec (get0 (inventory (player st)) item_id) 0); [ done | lia ].
Qed.

Lemma after_player_action_spent ds st l g res st' g' :
  _after_player_action ds (add_log st l) g = Ok (res, st', g') ->
  turn_spent st st' /\ (res = None -> turn st' = turn st + 1).
Proof.
  intros H. unfold _after_player_action in H.
  bind_step H. destruct a as [[r st1] g1].
  pose proof (frame_trans _ _ _ (frame_add_log st l) (frame_enemy_action _ _ _ _ _ _ E)) as F1.
  destruct r as [r|].
  - inv_ok. destruct F1 as [S L M]. unfold static_of in S.
    split; [ | discriminate ].
    repeat split; try congruence; auto. left. split; congruence.
  - bind_step H. destruct a as [[r st2] g2]. inv_ok.
    pose proof (frame_trans _ _ _ F1 (frame_end_of_turn _ _ _ _ _ _ E0)) as [S L M].
    unfold static_of in S.
    split; [ | intros _; simpl; congruence ].
    repeat split; simpl; try congruence; auto. right. split; congruence.
Qed.

(** C5, as the code has it. An illegal action never acts for the player and
    gives its reason. [equip_item] on an unknown id, on an item that is not
    equipment, on one without a valid slot or on one the player does not hold
    returns (False, reason) and the player as it was. Asking for more stat
    points than are left changes nothing: [allocate_stat] returns False with
    its error, [apply_stat_points] returns at once. In a battle, using an
    item that is not held, or acting while stunned, adds the log line and
    then spends the turn: the call is [_after_player_action], so the enemy
    acts, effects tick and the turn counters advance, while everything of the
    player but hp and effects, inventory and equipment included, stays. *)
Theorem illegal_actions :
  (forall p item_id ds,
     match get_item ds item_id with
     | None => equip_item p item_id ds = (false, MsgItemNotFound, p)
     | Some item =>
         (it_type item <> Some "equipment" ->
          equip_item p item_id ds = (false, MsgOnlyEquipment, p)) /\
         (it_type item = Some "equipment" -> valid_slot (it_slot item) = false ->
          equip_item p item_id ds = (false, MsgBadEquipSlot, p)) /\
         (it_type item = Some "equipment" -> valid_slot (it_slot item) = true ->
          get0 (inventory p) item_id <= 0 ->
          equip_item p item_id ds = (false, MsgNotInInventory, p))
     end)
  /\
  (forall p stat_key points items,
     stat_key ∈ stat_keys ->
     stat_points p < Z.max 1 points ->
     App.allocate_stat p stat_key points items = Ok (false, Some App.ErrNotEnoughPoints, p))
  /\
  (forall p spend items,
     stat_points p < map_fold (fun _ v acc => acc + v) 0 spend ->
     App.apply_stat_points p spend items = Ok p)
  /\
  (forall ds item_id st g,
     stunned st SidePlayer = false ->
     get0 (inventory (player st)) item_id <= 0 ->
     player_use_item ds item_id st g =
       _after_player_action ds (add_log st LogNoSuchItem) g /\
     forall res st' g',
       player_use_item ds item_id st g = Ok (res, st', g') ->
       turn_spent st st' /\ (res = None -> turn st' = turn st + 1))
  /\
  (forall ds skill_id item_id st g,
     stunned st SidePlayer = true ->
     let skipped :=
       _after_player_action ds (add_log st (LogCannotAct (name (p_actor (player st))))) g in
     player_use_skill ds skill_id st g = skipped /\
     player_use_item ds item_id st g = skipped /\
     forall res st' g',
       skipped = Ok (res, st', g') ->
       turn_spent st st' /\ (res = None -> turn st' = turn st + 1)).
Proof.
  split; [ | split; [ | split; [ | split ] ] ].
  - apply equip_item_rejects.
  - intros p stat_key points items Hkey Hlt. unfold App.allocate_stat.
    rewrite bool_decide_eq_true_2 by done. simpl.
    destruct (Z.ltb_spec (stat_points p) (Z.max 1 points)); [ done | lia ].
  - intros p spend items Hlt. unfold App.apply_stat_points.
    destruct (Z.ltb_spec (stat_points p) (map_fold (fun _ v acc => acc + v) 0 spend));
      [ done | lia ].
  - intros ds item_id st g Hfree Hinv.
    rewrite (missing_item_turn _ _ _ _ Hfree Hinv). split; [ done | ].
    intros res st' g'. apply after_player_action_spent.
  - intros ds skill_id item_id st g Hst skipped.
    split; [ by apply stunned_turn_skill | ].
    split; [ by apply stunned_turn_item | ].
    intros res st' g'. apply after_player_action_spent.
Qed.

(** The player holds no potion and is not stunned; asking for one costs the
    turn: the slime hits for 10 and the turn counter moves from 1 to 2. *)
Lemma missing_item_spends_turn :
  get0 (inventory (player demo_state)) "potion" = 0 /\
  stunned demo_state SidePlayer = false /\
  player_use_item demo_ds "potion" demo_state demo_rng = Ok demo_missing_item /\
  turn (snd (fst demo_missing_item)) <> turn demo_state /\
  hp (p_actor (player (snd (fst demo_missing_item)))) <> hp (p_actor (player demo_state)).
Proof. repeat split; discriminate. Qed.

Lemma illegal_actions_witness :
  stunned demo_state SidePlayer = false /\
  get0 (inventory (player demo_state)) "potion" <= 0 /\
  turn_spent demo_state (snd (fst demo_missing_item)) /\
  turn (snd (fst demo_missing_item)) = turn demo_state + 1.
Proof.
  assert (H1 : stunned demo_state SidePlayer = false) by reflexivity.
  assert (H2 : get0 (inventory (player demo_state)) "potion" <= 0) by (vm_compute; discriminate).
  destruct (proj2 (proj1 (proj2 (proj2 (proj2 illegal_actions)))
                     demo_ds "potion" demo_state demo_rng H1 H2)
              (fst (fst demo_missing_item)) (snd (fst demo_missing_item))
              (snd demo_missing_item) eq_refl) as [Hs Ht].
  exact (conj H1 (conj H2 (conj Hs (Ht eq_refl)))).
Defined.

(** ** Stuns *)

Lemma stun_left_of_nonneg (effs : list EffectInstance) : 0 <= stun_left_of effs.
Proof.
  induction effs as [|e effs IH]; simpl; [ lia | ].
  destruct (String.eqb _ _); lia.
Qed.

Lemma stun_left_of_app (l k : list EffectInstance) :
  stun_left_of (l ++ k) = Z.max (stun_left_of l) (stun_left_of k).
Proof.
  induction l as [|e l IH]; simpl.
  - pose proof (stun_left_of_nonneg k). lia.
  - destruct (String.eqb _ _); lia.
Qed.

Lemma stun_left_of_prefix (l l' : list EffectInstance) :
  l `prefix_of` l' -> stun_left_of l <= stun_left_of l'.
Proof. intros [k ->]. rewrite stun_left_of_app. lia. Qed.

Lemma has_effect_stun (a : Actor) : has_effect a "stun" = (0 <? stun_left a).
Proof.
  unfold has_effect, stun_left.
  induction (effects a) as [|e effs IH]; simpl; [ done | ].
  pose proof (stun_left_of_nonneg effs).
  destruct (String.eqb (kind e) "stun"); simpl; [ | exact IH ].
  rewrite IH.
  destruct (Z.ltb_spec 0 (duration e)), (Z.ltb_spec 0 (stun_left_of effs)),
    (Z.ltb_spec 0 (Z.max (duration e) (stun_left_of effs))); try done; lia.
Qed.

Lemma stun_left_of_ticked (effs : list EffectInstance) :
  stun_left_of (ticked effs) = Z.max 0 (stun_left_of effs - 1).
Proof.
  unfold ticked. induction effs as [|e effs IH]; simpl; [ done | ].
  pose proof (stun_left_of_nonneg effs).
  destruct (Z.ltb_spec 0 (duration e - 1)); simpl;
    destruct (String.eqb (kind e) "stun"); lia.
Qed.

Lemma tick_loop_effects tname effs : forall h l rem h' l' rem',
  tick_loop tname effs h l rem = Ok (h', l', rem') ->
  rem' = rem ++ ticked effs.
Proof.
  unfold ticked.
  induction effs as [|e effs IH]; simpl; intros h l rem h' l' rem' H.
  - inv_ok. by rewrite app_nil_r.
  - bind_step H. destruct a as [h1 l1].
    destruct (0 <? duration e - 1).
    + rewrite (IH _ _ _ _ _ _ H). by rewrite <- app_assoc.
    + eauto.
Qed.

Lemma tick_end_of_turn_effects (a : Actor) (l : list log_line) (a' : Actor)
    (l' : list log_line) :
  tick_end_of_turn a l = Ok (a', l') -> effects a' = ticked (effects a).
Proof.
  unfold tick_end_of_turn. intros H. inv_ok. simpl.
  match goal with H1 : tick_loop _ _ _ _ _ = Ok _ |- _ => apply tick_loop_effects in H1 end.
  by subst.
Qed.

Lemma effects_of_put_same (st : BattleState) (s : side) (a : Actor) :
  effects_of (put st (with_actor (get st s) a)) s = effects a.
Proof. by destruct s. Qed.

Lemma effects_of_put_other (st : BattleState) (s : side) (a : Actor) :
  effects_of (put st (with_actor (get st s) a)) (other s) = effects_of st (other s).
Proof. by destruct s. Qed.

Lemma effects_of_set_logs (st : BattleState) (l : list log_line) (s : side) :
  effects_of (set_logs st l) s = effects_of st s.
Proof. by destruct s. Qed.

Lemma side_cases (s t : side) : s = t \/ s = other t.
Proof. destruct s, t; auto. Qed.

Lemma tick_side_effects (s : side) (st st' : BattleState) :
  tick_side s st = Ok st' ->
  effects_of st' s = ticked (effects_of st s) /\
  effects_of st' (other s) = effects_of st (other s).
Proof.
  unfold tick_side. intros H. inv_ok.
  rewrite !effects_of_set_logs, effects_of_put_same, effects_of_put_other.
  split; [ | done ]. eauto using tick_end_of_turn_effects.
Qed.

Lemma grows_refl (st : BattleState) : grows st st.
Proof. by intros s. Qed.

Lemma grows_trans (st1 st2 st3 : BattleState) :
  grows st1 st2 -> grows st2 st3 -> grows st1 st3.
Proof. intros H1 H2 s. etrans; [ apply H1 | apply H2 ]. Qed.

Lemma grows_add_log (st : BattleState) (l : log_line) : grows st (add_log st l).
Proof. intros s. by destruct s. Qed.

Lemma grows_put_actor (st : BattleState) (t : side) (a : Actor) :
  effects (actor_of (get st t)) `prefix_of` effects a ->
  grows st (put st (with_actor (get st t) a)).
Proof.
  intros H s. destruct (side_cases s t) as [->| ->].
  - by rewrite effects_of_put_same.
  - by rewrite effects_of_put_other.
Qed.

Lemma apply_effect_grows target spec l g items c l' g' :
  apply_effect target spec l g items = Ok (c, l', g') ->
  exists a, c = with_actor target a /\
            effects (actor_of target) `prefix_of` effects a.
Proof.
  unfold apply_effect. intros H.
  assert (Hid : target = with_actor target (actor_of target))
    by (destruct target as [[]|[]]; reflexivity).
  repeat bind_step H.
  destruct (if SFltb _ _ then _ else _) as [failed g1].
  destruct failed; [ inv_ok; eauto | ].
  repeat (case_decide;
          [ repeat bind_step H; injection H as <- <- <-;
            first [ by eauto | eexists; split; [ reflexivity | ]; simpl;
                               first [ done | by apply prefix_app_r ] ] | ]).
  inv_ok. eauto.
Qed.

Lemma grows_apply_effect_to ds target spec st g st' g' :
  apply_effect_to ds target spec st g = Ok (st', g') -> grows st st'.
Proof.
  unfold apply_effect_to. intros H. inv_ok.
  match goal with H1 : apply_effect _ _ _ _ _ = Ok _ |- _ =>
    destruct (apply_effect_grows _ _ _ _ _ _ _ _ H1) as (a & -> & Hp) end.
  intros s. rewrite effects_of_set_logs. by apply grows_put_actor.
Qed.

Lemma grows_apply_skill_effects ds att def effs : forall st g ls st' g' ls',
  apply_skill_effects ds att def effs st g ls = Ok (st', g', ls') -> grows st st'.
Proof.
  induction effs as [|eff effs IH]; simpl; intros st g ls st' g' ls' H.
  - inv_ok. apply grows_refl.
  - case_decide.
    + bind_step H. eauto.
    + bind_step H. destruct a as [st1 g1].
      eapply grows_trans; [ eapply grows_apply_effect_to; eauto | eauto ].
Qed.

Lemma grows_on_hit_proc ds att def st g st' g' :
  on_hit_proc ds att def st g = Ok (st', g') -> grows st st'.
Proof.
  unfold on_hit_proc. intros H.
  destruct (str_truthy _); [ | inv_ok; apply grows_refl ].
  destruct (match ds_items ds !! _ with Some _ => _ | None => _ end) as [sp|];
    [ | inv_ok; apply grows_refl ].
  case_decide; [ | inv_ok; apply grows_refl ].
  bind_step H. destruct (roll_chance _ _) as [hit g1].
  destruct hit; [ eauto using grows_apply_effect_to | inv_ok; apply grows_refl ].
Qed.

Lemma grows_lifesteal_heal ds att total ls st st' :
  lifesteal_heal ds att total ls st = Ok st' -> grows st st'.
Proof.
  unfold lifesteal_heal. intros H.
  destruct (py_gt _ _); [ | inv_ok; apply grows_refl ].
  repeat bind_step H. injection H as <-.
  eapply grows_trans; [ | apply grows_add_log ].
  by apply grows_put_actor.
Qed.

Lemma apply_damage_effects (a : Actor) (amount : Z) (a' : Actor) :
  apply_damage a amount = Ok a' -> effects a' = effects a.
Proof. unfold apply_damage. intros H. bind_step H. by injection H as <-. Qed.

Lemma grows_resolve_skill ds att def sd skill_id is_player st g st' g' :
  resolve_skill ds att def sd skill_id is_player st g = Ok (st', g') -> grows st st'.
Proof.
  unfold resolve_skill. intros H. inv_ok.
  match goal with
  | H1 : apply_damage _ _ = Ok ?d,
    H2 : apply_skill_effects _ _ _ _ ?mid _ _ = Ok (?b, _, _),
    H3 : _ = Ok (?b0, _),
    H4 : lifesteal_heal _ _ _ _ _ = Ok _ |- _ =>
      apply (grows_trans _ b0); [ | exact (grows_lifesteal_heal _ _ _ _ _ _ H4) ];
      apply (grows_trans _ b);
        [ | destruct is_player; inv_ok;
            [ eapply grows_on_hit_proc; eassumption | apply grows_refl ] ];
      apply (grows_trans _ mid); [ | exact (grows_apply_skill_effects _ _ _ _ _ _ _ _ _ _ H2) ];
      apply (grows_trans _ (put st (with_actor (get st def) d)));
        [ apply grows_put_actor; by rewrite (apply_damage_effects _ _ _ H1) | ]
  end.
  destruct is_player;
    (eapply grows_trans; [ eapply grows_trans | ]); apply grows_add_log.
Qed.

(** A skill that does not end the battle only adds effects. *)
Lemma grows_use_skill ds att def skill_id is_player st g st' g' :
  _use_skill ds att def skill_id is_player st g = Ok (None, st', g') -> grows st st'.
Proof.
  unfold _use_skill. intros H.
  destruct (lookup_skill ds skill_id) as [sd|].
  - bind_step H. destruct a as [st1 g1].
    destruct (is_dead _); inv_ok. eauto using grows_resolve_skill.
  - inv_ok. apply grows_add_log.
Qed.

Lemma grows_fire_gimmick ds idx gm st g st' g' :
  fire_gimmick ds idx gm st g = Ok (st', g') -> grows st st'.
Proof.
  unfold fire_gimmick. intros H. bind_step H. destruct a as [st1 g1].
  assert (Hmid : grows st st1).
  { destruct (gm_action gm) as [action|]; [ | inv_ok; apply grows_refl ].
    case_decide; [ | inv_ok; apply grows_refl ].
    eauto using grows_apply_effect_to. }
  destruct (default false (gm_once gm)); inv_ok; [ | exact Hmid ].
  intros s. etrans; [ apply Hmid | by destruct s ].
Qed.

Lemma grows_gimmick_step ds idx gm st g st' g' :
  gimmick_step ds idx gm st g = Ok (st', g') -> grows st st'.
Proof.
  unfold gimmick_step. intros H.
  destruct gm as [gm|]; [ | inv_ok; apply grows_refl ].
  destruct (spent gm idx st); [ inv_ok; apply grows_refl | ].
  bind_step H. destruct a; [ eauto using grows_fire_gimmick | inv_ok; apply grows_refl ].
Qed.

Lemma grows_gimmick_loop ds gms : forall idx st g st' g',
  gimmick_loop ds idx gms st g = Ok (st', g') -> grows st st'.
Proof.
  induction gms as [|gm gms IH]; simpl; intros idx st g st' g' H.
  - inv_ok. apply grows_refl.
  - bind_step H. destruct a as [st1 g1].
    eapply grows_trans; [ eapply grows_gimmick_step; eauto | eauto ].
Qed.

Lemma grows_can_act_side (s : side) (st : BattleState) :
  grows st (snd (can_act_side s st)).
Proof.
  unfold can_act_side, can_act. destruct (has_effect _ _); simpl; intros t; by destruct t.
Qed.

(** An enemy action that does not end the battle only adds effects. *)
Lemma grows_enemy_action ds st g st' g' :
  _enemy_action ds st g = Ok (None, st', g') -> grows st st'.
Proof.
  unfold _enemy_action. intros H.
  pose proof (grows_can_act_side SideEnemy st) as Hc.
  destruct (can_act_side SideEnemy st) as [ok st0]. simpl in Hc.
  eapply grows_trans; [ exact Hc | ].
  destruct ok; simpl in H; [ | inv_ok; apply grows_refl ].
  bind_step H. destruct a as [st1 g1].
  assert (H1 : grows st0 st1).
  { destruct (String.eqb _ _); [ | inv_ok; apply grows_refl ].
    unfold _handle_gimmicks in *. eauto using grows_gimmick_loop. }
  eapply grows_trans; [ exact H1 | ].
  bind_step H. destruct a as [skill_choice g2].
  bind_step H. destruct a as [[r st2] g3].
  destruct r; [ inv_ok | ].
  destruct (is_dead _); inv_ok. eauto using grows_use_skill.
Qed.

(** An end of turn that does not end the battle ticks both effect lists. *)
Lemma end_of_turn_effects ds st g st' g' (s : side) :
  _end_of_turn ds st g = Ok (None, st', g') ->
  effects_of st' s = ticked (effects_of st s).
Proof.
  unfold _end_of_turn. intros H. do 2 bind_step H.
  destruct (is_dead _); [ inv_ok | ].
  destruct (is_dead _); inv_ok.
  match goal with
  | H1 : tick_side SidePlayer _ = Ok _, H2 : tick_side SideEnemy _ = Ok _ |- _ =>
      destruct (tick_side_effects _ _ _ H1) as [P1 P2];
      destruct (tick_side_effects _ _ _ H2) as [E1 E2]
  end.
  simpl in *. destruct s; congruence.
Qed.

Lemma effects_of_set_turns (st : BattleState) (t ti : Z) (s : side) :
  effects_of (set_turns st t ti) s = effects_of st s.
Proof. by destruct s. Qed.

(** Over a turn that does not end the battle a stun loses one turn at
    most. *)
Lemma after_player_action_stun ds st g st' g' (s : side) :
  _after_player_action ds st g = Ok (None, st', g') ->
  stun_left_of (effects_of st s) - 1 <= stun_left_of (effects_of st' s).
Proof.
  unfold _after_player_action. intros H.
  bind_step H. destruct a as [[r st1] g1]. destruct r; [ inv_ok | ].
  bind_step H. destruct a as [[r st2] g2]. inv_ok.
  rewrite effects_of_set_turns.
  match goal with
  | H1 : _enemy_action _ _ _ = Ok _, H2 : _end_of_turn _ _ _ = Ok _ |- _ =>
      rewrite (end_of_turn_effects _ _ _ _ _ s H2), stun_left_of_ticked;
      pose proof (stun_left_of_prefix _ _ (grows_enemy_action _ _ _ _ _ H1 s))
  end.
  lia.
Qed.

Lemma stunned_stun_left (st : BattleState) (s : side) :
  stunned st s = (0 <? stun_left_of (effects_of st s)).
Proof. unfold stunned. by rewrite has_effect_stun. Qed.

Lemma player_turn_stunned ds inp st g :
  stunned st SidePlayer = true -> player_turn ds inp st g = skipped_turn ds st g.
Proof.
  intros H. destruct inp; simpl; unfold skipped_turn.
  - by apply stunned_turn_skill.
  - by apply stunned_turn_item.
Qed.

Lemma run_while_stunned ds inputs : forall st g,
  Z.of_nat (length inputs) <= stun_left_of (effects_of st SidePlayer) ->
  run ds inputs st g = skipped_run ds (length inputs) st g.
Proof.
  induction inputs as [|inp rest IH]; intros st g Hlen; [ done | ].
  cbn [run skipped_run length].
  rewrite player_turn_stunned
    by (rewrite stunned_stun_left; apply Z.ltb_lt; simpl in Hlen; lia).
  destruct (skipped_turn ds st g) as [[[r st'] g']|e] eqn:Hturn; [ | done ].
  cbn [rbind]. destruct r; [ done | ].
  apply IH. unfold skipped_turn in Hturn.
  pose proof (after_player_action_stun _ _ _ _ _ SidePlayer Hturn) as Hs.
  change (effects_of (add_log st _) SidePlayer) with (effects_of st SidePlayer) in Hs.
  simpl in Hlen. lia.
Qed.

Lemma enemy_action_stunned ds st g :
  stunned st SideEnemy = true ->
  _enemy_action ds st g = Ok (None, add_log st (LogCannotAct (name (e_actor (enemy st)))), g).
Proof.
  intros H. unfold _enemy_action. by rewrite (can_act_side_stunned _ _ H).
Qed.

Lemma after_player_action_stunned_enemy ds st g :
  stunned st SideEnemy = true ->
  _after_player_action ds st g = enemy_sits_out ds st g.
Proof.
  intros H. unfold _after_player_action, enemy_sits_out.
  by rewrite (enemy_action_stunned _ _ _ H).
Qed.

Lemma player_turn_parts ds inp st g :
  player_turn ds inp st g = and_then (_after_player_action ds) (player_part ds inp st g).
Proof.
  unfold player_turn, player_part, and_then, player_use_skill, player_use_item, finished.
  destruct (can_act_side SidePlayer st) as [ok st0].
  destruct ok; simpl; [ | by destruct inp ].
  destruct inp as [skill_id|item_id].
  - destruct (_use_skill _ _ _ _ _ _ _) as [[[r st1] g1]|e]; [ | done ]. cbn [rbind].
    destruct r; [ done | ].
    destruct (is_dead _); [ | done ].
    by destruct (_finish _ _ _ _) as [[[r st2] g2]|e].
  - destruct (_ <=? _); [ done | ].
    by destruct (Items.apply_consumable_in_battle _ _ _ _ _) as [[[[[su m] p] l] g1]|e].
Qed.

Lemma player_part_enemy_effects ds inp st g st1 g1 :
  player_part ds inp st g = Ok (None, st1, g1) ->
  effects_of st SideEnemy `prefix_of` effects_of st1 SideEnemy.
Proof.
  unfold player_part. intros H.
  pose proof (grows_can_act_side SidePlayer st SideEnemy) as Hc.
  destruct (can_act_side SidePlayer st) as [ok st0]. simpl in Hc.
  etrans; [ exact Hc | ].
  destruct ok; simpl in H; [ | by inv_ok ].
  destruct inp as [skill_id|item_id].
  - bind_step H. destruct a as [[r st2] g2]. destruct r; [ inv_ok | ].
    unfold finished in H. destruct (is_dead _); inv_ok.
    eapply grows_use_skill; eauto.
  - destruct (_ <=? _); [ by inv_ok | ].
    bind_step H. destruct a as [[[[su m] p] l] g2]. inv_ok. by destruct su.
Qed.

Lemma run_while_enemy_stunned ds inputs : forall st g,
  Z.of_nat (length inputs) <= stun_left_of (effects_of st SideEnemy) ->
  run ds inputs st g = quiet_run ds inputs st g.
Proof.
  induction inputs as [|inp rest IH]; intros st g Hlen; [ done | ].
  cbn [run quiet_run length]. simpl in Hlen.
  rewrite player_turn_parts. unfold quiet_turn.
  destruct (player_part ds inp st g) as [[[r st1] g1]|e] eqn:Hpart; [ | done ].
  unfold and_then. cbn [rbind].
  destruct r as [r|]; [ done | ].
  pose proof (stun_left_of_prefix _ _ (player_part_enemy_effects _ _ _ _ _ _ Hpart)) as H1.
  rewrite after_player_action_stunned_enemy
    by (rewrite stunned_stun_left; apply Z.ltb_lt; lia).
  destruct (enemy_sits_out ds st1 g1) as [[[r st'] g']|e] eqn:Hrest; [ | done ].
  cbn [rbind]. destruct r; [ done | ].
  apply IH.
  rewrite <- after_player_action_stunned_enemy in Hrest
    by (rewrite stunned_stun_left; apply Z.ltb_lt; lia).
  pose proof (after_player_action_stun _ _ _ _ _ SideEnemy Hrest). lia.
Qed.

(** *** No stun lands without its log line *)

Lemma adds_refl (st : BattleState) : adds st st.
Proof.
  exists []. split; [ by rewrite app_nil_r | ].
  intros s. exists []. by rewrite app_nil_r.
Qed.

Lemma adds_trans (st1 st2 st3 : BattleState) :
  adds st1 st2 -> adds st2 st3 -> adds st1 st3.
Proof.
  intros (r1 & L1 & E1) (r2 & L2 & E2). exists (r1 ++ r2).
  split; [ by rewrite L2, L1, app_assoc | ].
  intros s. destruct (E1 s) as (k1 & K1 & N1). destruct (E2 s) as (k2 & K2 & N2).
  exists (k1 ++ k2). split; [ by rewrite K2, K1, app_assoc | ].
  intros Hr. apply Forall_app in Hr as [Hr1 Hr2].
  rewrite stun_left_of_app, N1, N2 by done. done.
Qed.

Lemma adds_add_log (st : BattleState) (l : log_line) : adds st (add_log st l).
Proof.
  exists [l]. split; [ done | ].
  intros s. exists []. split; [ destruct s; simpl; by rewrite app_nil_r | done ].
Qed.

Lemma adds_put_actor (st : BattleState) (t : side) (a : Actor) :
  effects a = effects (actor_of (get st t)) ->
  adds st (put st (with_actor (get st t) a)).
Proof.
  intros H. exists []. split; [ by rewrite logs_put, app_nil_r | ].
  intros s. exists []. rewrite app_nil_r. split; [ | done ].
  destruct (side_cases s t) as [->| ->].
  - by rewrite effects_of_put_same.
  - by rewrite effects_of_put_other.
Qed.

Lemma apply_effect_adds target spec l g items c l' g' :
  apply_effect target spec l g items = Ok (c, l', g') ->
  exists a r k, c = with_actor target a /\ l' = l ++ r /\
                effects a = effects (actor_of target) ++ k /\
                (no_stun_line r -> stun_left_of k = 0).
Proof.
  unfold apply_effect. intros H.
  assert (Hid : target = with_actor target (actor_of target))
    by (destruct target as [[]|[]]; reflexivity).
  assert (Hnil : forall a : Actor, effects a = effects a ++ [])
    by (intros a; by rewrite app_nil_r).
  repeat bind_step H.
  destruct (if SFltb _ _ then _ else _) as [failed g1].
  destruct failed.
  { injection H as <- <- <-. exists (actor_of target), [LogEffectFailed], []. eauto. }
  case_decide as Hheal.
  { repeat bind_step H. injection H as <- <- <-.
    eexists _, [_], [].
    split; [ reflexivity | split; [ reflexivity | split; [ simpl; by rewrite app_nil_r | done ] ] ]. }
  case_decide as Hls.
  { injection H as <- <- <-. exists (actor_of target), [], []. rewrite app_nil_r. eauto. }
  case_decide as Hbuff.
  { injection H as <- <- <-. eexists _, [_], [_]. repeat split. intros _. simpl.
    rewrite Hbuff. reflexivity. }
  case_decide as Hdebuff.
  { injection H as <- <- <-. eexists _, [_], [_]. repeat split. intros _. simpl.
    rewrite Hdebuff. reflexivity. }
  case_decide as Hbleed.
  { injection H as <- <- <-. eexists _, [_], [_]. repeat split. intros _. simpl.
    rewrite Hbleed. reflexivity. }
  case_decide as Hstun.
  { injection H as <- <- <-. eexists _, [_], [_]. repeat split.
    intros Hr. apply Forall_cons in Hr as [Hr _]. discriminate Hr. }
  injection H as <- <- <-. eexists (actor_of target), [_], []. eauto.
Qed.

Lemma adds_apply_effect_to ds target spec st g st' g' :
  apply_effect_to ds target spec st g = Ok (st', g') -> adds st st'.
Proof.
  unfold apply_effect_to. intros H. inv_ok.
  match goal with H1 : apply_effect _ _ _ _ _ = Ok _ |- _ =>
    destruct (apply_effect_adds _ _ _ _ _ _ _ _ H1) as (a & r & k & -> & -> & Hk & Hn) end.
  exists r. split; [ done | ].
  intros s. rewrite effects_of_set_logs.
  destruct (side_cases s target) as [->| ->].
  - rewrite effects_of_put_same. eauto.
  - rewrite effects_of_put_other. exists []. by rewrite app_nil_r.
Qed.

Lemma adds_apply_skill_effects ds att def effs : forall st g ls st' g' ls',
  apply_skill_effects ds att def effs st g ls = Ok (st', g', ls') -> adds st st'.
Proof.
  induction effs as [|eff effs IH]; simpl; intros st g ls st' g' ls' H.
  - inv_ok. apply adds_refl.
  - case_decide.
    + bind_step H. eauto.
    + bind_step H. destruct a as [st1 g1].
      eapply adds_trans; [ eapply adds_apply_effect_to; eauto | eauto ].
Qed.

Lemma adds_on_hit_proc ds att def st g st' g' :
  on_hit_proc ds att def st g = Ok (st', g') -> adds st st'.
Proof.
  unfold on_hit_proc. intros H.
  destruct (str_truthy _); [ | inv_ok; apply adds_refl ].
  destruct (match ds_items ds !! _ with Some _ => _ | None => _ end) as [sp|];
    [ | inv_ok; apply adds_refl ].
  case_decide; [ | inv_ok; apply adds_refl ].
  bind_step H. destruct (roll_chance _ _) as [hit g1].
  destruct hit; [ eauto using adds_apply_effect_to | inv_ok; apply adds_refl ].
Qed.

Lemma adds_lifesteal_heal ds att total ls st st' :
  lifesteal_heal ds att total ls st = Ok st' -> adds st st'.
Proof.
  unfold lifesteal_heal. intros H.
  destruct (py_gt _ _); [ | inv_ok; apply adds_refl ].
  repeat bind_step H. injection H as <-.
  eapply adds_trans; [ | apply adds_add_log ].
  by apply adds_put_actor.
Qed.

Lemma adds_resolve_skill ds att def sd skill_id is_player st g st' g' :
  resolve_skill ds att def sd skill_id is_player st g = Ok (st', g') -> adds st st'.
Proof.
  unfold resolve_skill. intros H. inv_ok.
  match goal with
  | H1 : apply_damage _ _ = Ok ?d,
    H2 : apply_skill_effects _ _ _ _ ?mid _ _ = Ok (?b, _, _),
    H3 : _ = Ok (?b0, _),
    H4 : lifesteal_heal _ _ _ _ _ = Ok _ |- _ =>
      apply (adds_trans _ b0); [ | exact (adds_lifesteal_heal _ _ _ _ _ _ H4) ];
      apply (adds_trans _ b);
        [ | destruct is_player; inv_ok;
            [ eapply adds_on_hit_proc; eassumption | apply adds_refl ] ];
      apply (adds_trans _ mid); [ | exact (adds_apply_skill_effects _ _ _ _ _ _ _ _ _ _ H2) ];
      apply (adds_trans _ (put st (with_actor (get st def) d)));
        [ apply adds_put_actor; exact (apply_damage_effects _ _ _ H1) | ]
  end.
  destruct is_player;
    (eapply adds_trans; [ eapply adds_trans | ]); apply adds_add_log.
Qed.

Lemma adds_use_skill ds att def skill_id is_player st g st' g' :
  _use_skill ds att def skill_id is_player st g = Ok (None, st', g') -> adds st st'.
Proof.
  unfold _use_skill. intros H.
  destruct (lookup_skill ds skill_id) as [sd|].
  - bind_step H. destruct a as [st1 g1].
    destruct (is_dead _); inv_ok. eauto using adds_resolve_skill.
  - inv_ok. apply adds_add_log.
Qed.

Lemma adds_set_gimmick_used (st : BattleState) (u : gmap nat bool) :
  adds st (set_gimmick_used st u).
Proof.
  exists []. split; [ simpl; by rewrite app_nil_r | ].
  intros s. exists []. split; [ destruct s; simpl; by rewrite app_nil_r | done ].
Qed.

Lemma adds_fire_gimmick ds idx gm st g st' g' :
  fire_gimmick ds idx gm st g = Ok (st', g') -> adds st st'.
Proof.
  unfold fire_gimmick. intros H. bind_step H. destruct a as [st1 g1].
  assert (Hmid : adds st st1).
  { destruct (gm_action gm) as [action|]; [ | inv_ok; apply adds_refl ].
    case_decide; [ | inv_ok; apply adds_refl ].
    eauto using adds_apply_effect_to. }
  destruct (default false (gm_once gm)); inv_ok; [ | exact Hmid ].
  eapply adds_trans; [ exact Hmid | apply adds_set_gimmick_used ].
Qed.

Lemma adds_gimmick_step ds idx gm st g st' g' :
  gimmick_step ds idx gm st g = Ok (st', g') -> adds st st'.
Proof.
  unfold gimmick_step. intros H.
  destruct gm as [gm|]; [ | inv_ok; apply adds_refl ].
  destruct (spent gm idx st); [ inv_ok; apply adds_refl | ].
  bind_step H. destruct a; [ eauto using adds_fire_gimmick | inv_ok; apply adds_refl ].
Qed.

Lemma adds_gimmick_loop ds gms : forall idx st g st' g',
  gimmick_loop ds idx gms st g = Ok (st', g') -> adds st st'.
Proof.
  induction gms as [|gm gms IH]; simpl; intros idx st g st' g' H.
  - inv_ok. apply adds_refl.
  - bind_step H. destruct a as [st1 g1].
    eapply adds_trans; [ eapply adds_gimmick_step; eauto | eauto ].
Qed.

Lemma adds_can_act_side (s : side) (st : BattleState) :
  adds st (snd (can_act_side s st)).
Proof.
  unfold can_act_side, can_act. destruct (has_effect _ _); simpl.
  - apply adds_add_log.
  - rewrite set_logs_id. apply adds_refl.
Qed.

Lemma adds_enemy_action ds st g st' g' :
  _enemy_action ds st g = Ok (None, st', g') -> adds st st'.
Proof.
  unfold _enemy_action. intros H.
  pose proof (adds_can_act_side SideEnemy st) as Hc.
  destruct (can_act_side SideEnemy st) as [ok st0]. simpl in Hc.
  eapply adds_trans; [ exact Hc | ].
  destruct ok; simpl in H; [ | inv_ok; apply adds_refl ].
  bind_step H. destruct a as [st1 g1].
  assert (H1 : adds st0 st1).
  { destruct (String.eqb _ _); [ | inv_ok; apply adds_refl ].
    unfold _handle_gimmicks in *. eauto using adds_gimmick_loop. }
  eapply adds_trans; [ exact H1 | ].
  bind_step H. destruct a as [skill_choice g2].
  bind_step H. destruct a as [[r st2] g3].
  destruct r; [ inv_ok | ].
  destruct (is_dead _); inv_ok. eauto using adds_use_skill.
Qed.

(** The lines of a tick are never stun lines. *)
Lemma tick_loop_lines tname effs : forall h l rem h' l' rem',
  tick_loop tname effs h l rem = Ok (h', l', rem') ->
  exists r, l' = l ++ r /\ no_stun_line r.
Proof.
  induction effs as [|e effs IH]; simpl; intros h l rem h' l' rem' H.
  - inv_ok. exists []. split; [ by rewrite app_nil_r | constructor ].
  - bind_step H. destruct a as [h1 l1].
    assert (Hl : exists r, l1 = l ++ r /\ no_stun_line r).
    { destruct (String.eqb _ _); inv_ok.
      - eexists [_]. split; [ done | by repeat constructor ].
      - exists []. split; [ by rewrite app_nil_r | constructor ]. }
    destruct Hl as (r1 & -> & N1).
    destruct (0 <? _).
    + destruct (IH _ _ _ _ _ _ H) as (r2 & -> & N2).
      exists (r1 ++ r2). split; [ by rewrite app_assoc | by apply Forall_app ].
    + destruct (IH _ _ _ _ _ _ H) as (r2 & -> & N2).
      exists (r1 ++ [LogEffectEnd tname (kind e)] ++ r2).
      split; [ by rewrite <- !app_assoc | ].
      apply Forall_app. split; [ done | ]. by constructor.
Qed.

Lemma tick_side_lines (s : side) (st st' : BattleState) :
  tick_side s st = Ok st' -> exists r, logs st' = logs st ++ r /\ no_stun_line r.
Proof.
  unfold tick_side, tick_end_of_turn. intros H. inv_ok. simpl.
  eauto using tick_loop_lines.
Qed.

Lemma end_of_turn_lines ds st g st' g' :
  _end_of_turn ds st g = Ok (None, st', g') ->
  exists r, logs st' = logs st ++ r /\ no_stun_line r.
Proof.
  unfold _end_of_turn. intros H. do 2 bind_step H.
  destruct (is_dead _); [ inv_ok | ].
  destruct (is_dead _); inv_ok.
  match goal with
  | H1 : tick_side SidePlayer _ = Ok _, H2 : tick_side SideEnemy _ = Ok _ |- _ =>
      destruct (tick_side_lines _ _ _ H1) as (r1 & L1 & N1);
      destruct (tick_side_lines _ _ _ H2) as (r2 & L2 & N2)
  end.
  exists (r1 ++ r2). split; [ by rewrite L2, L1, app_assoc | by apply Forall_app ].
Qed.

(** Over a turn that does not end the battle: if no stun line is logged,
    every stun has exactly one turn less. *)
Lemma after_player_action_exact ds st g st' g' :
  _after_player_action ds st g = Ok (None, st', g') ->
  exists r, logs st' = logs st ++ r /\
    (no_stun_line r ->
     forall s, stun_left_of (effects_of st' s) = Z.max 0 (stun_left_of (effects_of st s) - 1)).
Proof.
  unfold _after_player_action. intros H.
  bind_step H. destruct a as [[r st1] g1]. destruct r; [ inv_ok | ].
  bind_step H. destruct a as [[r st2] g2]. inv_ok.
  match goal with
  | H1 : _enemy_action _ _ _ = Ok _, H2 : _end_of_turn _ _ _ = Ok _ |- _ =>
      destruct (adds_enemy_action _ _ _ _ _ H1) as (r1 & L1 & K1);
      destruct (end_of_turn_lines _ _ _ _ _ H2) as (r2 & L2 & N2);
      pose proof (fun s => end_of_turn_effects _ _ _ _ _ s H2) as T
  end.
  exists (r1 ++ r2). split; [ simpl; by rewrite L2, L1, app_assoc | ].
  intros Hr s. apply Forall_app in Hr as [Hr1 _].
  rewrite effects_of_set_turns, T, stun_left_of_ticked.
  destruct (K1 s) as (k & -> & Hk). rewrite stun_left_of_app, Hk by done.
  pose proof (stun_left_of_nonneg (effects_of st s)). lia.
Qed.

Lemma consumable_lines p item_id ds l g su m p' l' g' :
  Items.apply_consumable_in_battle p item_id ds l g = Ok (su, m, p', l', g') ->
  exists r, l' = l ++ r /\ no_stun_line r.
Proof.
  unfold Items.apply_consumable_in_battle. intros H.
  assert (Hnil : exists r, l = l ++ r /\ no_stun_line r)
    by (exists []; split; [ by rewrite app_nil_r | constructor ]).
  destruct (get_item ds item_id) as [item|]; [ | by inv_ok ].
  destruct (negb _); [ by inv_ok | ].
  case_decide as Hheal.
  { inv_ok. eexists [_; _]. rewrite <- app_assoc. split; [ done | by repeat constructor ]. }
  case_decide as Hcl.
  { destruct (0 <? _); inv_ok; eexists [_; _]; rewrite <- app_assoc;
      (split; [ done | by repeat constructor ]). }
  case_decide as Hbuff;
    [ | inv_ok; eexists [_]; split; [ done | by repeat constructor ] ].
  bind_step H. destruct a as [[c l1] g1]. injection H as <- <- <- <- <-.
  unfold apply_effect in E. simpl in E.
  injection E as <- <- <-.
  eexists [_; _]. rewrite <- app_assoc. split; [ done | by repeat constructor ].
Qed.

(** The player's part of a turn, seen from the enemy's effect list. *)
Lemma player_part_enemy_adds ds inp st g st1 g1 :
  player_part ds inp st g = Ok (None, st1, g1) ->
  exists r k, logs st1 = logs st ++ r /\
              effects_of st1 SideEnemy = effects_of st SideEnemy ++ k /\
              (no_stun_line r -> stun_left_of k = 0).
Proof.
  unfold player_part. intros H.
  assert (Hside : forall a b, adds a b ->
            exists r k, logs b = logs a ++ r /\
              effects_of b SideEnemy = effects_of a SideEnemy ++ k /\
              (no_stun_line r -> stun_left_of k = 0)).
  { intros a b (r & L & K). destruct (K SideEnemy) as (k & Hk & Hn). eauto 6. }
  pose proof (adds_can_act_side SidePlayer st) as Hc.
  destruct (can_act_side SidePlayer st) as [ok st0]. simpl in Hc.
  destruct ok; simpl in H; [ | inv_ok; by apply Hside ].
  destruct inp as [skill_id|item_id].
  - bind_step H. destruct a as [[r st2] g2]. destruct r; [ inv_ok | ].
    unfold finished in H. destruct (is_dead _); inv_ok.
    apply Hside. eapply adds_trans; [ exact Hc | eapply adds_use_skill; eauto ].
  - destruct (_ <=? _).
    + inv_ok. apply Hside. eapply adds_trans; [ exact Hc | apply adds_add_log ].
    + bind_step H. destruct a as [[[[su m] p] l] g2]. inv_ok.
      destruct Hc as (r0 & L0 & K0). destruct (K0 SideEnemy) as (k0 & Hk0 & Hn0).
      match goal with H1 : Items.apply_consumable_in_battle _ _ _ _ _ = Ok _ |- _ =>
        destruct (consumable_lines _ _ _ _ _ _ _ _ _ _ H1) as (r1 & -> & N1) end.
      exists (r0 ++ r1 ++ [LogMessage m]), k0.
      split; [ destruct su; simpl; rewrite L0; by rewrite <- !app_assoc | ].
      split; [ destruct su; exact Hk0 | ].
      intros Hr. apply Forall_app in Hr as [Hr0 _]. auto.
Qed.

Lemma player_turn_enemy_exact ds inp st g st' g' :
  player_turn ds inp st g = Ok (None, st', g') ->
  exists r, logs st' = logs st ++ r /\
    (no_stun_line r ->
     stun_left_of (effects_of st' SideEnemy) =
     Z.max 0 (stun_left_of (effects_of st SideEnemy) - 1)).
Proof.
  rewrite player_turn_parts. unfold and_then. intros H.
  bind_step H. destruct a as [[r st1] g1]. destruct r; [ inv_ok | ].
  destruct (player_part_enemy_adds _ _ _ _ _ _ E) as (r1 & k & L1 & K1 & N1).
  destruct (after_player_action_exact _ _ _ _ _ H) as (r2 & L2 & X2).
  exists (r1 ++ r2). split; [ by rewrite L2, L1, app_assoc | ].
  intros Hr. apply Forall_app in Hr as [Hr1 Hr2].
  rewrite (X2 Hr2 SideEnemy), K1, stun_left_of_app, (N1 Hr1).
  pose proof (stun_left_of_nonneg (effects_of st SideEnemy)). lia.
Qed.

Lemma skipped_turn_exact ds st g st' g' :
  skipped_turn ds st g = Ok (None, st', g') ->
  exists r, logs st' = logs st ++ r /\
    (no_stun_line r ->
     stun_left_of (effects_of st' SidePlayer) =
     Z.max 0 (stun_left_of (effects_of st SidePlayer) - 1)).
Proof.
  unfold skipped_turn. intros H.
  destruct (after_player_action_exact _ _ _ _ _ H) as (r & L & X).
  exists (LogCannotAct (name (p_actor (player st))) :: r).
  split; [ rewrite L; simpl; by rewrite <- app_assoc | ].
  intros Hr. apply Forall_cons in Hr as [_ Hr]. exact (X Hr SidePlayer).
Qed.

(** A run that goes on, seen from one effect list: when every turn of it
    takes one turn off the stun unless a stun line is logged, the whole run
    takes as many as it has turns. *)
Lemma run_exact ds (s : side) inputs : forall st g st' g',
  (forall inp st g st' g',
     player_turn ds inp st g = Ok (None, st', g') ->
     exists r, logs st' = logs st ++ r /\
       (no_stun_line r ->
        stun_left_of (effects_of st' s) = Z.max 0 (stun_left_of (effects_of st s) - 1))) ->
  run ds inputs st g = Ok (None, st', g') ->
  exists r, logs st' = logs st ++ r /\
    (no_stun_line r ->
     stun_left_of (effects_of st' s) =
     Z.max 0 (stun_left_of (effects_of st s) - Z.of_nat (length inputs))).
Proof.
  induction inputs as [|inp rest IH]; intros st g st' g' Hturn H; cbn [run] in H.
  - inv_ok. exists []. split; [ by rewrite app_nil_r | ].
    intros _. pose proof (stun_left_of_nonneg (effects_of st' s)). simpl. lia.
  - bind_step H. destruct a as [[r st1] g1]. destruct r; [ inv_ok | ].
    destruct (Hturn _ _ _ _ _ E) as (r1 & L1 & X1).
    destruct (IH _ _ _ _ Hturn H) as (r2 & L2 & X2).
    exists (r1 ++ r2). split; [ by rewrite L2, L1, app_assoc | ].
    intros Hr. apply Forall_app in Hr as [Hr1 Hr2].
    rewrite (X2 Hr2), (X1 Hr1). cbn [length]. lia.
Qed.

Lemma skipped_run_exact ds n : forall st g st' g',
  skipped_run ds n st g = Ok (None, st', g') ->
  exists r, logs st' = logs st ++ r /\
    (no_stun_line r ->
     stun_left_of (effects_of st' SidePlayer) =
     Z.max 0 (stun_left_of (effects_of st SidePlayer) - Z.of_nat n)).
Proof.
  induction n as [|n IH]; intros st g st' g' H; cbn [skipped_run] in H.
  - inv_ok. exists []. split; [ by rewrite app_nil_r | ].
    intros _. pose proof (stun_left_of_nonneg (effects_of st' SidePlayer)). lia.
  - bind_step H. destruct a as [[r st1] g1]. destruct r; [ inv_ok | ].
    destruct (skipped_turn_exact _ _ _ _ _ E) as (r1 & L1 & X1).
    destruct (IH _ _ _ _ H) as (r2 & L2 & X2).
    exists (r1 ++ r2). split; [ by rewrite L2, L1, app_assoc | ].
    intros Hr. apply Forall_app in Hr as [Hr1 Hr2].
    rewrite (X2 Hr2), (X1 Hr1). lia.
Qed.

Lemma tick_stun_left (a : Actor) (l : list log_line) (a' : Actor) (l' : list log_line) :
  tick_end_of_turn a l = Ok (a', l') -> stun_left a' = Z.max 0 (stun_left a - 1).
Proof.
  intros H. unfold stun_left.
  by rewrite (tick_end_of_turn_effects _ _ _ _ H), stun_left_of_ticked.
Qed.

Lemma can_act_stun_left (a : Actor) (l : list log_line) :
  fst (can_act a l) = true <-> stun_left a = 0.
Proof.
  unfold can_act. rewrite has_effect_stun.
  pose proof (stun_left_of_nonneg (effects a)). unfold stun_left in *.
  destruct (Z.ltb_spec 0 (stun_left_of (effects a))); simpl; split; intros; try done; lia.
Qed.

Lemma stun_lands (effs : list EffectInstance) (e : EffectInstance) :
  kind e = "stun" -> 1 <= duration e ->
  stun_left_of (effs ++ [e]) = Z.max (stun_left_of effs) (duration e).
Proof.
  intros Hk Hd. rewrite stun_left_of_app. simpl. rewrite Hk. simpl. lia.
Qed.

(** The turn in which a stun lands on the enemy, then the turns that
    follow: the enemy sits them all out. *)
Lemma run_after_stunning ds inp inputs st g st1 g1 :
  player_part ds inp st g = Ok (None, st1, g1) ->
  Z.of_nat (length inputs) + 1 <= stun_left_of (effects_of st1 SideEnemy) ->
  run ds (inp :: inputs) st g =
    let* (res, st', g') := enemy_sits_out ds st1 g1 in
    match res with
    | Some r => Ok (Some r, st', g')
    | None => quiet_run ds inputs st' g'
    end.
Proof.
  intros Hpart Hlen. cbn [run]. rewrite player_turn_parts, Hpart.
  unfold and_then. cbn [rbind].
  assert (Hst : stunned st1 SideEnemy = true)
    by (rewrite stunned_stun_left; apply Z.ltb_lt; lia).
  pose proof (after_player_action_stunned_enemy ds st1 g1 Hst) as Heq.
  rewrite Heq.
  destruct (enemy_sits_out ds st1 g1) as [[[r st'] g']|e] eqn:Hrest; [ | done ].
  cbn [rbind]. destruct r; [ done | ].
  apply run_while_enemy_stunned.
  pose proof (after_player_action_stun _ _ _ _ _ SideEnemy Heq). lia.
Qed.

(** The rest of a turn after the enemy's action: one tick for both. *)
Lemma after_enemy_action_tick ds st g st1 g1 st' g' (s : side) :
  _enemy_action ds st g = Ok (None, st1, g1) ->
  _after_player_action ds st g = Ok (None, st', g') ->
  stun_left_of (effects_of st' s) = Z.max 0 (stun_left_of (effects_of st1 s) - 1).
Proof.
  unfold _after_player_action. intros He H. rewrite He in H. cbn [rbind] in H.
  bind_step H. destruct a as [[r st2] g2]. inv_ok.
  rewrite effects_of_set_turns.
  match goal with
  | H2 : _end_of_turn _ _ _ = Ok _ |- _ =>
      by rewrite (end_of_turn_effects _ _ _ _ _ s H2), stun_left_of_ticked
  end.
Qed.

Lemma enemy_sits_out_tick ds st g st' g' (s : side) :
  enemy_sits_out ds st g = Ok (None, st', g') ->
  stun_left_of (effects_of st' s) = Z.max 0 (stun_left_of (effects_of st s) - 1).
Proof.
  unfold enemy_sits_out. intros H.
  bind_step H. destruct a as [[r st2] g2]. inv_ok.
  rewrite effects_of_set_turns.
  match goal with
  | H2 : _end_of_turn _ _ _ = Ok _ |- _ =>
      rewrite (end_of_turn_effects _ _ _ _ _ s H2), stun_left_of_ticked
  end.
  unfold add_log. by rewrite effects_of_set_logs.
Qed.

(** The dazer stuns the player for one turn in each of its actions; the stun
    is ticked away at the end of that same turn, so the player acts in every
    turn: a stun of duration 1 has prevented none of its holder's actions. *)
Lemma daze_prevents_no_action :
  player_turn demo_ds (UseSkill "__basic__") dazer_state demo_rng = Ok dazed_1 /\
  fst (fst dazed_1) = None /\
  In (LogStun "hero" 1) (logs (snd (fst dazed_1))) /\
  effects_of (snd (fst dazed_1)) SidePlayer = [] /\
  fst (can_act (p_actor (player (snd (fst dazed_1)))) []) = true /\
  player_turn demo_ds (UseSkill "__basic__") (snd (fst dazed_1)) (snd dazed_1) = Ok dazed_2 /\
  skips_of "hero" (logs (snd (fst dazed_2))) = O /\
  hp (e_actor (enemy (snd (fst dazed_2)))) = PInt 4.
Proof.
  split; [ reflexivity | ]. split; [ reflexivity | ].
  split; [ vm_compute; tauto | ].
  repeat split; reflexivity.
Qed.

(** C4, as the code has it. The stun an actor is under is the largest
    duration among its stun effects, [stun_left]. The actor can act exactly
    when it is 0; a stun of duration D >= 1 that lands raises it to at least
    D; every end-of-turn tick, also of a turn its holder sat out, lowers it
    by one, and the tick that brings it to 0 removes the effect; the rest
    of a turn after the enemy's action, taken or sat out, is one such tick.
    A stun that the player's part of a turn puts on the enemy, with n + 1
    turns left on it, makes the enemy sit out its action of that same turn
    and of the n turns that follow. A player who starts a turn with n turns of
    stun left skips its own action in the n turns from there: of a stun of
    duration D that landed during the enemy's action, the end of that
    turn has already taken one, and D - 1 are left. As long as the log
    reports no new stun, the stun left after the turns played is what was
    left before, less their number. *)
Theorem stun_dynamics (ds : DataStore) :
  (forall (a : Actor) (l : list log_line),
     fst (can_act a l) = true <-> stun_left a = 0) /\
  (forall (effs : list EffectInstance) (e : EffectInstance),
     kind e = "stun" -> 1 <= duration e ->
     stun_left_of (effs ++ [e]) = Z.max (stun_left_of effs) (duration e)) /\
  (forall (a : Actor) (l : list log_line) (a' : Actor) (l' : list log_line),
     tick_end_of_turn a l = Ok (a', l') -> stun_left a' = Z.max 0 (stun_left a - 1)) /\
  (forall st g st' g' (s : side),
     _end_of_turn ds st g = Ok (None, st', g') ->
     stun_left_of (effects_of st' s) = Z.max 0 (stun_left_of (effects_of st s) - 1)) /\
  (forall st g st1 g1 st' g' (s : side),
     _enemy_action ds st g = Ok (None, st1, g1) ->
     _after_player_action ds st g = Ok (None, st', g') ->
     stun_left_of (effects_of st' s) = Z.max 0 (stun_left_of (effects_of st1 s) - 1)) /\
  (forall st g st' g' (s : side),
     enemy_sits_out ds st g = Ok (None, st', g') ->
     stun_left_of (effects_of st' s) = Z.max 0 (stun_left_of (effects_of st s) - 1)) /\
  (forall inp inputs st g st1 g1,
     player_part ds inp st g = Ok (None, st1, g1) ->
     Z.of_nat (length inputs) + 1 <= stun_left_of (effects_of st1 SideEnemy) ->
     run ds (inp :: inputs) st g =
       let* (res, st', g') := enemy_sits_out ds st1 g1 in
       match res with
       | Some r => Ok (Some r, st', g')
       | None => quiet_run ds inputs st' g'
       end) /\
  (forall inputs st g,
     Z.of_nat (length inputs) <= stun_left_of (effects_of st SidePlayer) ->
     run ds inputs st g = skipped_run ds (length inputs) st g) /\
  (forall inputs st g st' g' r,
     Z.of_nat (length inputs) <= stun_left_of (effects_of st SidePlayer) ->
     run ds inputs st g = Ok (None, st', g') ->
     logs st' = logs st ++ r -> no_stun_line r ->
     stun_left_of (effects_of st' SidePlayer) =
       stun_left_of (effects_of st SidePlayer) - Z.of_nat (length inputs)) /\
  (forall inputs st g st' g' r,
     run ds inputs st g = Ok (None, st', g') ->
     logs st' = logs st ++ r -> no_stun_line r ->
     stun_left_of (effects_of st' SideEnemy) =
       Z.max 0 (stun_left_of (effects_of st SideEnemy) - Z.of_nat (length inputs))).
Proof.
  split; [ exact can_act_stun_left | ].
  split; [ exact stun_lands | ].
  split; [ exact tick_stun_left | ].
  split.
  { intros st g st' g' s H.
    by rewrite (end_of_turn_effects _ _ _ _ _ s H), stun_left_of_ticked. }
  split; [ exact (after_enemy_action_tick ds) | ].
  split; [ exact (enemy_sits_out_tick ds) | ].
  split; [ exact (run_after_stunning ds) | ].
  split; [ exact (run_while_stunned ds) | ].
  split.
  - intros inputs st g st' g' r Hlen Hrun Hlogs Hr.
    rewrite (run_while_stunned ds inputs st g Hlen) in Hrun.
    destruct (skipped_run_exact _ _ _ _ _ _ Hrun) as (r0 & L0 & X0).
    rewrite L0 in Hlogs. apply app_inv_head in Hlogs. subst r0.
    rewrite (X0 Hr). lia.
  - intros inputs st g st' g' r Hrun Hlogs Hr.
    destruct (run_exact ds SideEnemy inputs st g st' g'
                (player_turn_enemy_exact ds) Hrun) as (r0 & L0 & X0).
    rewrite L0 in Hlogs. apply app_inv_head in Hlogs. subst r0.
    exact (X0 Hr).
Qed.

(** Bash stuns the slime for 2: it sits out the turn of the bash and the
    next one, and hits again in the third. *)
Lemma bash_costs_two_actions :
  run demo_ds [UseSkill "bash"; UseItem "potion"; UseItem "potion"] demo_state demo_rng
    = Ok bash_then_two /\
  fst (fst bash_then_two) = None /\
  skips_of "slime" (logs (snd (fst bash_then_two))) = 2%nat /\
  last (logs (snd (fst bash_then_two))) = Some (LogPlayerHp (PInt 40) 50).
Proof. repeat split; reflexivity. Qed.

Lemma stun_dynamics_witness :
  player_part demo_ds (UseSkill "bash") demo_state demo_rng
    = Ok (None, snd (fst bashed), snd bashed) /\
  Z.of_nat (length [UseSkill "__basic__"]) + 1
    <= stun_left_of (effects_of (snd (fst bashed)) SideEnemy) /\
  run demo_ds [UseSkill "bash"; UseSkill "__basic__"] demo_state demo_rng =
    (let* (res, st', g') := enemy_sits_out demo_ds (snd (fst bashed)) (snd bashed) in
     match res with
     | Some r => Ok (Some r, st', g')
     | None => quiet_run demo_ds [UseSkill "__basic__"] st' g'
     end) /\
  Z.of_nat (length [UseSkill "__basic__"; UseItem "potion"])
    <= stun_left_of (effects_of stunned_state SidePlayer) /\
  run demo_ds [UseSkill "__basic__"; UseItem "potion"] stunned_state demo_rng =
    skipped_run demo_ds 2 stunned_state demo_rng.
Proof.
  assert (H1 : player_part demo_ds (UseSkill "bash") demo_state demo_rng
               = Ok (None, snd (fst bashed), snd bashed)) by reflexivity.
  assert (H2 : Z.of_nat (length [UseSkill "__basic__"]) + 1
               <= stun_left_of (effects_of (snd (fst bashed)) SideEnemy))
    by (vm_compute; discriminate).
  assert (H3 : Z.of_nat (length [UseSkill "__basic__"; UseItem "potion"])
               <= stun_left_of (effects_of stunned_state SidePlayer))
    by (vm_compute; discriminate).
  pose proof (stun_dynamics demo_ds) as (_ & _ & _ & _ & _ & _ & He & Hp & _).
  exact (conj H1 (conj H2 (conj (He _ _ _ _ _ _ H1 H2) (conj H3 (Hp _ _ _ H3))))).
Defined.

(** ** Gimmicks in the action of a boss *)

Lemma gimmick_used_put (st : BattleState) (c : combatant) :
  gimmick_used (put st c) = gimmick_used st.
Proof. by destruct c. Qed.

Lemma apply_effect_to_marks ds target spec st g st' g' :
  apply_effect_to ds target spec st g = Ok (st', g') -> gimmick_used st' = gimmick_used st.
Proof.
  unfold apply_effect_to. intros H. bind_step H. destruct a as [[c l] g1].
  injection H as <- <-. cbn [gimmick_used set_logs]. apply gimmick_used_put.
Qed.

Lemma fire_gimmick_marks_at ds idx gm st g st' g' :
  fire_gimmick ds idx gm st g = Ok (st', g') ->
  forall k, k <> idx -> gimmick_used st' !! k = gimmick_used st !! k.
Proof.
  unfold fire_gimmick. intros H k Hk. bind_step H. destruct a as [st1 g1].
  assert (Hmid : gimmick_used st1 = gimmick_used st).
  { destruct (gm_action gm) as [action|]; [ | by injection E as <- <- ].
    case_decide; [ eauto using apply_effect_to_marks | by injection E as <- <- ]. }
  destruct (default false (gm_once gm)); injection H as <- <-.
  - cbn [gimmick_used set_gimmick_used]. rewrite lookup_insert_ne by done. by rewrite Hmid.
  - by rewrite Hmid.
Qed.

Lemma gimmick_step_marks_at ds idx gm st g st' g' :
  gimmick_step ds idx gm st g = Ok (st', g') ->
  forall k, k <> idx -> gimmick_used st' !! k = gimmick_used st !! k.
Proof.
  unfold gimmick_step. intros H k Hk.
  destruct gm as [gm|]; [ | by injection H as <- <- ].
  destruct (spent gm idx st); [ by injection H as <- <- | ].
  bind_step H. destruct a; [ eauto using fire_gimmick_marks_at | by injection H as <- <- ].
Qed.

Lemma gimmick_loop_marks_outside ds gms : forall i0 st g st' g',
  gimmick_loop ds i0 gms st g = Ok (st', g') ->
  forall k, (k < i0 \/ i0 + length gms <= k)%nat ->
    gimmick_used st' !! k = gimmick_used st !! k.
Proof.
  induction gms as [|gm gms IH]; intros i0 st g st' g' H k Hk; cbn [gimmick_loop] in H.
  - by injection H as <- <-.
  - bind_step H. destruct a as [st1 g1]. cbn [length] in Hk.
    rewrite (IH _ _ _ _ _ H k) by lia.
    eapply gimmick_step_marks_at; [ exact E | lia ].
Qed.

Lemma gimmick_loop_at ds gms : forall i0 k gm st g st' g',
  gms !! k = Some gm ->
  gimmick_loop ds i0 gms st g = Ok (st', g') ->
  exists st1 g1 st2 g2,
    gimmick_loop ds i0 (take k gms) st g = Ok (st1, g1) /\
    gimmick_step ds (i0 + k) gm st1 g1 = Ok (st2, g2) /\
    gimmick_loop ds (S (i0 + k)) (drop (S k) gms) st2 g2 = Ok (st', g').
Proof.
  induction gms as [|gm0 gms IH]; intros i0 k gm st g st' g' Hk H; [ done | ].
  cbn [gimmick_loop] in H. bind_step H. destruct a as [st1 g1].
  destruct k as [|k]; simpl in Hk.
  - injection Hk as ->. exists st, g, st1, g1. rewrite Nat.add_0_r. by repeat split.
  - destruct (IH (S i0) k gm st1 g1 st' g' Hk H) as (sa & ga & sb & gb & Ha & Hb & Hc).
    exists sa, ga, sb, gb. cbn [take drop gimmick_loop]. rewrite E. cbn [rbind].
    replace (i0 + S k)%nat with (S i0 + k)%nat by lia. by repeat split.
Qed.

Lemma effects_of_set_gimmick_used (st : BattleState) (u : gmap nat bool) (s : side) :
  effects_of (set_gimmick_used st u) s = effects_of st s.
Proof. by destruct s. Qed.

Lemma fire_gimmick_puts ds idx gm st g st' g' e t d :
  puts_effect gm e t d ->
  fire_gimmick ds idx gm st g = Ok (st', g') ->
  exists inst, kind inst = e /\ duration inst = d /\
               effects_of st' t = effects_of st t ++ [inst].
Proof.
  intros (action & Hact & Hty & Heff & Hlast & Ht & Hd) H.
  unfold fire_gimmick in H. rewrite Hact in H.
  rewrite decide_True in H by done. fold (gimmick_target action) in H. rewrite Ht, Heff, Hd in H.
  bind_step H. destruct a as [st1 g1].
  assert (Hmid : exists inst, kind inst = e /\ duration inst = d /\
                              effects_of st1 t = effects_of st t ++ [inst]).
  { unfold apply_effect_to in E. bind_step E. destruct a as [[c l] g2].
    injection E as <- <-. unfold apply_effect in E0. cbn [es_type es_effect es_chance
      es_duration es_power es_stats es_note es_source default py_float rbind] in E0.
    change (SFltb f1_0 f1_0) with false in E0. bind_step E0.
    assert (Hso : str_or (Some e) None = Some e)
      by (destruct Hlast as [->|[->|[->| ->]]]; reflexivity).
    rewrite Hso in E0.
    exists (mkEffect e d a ∅ None).
    repeat split.
    rewrite effects_of_set_logs.
    destruct Hlast as [->|[->|[->| ->]]]; cbn in E0; injection E0 as <- <-;
      unfold append_effect; by rewrite effects_of_put_same. }
  destruct Hmid as (inst & Hk & Hdur & Hadd). exists inst.
  destruct (default false (gm_once gm)); injection H as <- <-;
    rewrite ?effects_of_set_gimmick_used; auto.
Qed.

Lemma gained_through (l l1 l2 l' : list EffectInstance) (e : string) (d : Z) :
  l `prefix_of` l1 ->
  (exists inst, kind inst = e /\ duration inst = d /\ l2 = l1 ++ [inst]) ->
  l2 `prefix_of` l' ->
  gained l l' e d.
Proof.
  intros [k ->] (inst & Hk & Hd & ->) [k' ->].
  exists k, inst, k'. repeat split; auto. by rewrite <- !app_assoc.
Qed.

Lemma gained_more (l l1 l' : list EffectInstance) (e : string) (d : Z) :
  gained l l1 e d -> l1 `prefix_of` l' -> gained l l' e d.
Proof.
  intros (pre & inst & post & -> & Hk & Hd) [k ->].
  exists pre, inst, (post ++ k). repeat split; auto. by rewrite <- !app_assoc.
Qed.

(** The evaluation of the gimmicks reaches each gimmick of the list, in a
    state with the turn counter and the gimmick's mark as they were. *)
Lemma handle_gimmicks_reaches ds st g st' g' idx gm :
  gimmicks (enemy st) !! idx = Some (Some gm) ->
  _handle_gimmicks ds st g = Ok (st', g') ->
  exists st1 g1 st2 g2,
    turn_index st1 = turn_index st /\
    gimmick_used st1 !! idx = gimmick_used st !! idx /\
    grows st st1 /\
    gimmick_step ds idx (Some gm) st1 g1 = Ok (st2, g2) /\
    grows st2 st' /\ marks_kept st2 st'.
Proof.
  unfold _handle_gimmicks. intros Hidx H.
  destruct (gimmick_loop_at _ _ _ _ _ _ _ _ _ Hidx H)
    as (st1 & g1 & st2 & g2 & Ha & Hb & Hc).
  exists st1, g1, st2, g2. repeat split.
  - by destruct (frame_turn _ _ (frame_gimmick_loop _ _ _ _ _ _ _ Ha)).
  - eapply gimmick_loop_marks_outside; [ exact Ha | ].
    right. rewrite length_take. lia.
  - eauto using grows_gimmick_loop.
  - exact Hb.
  - eauto using grows_gimmick_loop.
  - by destruct (frame_gimmick_loop _ _ _ _ _ _ _ Hc).
Qed.

Lemma every_n_handled ds st g st' g' idx gm n e t d :
  gimmicks (enemy st) !! idx = Some (Some gm) ->
  gm_trigger gm = Some "every_n_turns" -> gm_n gm = Some n ->
  default false (gm_once gm) = false -> 0 < n ->
  puts_effect gm e t d ->
  turn_index st mod n = 0 ->
  _handle_gimmicks ds st g = Ok (st', g') ->
  gained (effects_of st t) (effects_of st' t) e d.
Proof.
  intros Hidx Htr Hn Honce Hpos Hput Hmod H.
  destruct (handle_gimmicks_reaches _ _ _ _ _ _ _ Hidx H)
    as (st1 & g1 & st2 & g2 & Hti & _ & Hg1 & Hstep & Hg2 & _).
  assert (Hf : fires gm idx st1)
    by (apply (every_n_fires gm idx st1 n Htr Hn Honce Hpos); by rewrite Hti).
  rewrite (gimmick_step_fires _ _ _ _ _ Hf) in Hstep.
  destruct (fire_gimmick_puts _ _ _ _ _ _ _ _ _ _ Hput Hstep) as (inst & Hk & Hd & Hadd).
  eapply gained_through; [ apply Hg1 | exists inst; eauto | apply Hg2 ].
Qed.

(** A gimmick that stays idle along the loop can as well be taken out. *)
Lemma gimmick_loop_without ds gm (P : BattleState -> Prop) idx :
  (forall st st', frame st st' -> P st -> P st') ->
  (forall st g, P st -> gimmick_step ds idx (Some gm) st g = Ok (st, g)) ->
  forall gms i0 k st g,
    (i0 + k = idx)%nat -> gms !! k = Some (Some gm) -> P st ->
    gimmick_loop ds i0 gms st g = gimmick_loop ds i0 (<[k := None]> gms) st g.
Proof.
  intros Hkeep Hidle. induction gms as [|gm0 gms IH]; intros i0 k st g Hik Hk HP; [ done | ].
  destruct k as [|k]; simpl in Hk.
  - injection Hk as ->. rewrite Nat.add_0_r in Hik. subst i0.
    cbn [list_insert insert gimmick_loop]. rewrite (Hidle _ _ HP). reflexivity.
  - cbn [list_insert insert gimmick_loop].
    destruct (gimmick_step ds i0 gm0 st g) as [[st1 g1]|] eqn:E; [ | reflexivity ].
    cbn [rbind]. apply IH; [ lia | exact Hk | ].
    eapply Hkeep; [ | exact HP ]. eauto using frame_gimmick_step.
Qed.

Lemma every_n_idle ds idx gm n st g :
  gm_trigger gm = Some "every_n_turns" -> gm_n gm = Some n ->
  default false (gm_once gm) = false ->
  turn_index st mod n <> 0 ->
  gimmick_step ds idx (Some gm) st g = Ok (st, g).
Proof.
  intros Htr Hn Honce Hmod. unfold gimmick_step, spent, should_fire.
  rewrite Htr, Hn, Honce. cbn.
  destruct (Z.eqb_spec (turn_index st mod n) 0); [ done | ]. by rewrite andb_false_r.
Qed.

Lemma enemy_action_handles ds st g res st' g' :
  ai (enemy st) = "boss" -> stunned st SideEnemy = false ->
  _enemy_action ds st g = Ok (res, st', g') ->
  exists st1 g1,
    _handle_gimmicks ds st g = Ok (st1, g1) /\
    logs st1 `prefix_of` logs st' /\ marks_kept st1 st' /\
    (res = None -> grows st1 st').
Proof.
  intros Hai Hfree H. unfold _enemy_action in H.
  rewrite (can_act_side_free _ _ Hfree) in H. cbn [negb] in H. rewrite Hai in H.
  change (String.eqb "boss" "boss") with true in H. cbn iota in H.
  bind_step H. destruct a as [st1 g1]. exists st1, g1. split; [ reflexivity | ].
  bind_step H. destruct a as [skill_choice g2].
  bind_step H. destruct a as [[r st2] g3].
  pose proof (frame_use_skill _ _ _ _ _ _ _ _ _ _ E1) as Hfr.
  destruct r as [r|].
  - injection H as <- <- <-. destruct Hfr as [_ Hl Hm]. by repeat split.
  - destruct (is_dead _).
    + bind_step H. destruct a as [[r st3] g4]. injection H as <- <- <-.
      pose proof (frame_trans _ _ _ Hfr (frame_finish _ _ _ _ _ _ _ E2)) as [_ Hl Hm].
      by repeat split.
    + injection H as <- <- <-. destruct Hfr as [_ Hl Hm].
      repeat split; auto. intros _. eauto using grows_use_skill.
Qed.

(** C7. A gimmick with [once] fires at most once in a battle: firing sets
    its mark, no player input, however many follow, takes a mark back or
    changes the gimmick list, and a marked once-gimmick is skipped whatever
    its trigger says. A gimmick on [every_n_turns] without [once] fires at
    every evaluation where the turn index is a multiple of n, for n = 3 at
    3, 6, 9 and so on, with no limit. The evaluation is the one of
    [_handle_gimmicks], which the action of every boss that can act starts
    with: it reaches each gimmick of the boss with the turn index and the
    gimmick's mark as they were, a once-gimmick that fires there is marked
    when it returns, and a marked one is evaluated as if it were not in the
    list; when the turn index is a multiple of n the effect of an
    every-n gimmick is on its target after the evaluation and after the
    boss's action, and at other turn indices the gimmick is evaluated as if
    it were not in the list. *)
Theorem gimmick_once_and_every_n :
  (forall ds idx gm st g st' g',
     gm_once gm = Some true ->
     fires gm idx st ->
     gimmick_step ds idx (Some gm) st g = Ok (st', g') ->
     gimmick_used st' !! idx = Some true)
  /\
  (forall ds inputs st g res st' g',
     run ds inputs st g = Ok (res, st', g') ->
     gimmicks (enemy st') = gimmicks (enemy st) /\
     forall idx, gimmick_used st !! idx = Some true -> gimmick_used st' !! idx = Some true)
  /\
  (forall ds gms idx0 st g st' g',
     gimmick_loop ds idx0 gms st g = Ok (st', g') ->
     forall idx, gimmick_used st !! idx = Some true -> gimmick_used st' !! idx = Some true)
  /\
  (forall ds idx gm st g,
     gm_once gm = Some true ->
     gimmick_used st !! idx = Some true ->
     ~ fires gm idx st /\ gimmick_step ds idx (Some gm) st g = Ok (st, g))
  /\
  (forall ds idx gm st g n,
     gm_trigger gm = Some "every_n_turns" ->
     gm_n gm = Some n ->
     default false (gm_once gm) = false ->
     0 < n ->
     (fires gm idx st <-> turn_index st mod n = 0) /\
     (turn_index st mod n = 0 ->
      gimmick_step ds idx (Some gm) st g = fire_gimmick ds idx gm st g))
  /\
  (forall ds idx gm st g k,
     gm_trigger gm = Some "every_n_turns" ->
     gm_n gm = Some 3 ->
     default false (gm_once gm) = false ->
     turn_index st = 3 * k ->
     fires gm idx st /\
     gimmick_step ds idx (Some gm) st g = fire_gimmick ds idx gm st g)
  /\
  (forall ds st g st' g' idx gm,
     gimmicks (enemy st) !! idx = Some (Some gm) ->
     _handle_gimmicks ds st g = Ok (st', g') ->
     exists st1 g1 st2 g2,
       turn_index st1 = turn_index st /\
       gimmick_used st1 !! idx = gimmick_used st !! idx /\
       grows st st1 /\
       gimmick_step ds idx (Some gm) st1 g1 = Ok (st2, g2) /\
       grows st2 st' /\ marks_kept st2 st' /\
       (gm_once gm = Some true -> fires gm idx st1 -> gimmick_used st' !! idx = Some true))
  /\
  (forall ds st g idx gm n,
     gimmicks (enemy st) !! idx = Some (Some gm) ->
     gm_trigger gm = Some "every_n_turns" ->
     gm_n gm = Some n ->
     default false (gm_once gm) = false ->
     0 < n ->
     (forall st' g' e t d,
        puts_effect gm e t d ->
        turn_index st mod n = 0 ->
        _handle_gimmicks ds st g = Ok (st', g') ->
        gained (effects_of st t) (effects_of st' t) e d) /\
     (turn_index st mod n <> 0 ->
      _handle_gimmicks ds st g = gimmick_loop ds 0 (without (gimmicks (enemy st)) idx) st g))
  /\
  (forall ds st g res st' g',
     ai (enemy st) = "boss" -> stunned st SideEnemy = false ->
     _enemy_action ds st g = Ok (res, st', g') ->
     exists st1 g1,
       _handle_gimmicks ds st g = Ok (st1, g1) /\
       logs st1 `prefix_of` logs st' /\ marks_kept st1 st' /\
       (res = None -> grows st1 st'))
  /\
  (forall ds st g st' g' idx gm n e t d,
     ai (enemy st) = "boss" -> stunned st SideEnemy = false ->
     gimmicks (enemy st) !! idx = Some (Some gm) ->
     gm_trigger gm = Some "every_n_turns" ->
     gm_n gm = Some n ->
     default false (gm_once gm) = false ->
     0 < n ->
     puts_effect gm e t d ->
     turn_index st mod n = 0 ->
     _enemy_action ds st g = Ok (None, st', g') ->
     gained (effects_of st t) (effects_of st' t) e d)
  /\
  (forall ds st g idx gm,
     gimmicks (enemy st) !! idx = Some (Some gm) ->
     gm_once gm = Some true ->
     gimmick_used st !! idx = Some true ->
     _handle_gimmicks ds st g = gimmick_loop ds 0 (without (gimmicks (enemy st)) idx) st g).
Proof.
  repeat apply conj.
  - intros ds idx gm st g st' g' Honce Hf H.
    rewrite (gimmick_step_fires _ _ _ _ _ Hf) in H. eauto using fire_gimmick_marks.
  - intros ds inputs st g res st' g' H.
    destruct (run_carried _ _ _ _ _ _ _ H) as [He _ _ _ Hm].
    split; [ unfold enemy_static in He; congruence | exact Hm ].
  - intros ds gms idx0 st g st' g' H.
    destruct (frame_gimmick_loop _ _ _ _ _ _ _ H) as [_ _ Hm]. exact Hm.
  - intros ds idx gm st g Honce Hused. by apply spent_idle.
  - intros ds idx gm st g n Htr Hn Honce Hpos.
    pose proof (every_n_fires gm idx st n Htr Hn Honce Hpos) as Hiff.
    split; [ exact Hiff | ].
    intros Hmod. apply gimmick_step_fires. by apply Hiff.
  - intros ds idx gm st g k Htr Hn Honce Hk.
    assert (Hf : fires gm idx st).
    { apply (every_n_fires gm idx st 3 Htr Hn Honce); [ lia | ].
      rewrite Hk, Z.mul_comm. apply Z.mod_mul. lia. }
    split; [ exact Hf | by apply gimmick_step_fires ].
  - intros ds st g st' g' idx gm Hidx H.
    destruct (handle_gimmicks_reaches _ _ _ _ _ _ _ Hidx H)
      as (st1 & g1 & st2 & g2 & Hti & Hmk & Hg1 & Hstep & Hg2 & Hm).
    exists st1, g1, st2, g2. repeat split; auto.
    intros Honce Hf. apply Hm.
    rewrite (gimmick_step_fires _ _ _ _ _ Hf) in Hstep. eauto using fire_gimmick_marks.
  - intros ds st g idx gm n Hidx Htr Hn Honce Hpos. split.
    + intros st' g' e t d Hput Hmod H. eauto using every_n_handled.
    + intros Hmod. unfold _handle_gimmicks, without.
      apply (gimmick_loop_without ds gm (fun s => turn_index s mod n <> 0) idx);
        [ | | done | exact Hidx | exact Hmod ].
      * intros s s' Hfr Hs. destruct (frame_turn _ _ Hfr) as [_ ->]. exact Hs.
      * intros s g0 Hs. eauto using every_n_idle.
  - intros ds st g res st' g'. apply enemy_action_handles.
  - intros ds st g st' g' idx gm n e t d Hai Hfree Hidx Htr Hn Honce Hpos Hput Hmod H.
    destruct (enemy_action_handles _ _ _ _ _ _ Hai Hfree H) as (st1 & g1 & Hh & _ & _ & Hg).
    eapply gained_more; [ eauto using every_n_handled | apply Hg; reflexivity ].
  - intros ds st g idx gm Hidx Honce Hused. unfold _handle_gimmicks, without.
    apply (gimmick_loop_without ds gm (fun s => gimmick_used s !! idx = Some true) idx);
      [ | | done | exact Hidx | exact Hused ].
    + intros s s' [_ _ Hm] Hs. by apply Hm.
    + intros s g0 Hs. by apply spent_idle.
Qed.

Lemma every_3_puts_buff : puts_effect every_3_gimmick "buff_stats" SideEnemy 2.
Proof.
  eexists. split; [ reflexivity | ]. repeat split. by left.
Qed.

Lemma gimmick_once_and_every_n_witness :
  gimmick_used (fst boss_after_once) !! 0%nat = Some true /\
  fires every_3_gimmick 1 boss_state /\
  _handle_gimmicks demo_ds boss_state demo_rng = Ok boss_handled /\
  turn_index boss_state mod 3 = 0 /\
  gained (effects_of boss_state SideEnemy) (effects_of (fst boss_handled) SideEnemy)
    "buff_stats" 2.
Proof.
  assert (H : _handle_gimmicks demo_ds boss_state demo_rng
              = Ok (fst boss_handled, snd boss_handled)) by reflexivity.
  assert (Hmod : turn_index boss_state mod 3 = 0) by reflexivity.
  split; [ | split; [ | split; [ exact H | split; [ exact Hmod | ] ] ] ].
  - exact (proj1 gimmick_once_and_every_n demo_ds 0%nat once_gimmick boss_state demo_rng
             (fst boss_after_once) (snd boss_after_once)
             eq_refl (conj eq_refl eq_refl) eq_refl).
  - exact (proj1 (proj1 (proj2 (proj2 (proj2 (proj2 (proj2 gimmick_once_and_every_n)))))
                    demo_ds 1%nat every_3_gimmick boss_state demo_rng 1
                    eq_refl eq_refl eq_refl eq_refl)).
  - pose proof (proj1 (proj2 (proj2 (proj2 (proj2 (proj2 (proj2 (proj2
                  gimmick_once_and_every_n)))))))) as H8.
    exact (proj1 (H8 demo_ds boss_state demo_rng 1%nat every_3_gimmick 3
                    eq_refl eq_refl eq_refl eq_refl eq_refl)
             (fst boss_handled) (snd boss_handled) "buff_stats" SideEnemy 2
             every_3_puts_buff Hmod H).
Defined.

(** ** The inventory as a bag *)

Lemma inv_positive_get0 (inv : gmap string Z) (k : string) :
  inv_positive inv -> 0 <= get0 inv k.
Proof.
  intros H. unfold get0. destruct (inv !! k) as [v|] eqn:Hk; simpl; [ | lia ].
  specialize (H k v Hk). lia.
Qed.

Lemma inv_positive_insert (inv : gmap string Z) (k : string) (v : Z) :
  0 < v -> inv_positive inv -> inv_positive (<[k := v]> inv).
Proof.
  intros Hv H k' v' Hk'. destruct (decide (k = k')) as [->|Hne].
  - rewrite lookup_insert_eq in Hk'. by injection Hk' as <-.
  - rewrite lookup_insert_ne in Hk' by done. eauto.
Qed.

Lemma inv_positive_delete (inv : gmap string Z) (k : string) :
  inv_positive inv -> inv_positive (delete k inv).
Proof.
  intros H k' v' Hk'. apply lookup_delete_Some in Hk' as [_ Hk']. eauto.
Qed.

Lemma add_item_positive (p : Player) (i : string) (q : Z) :
  inv_positive (inventory p) -> inv_positive (inventory (add_item_to_inventory p i q)).
Proof.
  intros H. unfold add_item_to_inventory. simpl.
  apply inv_positive_insert; [ | done ].
  pose proof (inv_positive_get0 _ i H). lia.
Qed.

Lemma remove_item_positive (p : Player) (i : string) (q : Z) :
  inv_positive (inventory p) ->
  inv_positive (inventory (snd (remove_item_from_inventory p i q))).
Proof.
  intros H. unfold remove_item_from_inventory.
  destruct (_ <? _); [ done | ].
  destruct (Z.leb_spec (get0 (inventory p) i - Z.max 1 q) 0); simpl.
  - by apply inv_positive_delete.
  - by apply inv_positive_insert.
Qed.

Lemma equip_item_positive (p : Player) (i : string) (ds : DataStore) :
  inv_positive (inventory p) -> inv_positive (inventory (snd (equip_item p i ds))).
Proof.
  intros H. unfold equip_item.
  destruct (get_item ds i) as [item|]; [ | done ].
  destruct (negb (bool_decide _)); [ done | ].
  destruct (negb (valid_slot _)); [ done | ].
  destruct (_ <=? _); [ done | ]. cbn [snd].
  apply remove_item_positive. cbn [inventory set_equipment].
  destruct (str_truthy _); [ by apply add_item_positive | done ].
Qed.

Lemma unequip_slot_positive (p : Player) (slot : string) (ds : DataStore) :
  inv_positive (inventory p) -> inv_positive (inventory (snd (unequip_slot p slot ds))).
Proof.
  intros H. unfold unequip_slot.
  destruct (negb (valid_slot _)); [ done | ].
  destruct (negb (str_truthy _)); [ done | ]. cbn [snd inventory set_equipment].
  by apply add_item_positive.
Qed.

(** ** What a battle does to the player's belongings *)

Lemma apply_consumable_static p item_id ds l g success msg p' l' g' :
  apply_consumable_in_battle p item_id ds l g = Ok (success, msg, p', l', g') ->
  player_static p' = player_static p /\ success = usable_in_battle ds item_id.
Proof.
  unfold apply_consumable_in_battle, usable_in_battle.
  destruct (get_item ds item_id) as [item|]; [ | by intros [= <- <- <- <- <-] ].
  destruct (bool_decide (it_type item = Some "consumable")); cbn [negb andb];
    [ | by intros [= <- <- <- <- <-] ].
  set (effect_type := match it_use_effect item with Some e => ue_type e | None => None end).
  assert (Hu : match it_use_effect item with
               | Some e =>
                   bool_decide (ue_type e = Some "heal")
                   || bool_decide (ue_type e = Some "cleanse")
                   || bool_decide (ue_type e = Some "buff_stats")
               | None => false
               end
               = bool_decide (effect_type = Some "heal")
                 || bool_decide (effect_type = Some "cleanse")
                 || bool_decide (effect_type = Some "buff_stats")).
  { unfold effect_type. by destruct (it_use_effect item). }
  rewrite Hu. clear Hu.
  destruct (decide (effect_type = Some "heal")) as [Hh|Hh].
  { rewrite (bool_decide_eq_true_2 _ Hh). intros H. inv_ok. split; reflexivity. }
  rewrite (bool_decide_eq_false_2 _ Hh).
  destruct (decide (effect_type = Some "cleanse")) as [Hc|Hc].
  { rewrite (bool_decide_eq_true_2 _ Hc). intros H. destruct (0 <? _); inv_ok; split; reflexivity. }
  rewrite (bool_decide_eq_false_2 _ Hc).
  destruct (decide (effect_type = Some "buff_stats")) as [Hb|Hb].
  { rewrite (bool_decide_eq_true_2 _ Hb). intros H. bind_step H. destruct a as [[c l1] g1].
    injection H as <- <- <- <- <-.
    pose proof (apply_effect_static _ _ _ _ _ _ _ _ E) as Hs.
    destruct c as [q|q]; simpl in Hs; [ | discriminate ].
    split; [ | reflexivity ].
    assert (Hq : player_static q = player_static p) by congruence.
    by destruct (total_stats q _). }
  rewrite (bool_decide_eq_false_2 _ Hb). by intros [= <- <- <- <- <-].
Qed.

Lemma player_static_inventory (p q : Player) :
  player_static q = player_static p -> inventory q = inventory p.
Proof. unfold player_static. congruence. Qed.

Lemma after_player_action_inventory ds st g res st' g' :
  _after_player_action ds st g = Ok (res, st', g') ->
  inventory (player st') = inventory (player st).
Proof.
  intros H. apply player_static_inventory.
  by destruct (after_player_action_carried _ _ _ _ _ _ H).
Qed.

Lemma get0_remove_one (p : Player) (k i : string) :
  0 < get0 (inventory p) k ->
  get0 (inventory (snd (remove_item_from_inventory p k 1))) i =
  get0 (inventory p) i - (if bool_decide (i = k) then 1 else 0).
Proof.
  intros Hk. rewrite get0_remove_item by lia.
  destruct (decide (k = i)) as [->|Hne].
  - by rewrite bool_decide_eq_true_2.
  - rewrite bool_decide_eq_false_2; [ done | congruence ].
Qed.

Lemma player_use_item_inventory ds item_id st g res st' g' :
  player_use_item ds item_id st g = Ok (res, st', g') ->
  forall k,
    get0 (inventory (player st')) k =
    get0 (inventory (player st)) k
    - (if consumes ds item_id st && bool_decide (k = item_id) then 1 else 0).
Proof.
  unfold player_use_item, consumes. intros H k.
  destruct (stunned st SidePlayer) eqn:Hst.
  - rewrite (can_act_side_stunned _ _ Hst) in H. cbn [negb andb] in *.
    rewrite (after_player_action_inventory _ _ _ _ _ _ H). simpl. lia.
  - rewrite (can_act_side_free _ _ Hst) in H. cbn [negb andb] in *.
    destruct (Z.leb_spec (get0 (inventory (player st)) item_id) 0) as [Hle|Hgt].
    + rewrite (after_player_action_inventory _ _ _ _ _ _ H).
      destruct (Z.ltb_spec 0 (get0 (inventory (player st)) item_id)); [ lia | ].
      simpl. lia.
    + destruct (Z.ltb_spec 0 (get0 (inventory (player st)) item_id)); [ | lia ].
      cbn [andb].
      bind_step H. destruct a as [[[[success msg] p] l] g1].
      destruct (apply_consumable_static _ _ _ _ _ _ _ _ _ _ E) as [Hp ->].
      apply player_static_inventory in Hp.
      rewrite (after_player_action_inventory _ _ _ _ _ _ H).
      destruct (usable_in_battle ds item_id); cbn [andb].
      * cbn [add_log set_logs set_player player inventory].
        rewrite get0_remove_one by (cbn [player]; rewrite Hp; lia).
        cbn [player]. by rewrite Hp.
      * cbn [add_log set_logs set_player player]. rewrite Hp. lia.
Qed.

(** X1. Using an item in battle costs one copy exactly when the player can
    act, holds the item, and the item is a consumable of the catalog with a
    heal, cleanse or buff effect; whether the effect changed anything does
    not matter. Otherwise the inventory is as before. *)
Theorem item_use_costs_one_copy ds item_id st g res st' g' :
  player_use_item ds item_id st g = Ok (res, st', g') ->
  forall k,
    get0 (inventory (player st')) k =
    get0 (inventory (player st)) k
    - (if consumes ds item_id st && bool_decide (k = item_id) then 1 else 0).
Proof. apply player_use_item_inventory. Qed.

Lemma item_use_costs_one_copy_witness :
  player_use_item demo_ds "potion" demo_with_potion demo_rng = Ok demo_potion_used /\
  get0 (inventory (player (snd (fst demo_potion_used)))) "potion" = 1.
Proof.
  assert (H : player_use_item demo_ds "potion" demo_with_potion demo_rng
              = Ok (fst (fst demo_potion_used), snd (fst demo_potion_used),
                    snd demo_potion_used)) by reflexivity.
  exact (conj H (item_use_costs_one_copy _ _ _ _ _ _ _ H "potion")).
Defined.

Lemma player_static_kept (p q : Player) :
  player_static q = player_static p -> player_kept q = player_kept p.
Proof. unfold player_static, player_kept. congruence. Qed.

Lemma player_use_skill_static ds skill_id st g res st' g' :
  player_use_skill ds skill_id st g = Ok (res, st', g') ->
  player_static (player st') = player_static (player st).
Proof.
  unfold player_use_skill. intros H.
  pose proof (frame_player_static _ _ (frame_can_act_side SidePlayer st)) as Hc.
  destruct (can_act_side SidePlayer st) as [ok st0]. simpl in Hc. rewrite <- Hc.
  destruct ok; simpl in H;
    [ | by destruct (after_player_action_carried _ _ _ _ _ _ H) ].
  bind_step H. destruct a as [[r st1] g1].
  rewrite <- (frame_player_static _ _ (frame_use_skill _ _ _ _ _ _ _ _ _ _ E)).
  destruct r; [ by inv_ok | ].
  destruct (is_dead _).
  - exact (frame_player_static _ _ (frame_finished _ _ _ _ _ _ _ H)).
  - by destruct (after_player_action_carried _ _ _ _ _ _ H).
Qed.

Lemma remove_item_kept (p : Player) (k : string) (q : Z) :
  player_kept (snd (remove_item_from_inventory p k q)) = player_kept p.
Proof.
  unfold remove_item_from_inventory.
  destruct (_ <? _); [ done | ]. by destruct (_ <=? _).
Qed.

Lemma player_use_item_kept ds item_id st g res st' g' :
  player_use_item ds item_id st g = Ok (res, st', g') ->
  player_kept (player st') = player_kept (player st).
Proof.
  unfold player_use_item. intros H.
  pose proof (frame_player_static _ _ (frame_can_act_side SidePlayer st)) as Hc.
  destruct (can_act_side SidePlayer st) as [ok st0]. simpl in Hc.
  apply player_static_kept in Hc. rewrite <- Hc.
  destruct ok; simpl in H;
    [ | apply player_static_kept; by destruct (after_player_action_carried _ _ _ _ _ _ H) ].
  destruct (_ <=? _).
  - apply player_static_kept. by destruct (after_player_action_carried _ _ _ _ _ _ H).
  - bind_step H. destruct a as [[[[success msg] p] l] g1].
    destruct (apply_consumable_static _ _ _ _ _ _ _ _ _ _ E) as [Hp _].
    apply player_static_kept in Hp. rewrite <- Hp.
    destruct (after_player_action_carried _ _ _ _ _ _ H) as [_ Hs].
    apply player_static_kept in Hs. rewrite Hs.
    destruct success; cbn [add_log set_logs set_player player]; [ | done ].
    apply remove_item_kept.
Qed.

(** X2. A battle changes neither the player's progression (level, exp, stat
    points, allocated points, base stats) nor the gear worn, nor anything
    of the enemy but hp and effects; no action adds an item to the
    inventory, and turns spent on skills leave the inventory as it is. *)
Theorem battle_leaves_progress_alone ds inputs : forall st g res st' g',
  run ds inputs st g = Ok (res, st', g') ->
  player_kept (player st') = player_kept (player st) /\
  enemy_static (enemy st') = enemy_static (enemy st) /\
  expected_exp st' = expected_exp st /\
  drop_table_id st' = drop_table_id st /\
  (forall k, get0 (inventory (player st')) k <= get0 (inventory (player st)) k) /\
  (forallb is_skill_input inputs = true -> inventory (player st') = inventory (player st)).
Proof.
  induction inputs as [|inp rest IH]; intros st g res st' g' H.
  - injection H as <- <- <-. repeat split; try done; try (intros k; lia).
  - pose proof (run_carried _ _ _ _ _ _ _ H) as [He Hx Hd _ _].
    cbn [run] in H. bind_step H. destruct a as [[r st1] g1].
    assert (Hturn : player_kept (player st1) = player_kept (player st) /\
                    (forall k, get0 (inventory (player st1)) k
                               <= get0 (inventory (player st)) k) /\
                    (is_skill_input inp = true ->
                     inventory (player st1) = inventory (player st))).
    { destruct inp as [skill_id|item_id]; cbn [player_turn] in E.
      - pose proof (player_use_skill_static _ _ _ _ _ _ _ E) as Hs.
        split; [ by apply player_static_kept | ].
        rewrite (player_static_inventory _ _ Hs). split; [ intros k; lia | done ].
      - split; [ eauto using player_use_item_kept | ]. split; [ | discriminate ].
        intros k. rewrite (player_use_item_inventory _ _ _ _ _ _ _ E k).
        destruct (_ && _); lia. }
    destruct Hturn as (Hk & Hinv & Hskill).
    destruct r as [r|].
    + injection H as <- <- <-. repeat split; try done.
      cbn [forallb]. intros [Hi _]%andb_prop. auto.
    + destruct (IH _ _ _ _ _ H) as (Hk' & _ & _ & _ & Hinv' & Hskill').
      repeat split; try done.
      * congruence.
      * intros k. specialize (Hinv k). specialize (Hinv' k). lia.
      * cbn [forallb]. intros [Hi Hr]%andb_prop. rewrite Hskill', Hskill; auto.
Qed.

Lemma battle_leaves_progress_alone_witness :
  run demo_ds [UseSkill "bash"; UseItem "potion"; UseItem "potion"] demo_state demo_rng
    = Ok bash_then_two /\
  player_kept (player (snd (fst bash_then_two))) = player_kept (player demo_state).
Proof.
  assert (H : run demo_ds [UseSkill "bash"; UseItem "potion"; UseItem "potion"]
                demo_state demo_rng
              = Ok (fst (fst bash_then_two), snd (fst bash_then_two), snd bash_then_two))
    by reflexivity.
  exact (conj H (proj1 (battle_leaves_progress_alone _ _ _ _ _ _ _ H))).
Defined.

(** ** The turn counter *)

Lemma turns_moved_frame (st st' : BattleState) : frame st st' -> turns_moved st st' 0.
Proof. intros F. destruct (frame_turn _ _ F). unfold turns_moved. lia. Qed.

Lemma turns_moved_trans (st1 st2 st3 : BattleState) (n m : Z) :
  turns_moved st1 st2 n -> turns_moved st2 st3 m -> turns_moved st1 st3 (n + m).
Proof. unfold turns_moved. lia. Qed.

Lemma after_player_action_turns ds st g res st' g' :
  _after_player_action ds st g = Ok (res, st', g') ->
  (turns_moved st st' 0 \/ turns_moved st st' 1) /\ (res = None -> turns_moved st st' 1).
Proof.
  unfold _after_player_action. intros H.
  bind_step H. destruct a as [[r st1] g1].
  pose proof (turns_moved_frame _ _ (frame_enemy_action _ _ _ _ _ _ E)) as H1.
  destruct r as [r|].
  - injection H as <- <- <-. split; [ by left | discriminate ].
  - bind_step H. destruct a as [[r st2] g2]. injection H as <- <- <-.
    pose proof (turns_moved_frame _ _ (frame_end_of_turn _ _ _ _ _ _ E0)) as H2.
    assert (turns_moved st (set_turns st2 (turn st2 + 1) (turn_index st2 + 1)) 1)
      by (unfold turns_moved in *; simpl; lia).
    split; [ by right | done ].
Qed.

Lemma player_turn_turns ds inp st g res st' g' :
  player_turn ds inp st g = Ok (res, st', g') ->
  (turns_moved st st' 0 \/ turns_moved st st' 1) /\ (res = None -> turns_moved st st' 1).
Proof.
  assert (Hpre : forall st0 : BattleState, turns_moved st st0 0 ->
            (turns_moved st0 st' 0 \/ turns_moved st0 st' 1) /\
            (res = None -> turns_moved st0 st' 1) ->
            (turns_moved st st' 0 \/ turns_moved st st' 1) /\
            (res = None -> turns_moved st st' 1)).
  { unfold turns_moved. intros st0 H0 [H1 H2]. split; [ lia | intros Hr; specialize (H2 Hr); lia ]. }
  destruct inp as [skill_id|item_id]; cbn [player_turn];
    [ unfold player_use_skill | unfold player_use_item ]; intros H;
    pose proof (turns_moved_frame _ _ (frame_can_act_side SidePlayer st)) as Hc;
    destruct (can_act_side SidePlayer st) as [ok st0]; simpl in Hc;
    apply (Hpre _ Hc); clear Hpre;
    (destruct ok; simpl in H; [ | eauto using after_player_action_turns ]).
  - bind_step H. destruct a as [[r st1] g1].
    pose proof (turns_moved_frame _ _ (frame_use_skill _ _ _ _ _ _ _ _ _ _ E)) as H1.
    destruct r as [r|].
    + injection H as <- <- <-. split; [ by left | discriminate ].
    + destruct (is_dead _).
      * pose proof (turns_moved_frame _ _ (frame_finished _ _ _ _ _ _ _ H)) as H2.
        bind_step H. destruct a as [[r st2] g2]. injection H as <- <- <-.
        split; [ left; unfold turns_moved in *; lia | discriminate ].
      * destruct (after_player_action_turns _ _ _ _ _ _ H) as [H2 H3].
        unfold turns_moved in *. split; [ lia | intros Hr; specialize (H3 Hr); lia ].
  - destruct (_ <=? _).
    + destruct (after_player_action_turns _ _ _ _ _ _ H) as [H2 H3].
      unfold turns_moved in *. simpl in *. split; [ lia | intros Hr; specialize (H3 Hr); lia ].
    + bind_step H. destruct a as [[[[success msg] p] l] g1].
      destruct (after_player_action_turns _ _ _ _ _ _ H) as [H2 H3].
      unfold turns_moved in *. destruct success; simpl in *;
        (split; [ lia | intros Hr; specialize (H3 Hr); lia ]).
Qed.

Lemma run_turns ds inputs : forall st g res st' g',
  run ds inputs st g = Ok (res, st', g') ->
  exists n, turns_moved st st' n /\ 0 <= n <= Z.of_nat (length inputs) /\
            (res = None -> n = Z.of_nat (length inputs)).
Proof.
  induction inputs as [|inp rest IH]; intros st g res st' g' H; cbn [run] in H.
  - injection H as <- <- <-. exists 0. unfold turns_moved. simpl. lia.
  - bind_step H. destruct a as [[r st1] g1].
    destruct (player_turn_turns _ _ _ _ _ _ _ E) as [H1 H2].
    destruct r as [r|].
    + injection H as <- <- <-. 
      destruct H1 as [H1|H1]; [ exists 0 | exists 1 ];
        (split; [ done | split; [ simpl length; lia | discriminate ] ]).
    + specialize (H2 eq_refl).
      destruct (IH _ _ _ _ _ H) as (n & Hn & Hb & Hnone).
      exists (1 + n). split; [ eauto using turns_moved_trans | ].
      simpl length. split; [ lia | ]. intros Hr. specialize (Hnone Hr). lia.
Qed.

(** X3. Every player input that does not end the battle, legal or not,
    advances [turn] and [turn_index] by one; an input that ends it advances
    both by one or leaves both. So the two counters stay equal from
    [start_battle] on, and after n inputs that left the battle open both
    read n + 1. *)
Theorem turn_counter_counts_inputs (ds : DataStore) :
  (forall inp st g res st' g',
     player_turn ds inp st g = Ok (res, st', g') ->
     (turns_moved st st' 0 \/ turns_moved st st' 1) /\
     (res = None -> turns_moved st st' 1)) /\
  (forall inputs p e expected table g res st' g',
     run ds inputs (start_battle p e expected table) g = Ok (res, st', g') ->
     turn st' = turn_index st' /\
     1 <= turn st' <= 1 + Z.of_nat (length inputs) /\
     (res = None -> turn st' = 1 + Z.of_nat (length inputs))).
Proof.
  split; [ exact (player_turn_turns ds) | ].
  intros inputs p e expected table g res st' g' H.
  destruct (run_turns _ _ _ _ _ _ _ H) as (n & [Ht Hi] & Hb & Hnone).
  simpl in Ht, Hi. split; [ lia | ]. split; [ lia | ].
  intros Hr. specialize (Hnone Hr). lia.
Qed.

Lemma turn_counter_counts_inputs_witness :
  run demo_ds [UseSkill "bash"; UseItem "potion"; UseItem "potion"]
    (start_battle demo_player demo_enemy 12 (Some "slime_drops")) demo_rng
    = Ok (None, snd (fst bash_then_two), snd bash_then_two) /\
  turn (snd (fst bash_then_two)) = 4.
Proof.
  assert (H : run demo_ds [UseSkill "bash"; UseItem "potion"; UseItem "potion"]
                (start_battle demo_player demo_enemy 12 (Some "slime_drops")) demo_rng
              = Ok (None, snd (fst bash_then_two), snd bash_then_two)) by reflexivity.
  exact (conj H (proj2 (proj2 (proj2 (turn_counter_counts_inputs demo_ds)
                                 _ _ _ _ _ _ _ _ _ H)) eq_refl)).
Defined.

(** ** The result of a battle *)

Lemma sound_result_None (st : BattleState) : sound_result None st.
Proof. intros r Hr. discriminate. Qed.

Lemma finish_sound ds st g w res st' g' :
  _finish ds st g w = Ok (res, st', g') ->
  (w = "player" /\ is_dead (e_actor (enemy st)) = true) \/ w = "enemy" ->
  sound_result (Some res) st'.
Proof.
  unfold _finish. intros H Hw r [= <-].
  destruct (String.eqb w "player" && str_truthy (drop_table_id st)); inv_ok; simpl;
    (split; [ reflexivity | ]);
    (destruct Hw as [[-> Hd]| ->]; [ left; split; [ reflexivity | exact Hd ] | by right ]).
Qed.

Lemma finished_sound ds st g w res st' g' :
  finished ds st g w = Ok (res, st', g') ->
  (w = "player" /\ is_dead (e_actor (enemy st)) = true) \/ w = "enemy" ->
  sound_result res st'.
Proof.
  unfold finished. intros H Hw. bind_step H. destruct a as [[r st1] g1].
  injection H as <- <- <-. eauto using finish_sound.
Qed.

Lemma use_skill_sound ds skill_id (is_player : bool) st g res st' g' :
  _use_skill ds (if is_player then SidePlayer else SideEnemy)
    (if is_player then SideEnemy else SidePlayer) skill_id is_player st g
    = Ok (res, st', g') ->
  sound_result res st'.
Proof.
  unfold _use_skill. intros H.
  destruct (lookup_skill ds skill_id) as [sd|];
    [ | injection H as <- <- <-; apply sound_result_None ].
  bind_step H. destruct a as [st1 g1].
  destruct (is_dead _) eqn:Hd; [ | injection H as <- <- <-; apply sound_result_None ].
  eapply finished_sound; [ exact H | ].
  destruct is_player; [ left; split; [ done | exact Hd ] | by right ].
Qed.

Lemma enemy_action_sound ds st g res st' g' :
  _enemy_action ds st g = Ok (res, st', g') -> sound_result res st'.
Proof.
  unfold _enemy_action. intros H.
  destruct (can_act_side SideEnemy st) as [ok st0].
  destruct ok; simpl in H; [ | injection H as <- <- <-; apply sound_result_None ].
  bind_step H. destruct a as [st1 g1].
  bind_step H. destruct a as [skill_choice g2].
  bind_step H. destruct a as [[r st2] g3].
  pose proof (use_skill_sound ds skill_choice false _ _ _ _ _ E1) as Hs.
  destruct r as [r|]; [ by injection H as <- <- <- | ].
  destruct (is_dead _); [ | injection H as <- <- <-; apply sound_result_None ].
  eapply finished_sound; [ exact H | by right ].
Qed.

Lemma end_of_turn_sound ds st g res st' g' :
  _end_of_turn ds st g = Ok (res, st', g') -> sound_result res st'.
Proof.
  unfold _end_of_turn. intros H. do 2 bind_step H.
  destruct (is_dead (p_actor _)); [ eapply finished_sound; [ exact H | by right ] | ].
  destruct (is_dead (e_actor _)) eqn:Hd; [ eapply finished_sound; [ exact H | by left ] | ].
  injection H as <- <- <-. apply sound_result_None.
Qed.

Lemma after_player_action_sound ds st g res st' g' :
  _after_player_action ds st g = Ok (res, st', g') -> sound_result res st'.
Proof.
  unfold _after_player_action. intros H.
  bind_step H. destruct a as [[r st1] g1].
  pose proof (enemy_action_sound _ _ _ _ _ _ E) as H1.
  destruct r as [r|]; [ by injection H as <- <- <- | ].
  bind_step H. destruct a as [[r st2] g2]. injection H as <- <- <-.
  exact (end_of_turn_sound _ _ _ _ _ _ E0).
Qed.

Lemma player_turn_sound ds inp st g res st' g' :
  player_turn ds inp st g = Ok (res, st', g') -> sound_result res st'.
Proof.
  destruct inp as [skill_id|item_id]; cbn [player_turn];
    [ unfold player_use_skill | unfold player_use_item ]; intros H;
    destruct (can_act_side SidePlayer st) as [ok st0];
    (destruct ok; simpl in H; [ | eauto using after_player_action_sound ]).
  - bind_step H. destruct a as [[r st1] g1].
    pose proof (use_skill_sound ds skill_id true _ _ _ _ _ E) as Hs.
    destruct r as [r|]; [ by injection H as <- <- <- | ].
    destruct (is_dead _) eqn:Hd; [ | eauto using after_player_action_sound ].
    eapply finished_sound; [ exact H | by left ].
  - destruct (_ <=? _); [ eauto using after_player_action_sound | ].
    bind_step H. destruct a as [[[[success msg] p] l] g1].
    eauto using after_player_action_sound.
Qed.

(** X4. The battle log only grows; and when the engine returns a result,
    its [logs] are the whole log of the battle, its winner is "player" or
    "enemy", and a win of the player is declared over an enemy at 0 hp. *)
Theorem battle_result_is_sound ds inputs : forall st g res st' g',
  run ds inputs st g = Ok (res, st', g') ->
  logs st `prefix_of` logs st' /\ sound_result res st'.
Proof.
  intros st g res st' g' H. split; [ by destruct (run_carried _ _ _ _ _ _ _ H) | ].
  revert st g H.
  induction inputs as [|inp rest IH]; intros st g H; cbn [run] in H.
  - injection H as <- <- <-. apply sound_result_None.
  - bind_step H. destruct a as [[r st1] g1].
    pose proof (player_turn_sound _ _ _ _ _ _ _ E) as H1.
    destruct r as [r|]; [ by injection H as <- <- <- | eauto ].
Qed.

Lemma battle_result_is_sound_witness :
  run demo_ds [UseSkill "__basic__"] last_hit_state demo_rng = Ok last_hit_run /\
  logs last_hit_state `prefix_of` logs (snd (fst last_hit_run)) /\
  sound_result (fst (fst last_hit_run)) (snd (fst last_hit_run)).
Proof.
  assert (H : run demo_ds [UseSkill "__basic__"] last_hit_state demo_rng
              = Ok (fst (fst last_hit_run), snd (fst last_hit_run), snd last_hit_run))
    by reflexivity.
  exact (conj H (battle_result_is_sound _ _ _ _ _ _ _ H)).
Defined.

Lemma remove_item_inventory (p q : Player) (k : string) (n : Z) :
  inventory p = inventory q ->
  inventory (snd (remove_item_from_inventory p k n))
  = inventory (snd (remove_item_from_inventory q k n)).
Proof.
  intros H. unfold remove_item_from_inventory. rewrite H.
  destruct (_ <? _); [ done | ]. by destruct (_ <=? _).
Qed.

Lemma player_turn_positive ds inp st g res st' g' :
  player_turn ds inp st g = Ok (res, st', g') ->
  inv_positive (inventory (player st)) -> inv_positive (inventory (player st')).
Proof.
  destruct inp as [skill_id|item_id]; cbn [player_turn]; intros H Hpos.
  - by rewrite (player_static_inventory _ _ (player_use_skill_static _ _ _ _ _ _ _ H)).
  - unfold player_use_item in H.
    pose proof (frame_player_static _ _ (frame_can_act_side SidePlayer st)) as Hc.
    destruct (can_act_side SidePlayer st) as [ok st0]. simpl in Hc.
    apply player_static_inventory in Hc.
    destruct ok; simpl in H;
      [ | by rewrite (after_player_action_inventory _ _ _ _ _ _ H), Hc ].
    destruct (_ <=? _);
      [ by rewrite (after_player_action_inventory _ _ _ _ _ _ H); simpl; rewrite Hc | ].
    bind_step H. destruct a as [[[[success msg] p] l] g1].
    destruct (apply_consumable_static _ _ _ _ _ _ _ _ _ _ E) as [Hp _].
    apply player_static_inventory in Hp.
    rewrite (after_player_action_inventory _ _ _ _ _ _ H).
    destruct success; cbn [add_log set_logs set_player player].
    + apply remove_item_positive. cbn [player]. by rewrite Hp, Hc.
    + by rewrite Hp, Hc.
Qed.

(** X5. The inventory never holds an entry with a count of zero or less:
    adding, removing, equipping and unequipping keep it so, and so does every
    turn of a battle. *)
Theorem inventory_counts_stay_positive :
  (forall p i q,
     inv_positive (inventory p) -> inv_positive (inventory (add_item_to_inventory p i q))) /\
  (forall p i q,
     inv_positive (inventory p) ->
     inv_positive (inventory (snd (remove_item_from_inventory p i q)))) /\
  (forall p i ds,
     inv_positive (inventory p) -> inv_positive (inventory (snd (equip_item p i ds)))) /\
  (forall p slot ds,
     inv_positive (inventory p) -> inv_positive (inventory (snd (unequip_slot p slot ds)))) /\
  (forall ds inputs st g res st' g',
     run ds inputs st g = Ok (res, st', g') ->
     inv_positive (inventory (player st)) -> inv_positive (inventory (player st'))).
Proof.
  split; [ exact add_item_positive | ].
  split; [ exact remove_item_positive | ].
  split; [ exact equip_item_positive | ].
  split; [ exact unequip_slot_positive | ].
  intros ds inputs. induction inputs as [|inp rest IH]; intros st g res st' g' H Hpos;
    cbn [run] in H.
  - by injection H as <- <- <-.
  - bind_step H. destruct a as [[r st1] g1].
    pose proof (player_turn_positive _ _ _ _ _ _ _ E Hpos) as H1.
    destruct r as [r|]; [ by injection H as <- <- <- | eauto ].
Qed.

Lemma demo_inventory_positive : inv_positive (inventory demo_player).
Proof.
  intros k v Hk. change (inventory demo_player) with ({[ "blade" := 1 ]} : gmap string Z) in Hk.
  apply lookup_singleton_Some in Hk as [_ <-]. lia.
Qed.

Lemma inventory_counts_stay_positive_witness :
  inv_positive (inventory demo_player) /\
  inv_positive (inventory (snd (equip_item demo_player "blade" demo_ds))).
Proof.
  exact (conj demo_inventory_positive
           (proj1 (proj2 (proj2 inventory_counts_stay_positive))
              demo_player "blade" demo_ds demo_inventory_positive)).
Defined.

Lemma set_inventory_id (p : Player) : set_inventory p (inventory p) = p.
Proof. by destruct p. Qed.

Lemma set_inventory_twice (p : Player) (a b : gmap string Z) :
  set_inventory (set_inventory p a) b = set_inventory p b.
Proof. done. Qed.

(** X6. Removing what was just added gives the player back as it was: for
    any quantity, also one below 1 (which both functions read as 1), when
    the inventory holds no entry of zero or less. And a removal of more than
    is held fails and changes nothing. *)
Theorem add_then_remove_is_identity (p : Player) (i : string) (q : Z) :
  (inv_positive (inventory p) ->
   remove_item_from_inventory (add_item_to_inventory p i q) i q = (true, p)) /\
  (get0 (inventory p) i < Z.max 1 q ->
   remove_item_from_inventory p i q = (false, p)).
Proof.
  split.
  - intros Hpos. unfold remove_item_from_inventory, add_item_to_inventory.
    cbn [inventory set_inventory]. rewrite get0_insert. rewrite decide_True by done.
    pose proof (inv_positive_get0 _ i Hpos) as H0.
    destruct (Z.ltb_spec (get0 (inventory p) i + Z.max 1 q) (Z.max 1 q)); [ lia | ].
    replace (get0 (inventory p) i + Z.max 1 q - Z.max 1 q) with (get0 (inventory p) i) by lia.
    rewrite !set_inventory_twice.
    unfold get0 in *. destruct (inventory p !! i) as [v|] eqn:Hi; simpl in *.
    + specialize (Hpos i v Hi).
      destruct (Z.leb_spec v 0); [ lia | ].
      rewrite insert_insert_eq, insert_id by done. by rewrite set_inventory_id.
    + simpl. rewrite delete_insert_eq, delete_id by done. by rewrite set_inventory_id.
  - intros Hlt. unfold remove_item_from_inventory.
    by destruct (Z.ltb_spec (get0 (inventory p) i) (Z.max 1 q)); [ | lia ].
Qed.

Lemma add_then_remove_is_identity_witness :
  inv_positive (inventory demo_player) /\
  remove_item_from_inventory (add_item_to_inventory demo_player "jelly" 0) "jelly" 0
  = (true, demo_player).
Proof.
  exact (conj demo_inventory_positive
           (proj1 (add_then_remove_is_identity demo_player "jelly" 0)
              demo_inventory_positive)).
Defined.

(** ** Gear on and off *)

(** X7. After an item was equipped, unequipping its slot succeeds, empties
    the slot and puts the item back: over the two steps the inventory has
    gained just the item that was worn before, if there was one. *)
Theorem equip_then_unequip (p : Player) (item_id : string) (ds : DataStore)
    (msg : message) (p1 : Player) :
  item_id <> "" ->
  equip_item p item_id ds = (true, msg, p1) ->
  exists item slot p2,
    get_item ds item_id = Some item /\ it_slot item = Some slot /\
    unequip_slot p1 slot ds = (true, MsgUnequipped (default item_id (it_name item)), p2) /\
    equipped p2 slot = None /\
    forall k, get0 (inventory p2) k = get0 (inventory p) k + holds (equipped p slot) k.
Proof.
  intros Hid H.
  destruct (equip_item_success _ _ _ _ _ H)
    as (item & slot & Hitem & _ & Hslot & Hvalid & _ & Heq & Hinv).
  exists item, slot.
  unfold unequip_slot. rewrite Hvalid, Heq, (str_truthy_Some _ Hid). cbn [negb].
  change (default "" (Some item_id)) with item_id. rewrite Hitem. eexists. split; [ done | ]. split; [ done | ]. split; [ reflexivity | ].
  split.
  - unfold equipped. cbn [equipment set_equipment]. by rewrite od_get_set.
  - intros k. cbn [inventory set_equipment]. rewrite get0_add_item, Hinv.
    destruct (decide (item_id = k)); lia.
Qed.

Lemma equip_then_unequip_witness :
  "blade" <> "" /\
  equip_item demo_player "blade" demo_ds = (true, MsgEquipped "Blade", demo_equipped) /\
  exists item slot p2,
    get_item demo_ds "blade" = Some item /\ it_slot item = Some slot /\
    unequip_slot demo_equipped slot demo_ds
      = (true, MsgUnequipped (default "blade" (it_name item)), p2) /\
    equipped p2 slot = None /\
    forall k, get0 (inventory p2) k
              = get0 (inventory demo_player) k + holds (equipped demo_player slot) k.
Proof.
  assert (H1 : "blade" <> "") by discriminate.
  assert (H2 : equip_item demo_player "blade" demo_ds
               = (true, MsgEquipped "Blade", demo_equipped)) by (vm_compute; reflexivity).
  exact (conj H1 (conj H2 (equip_then_unequip _ _ _ _ _ H1 H2))).
Defined.

(** ** The end-of-turn tick *)

Lemma py_max0_nonneg (d : pynum) : py_le (PInt 0) (py_max (PInt 0) d) = true.
Proof.
  unfold py_max, py_gt, py_le.
  destruct d as [z|f]; simpl.
  - by destruct z.
  - destruct (float_compare_int f 0) as [[]|] eqn:Hc; simpl; try done.
    by rewrite Hc.
Qed.

Lemma tick_loop_hp tname effs : forall h l rem h' l' rem',
  tick_loop tname effs h l rem = Ok (h', l', rem') ->
  (existsb (fun e => String.eqb (kind e) "bleed") effs = false -> h' = h) /\
  (py_le (PInt 0) h = true -> py_le (PInt 0) h' = true).
Proof.
  induction effs as [|e effs IH]; simpl; intros h l rem h' l' rem' H.
  - by inv_ok.
  - bind_step H. destruct a as [h1 l1].
    assert (H1 : (String.eqb (kind e) "bleed" = false -> h1 = h) /\
                 (py_le (PInt 0) h = true -> py_le (PInt 0) h1 = true)).
    { destruct (String.eqb (kind e) "bleed"); inv_ok.
      - split; [ discriminate | intros _; apply py_max0_nonneg ].
      - done. }
    destruct H1 as [Hsame Hpos].
    assert (H2 : (existsb (fun e => String.eqb (kind e) "bleed") effs = false -> h' = h1) /\
                 (py_le (PInt 0) h1 = true -> py_le (PInt 0) h' = true))
      by (destruct (0 <? _); eauto).
    destruct H2 as [Hsame' Hpos']. split; [ | auto ].
    intros [Hb Hr]%orb_false_elim. rewrite Hsame', Hsame; auto.
Qed.

Lemma ticked_durations (effs : list EffectInstance) :
  Forall (fun e => 0 < duration e) (ticked effs).
Proof.
  unfold ticked.
  induction (map (fun e => set_duration e (duration e - 1)) effs) as [|e l IH]; simpl;
    [ constructor | ].
  destruct (Z.ltb_spec 0 (duration e)); [ by constructor | done ].
Qed.

(** X8. The end-of-turn tick of an actor keeps exactly the effects that had
    more than one turn left, in their order and each one turn shorter, so no
    effect with a duration of zero or less is left behind. Without a bleed
    among the effects the hp is untouched, and a bleed never takes an hp
    that was at least 0 below 0. Name, stats and skills are not touched and
    the log only grows. *)
Theorem tick_keeps_running_effects (a : Actor) (l : list log_line)
    (a' : Actor) (l' : list log_line) :
  tick_end_of_turn a l = Ok (a', l') ->
  effects a' =
    List.filter (fun e => 0 <? duration e)
      (map (fun e => set_duration e (duration e - 1)) (effects a)) /\
  Forall (fun e => 0 < duration e) (effects a') /\
  (existsb (fun e => String.eqb (kind e) "bleed") (effects a) = false -> hp a' = hp a) /\
  (py_le (PInt 0) (hp a) = true -> py_le (PInt 0) (hp a') = true) /\
  actor_static a' = actor_static a /\
  l `prefix_of` l'.
Proof.
  intros H. pose proof (tick_end_of_turn_effects _ _ _ _ H) as He.
  split; [ exact He | ]. split; [ rewrite He; apply ticked_durations | ].
  unfold tick_end_of_turn in H. bind_step H. destruct a0 as [[h l1] rem].
  injection H as <- <-. cbn [hp set_effects set_hp].
  destruct (tick_loop_hp _ _ _ _ _ _ _ _ E) as [Hsame Hpos].
  repeat split; eauto using tick_loop_logs.
Qed.

Lemma tick_keeps_running_effects_witness :
  tick_end_of_turn bleeding_slime []
    = Ok (set_effects (set_hp bleeding_slime (PInt 0)) [mkEffect "stun" 1 f0_0 ∅ None],
          [LogBleedTick "slime" f5_0 (PInt 3) (PInt 0); LogEffectEnd "slime" "bleed"]) /\
  effects (set_effects (set_hp bleeding_slime (PInt 0)) [mkEffect "stun" 1 f0_0 ∅ None])
    = [mkEffect "stun" 1 f0_0 ∅ None].
Proof.
  assert (H : tick_end_of_turn bleeding_slime []
              = Ok (set_effects (set_hp bleeding_slime (PInt 0))
                      [mkEffect "stun" 1 f0_0 ∅ None],
                    [LogBleedTick "slime" f5_0 (PInt 3) (PInt 0);
                     LogEffectEnd "slime" "bleed"])) by (vm_compute; reflexivity).
  exact (conj H (proj1 (tick_keeps_running_effects _ _ _ _ H))).
Defined.

(** ** Applying an effect *)

Lemma with_actor_id (c : combatant) : with_actor c (actor_of c) = c.
Proof. by destruct c as [[]|[]]. Qed.

Lemma actor_of_with_actor (c : combatant) (a : Actor) : actor_of (with_actor c a) = a.
Proof. by destruct c. Qed.

Lemma apply_effect_shape target spec l g items c l' g' :
  apply_effect target spec l g items = Ok (c, l', g') ->
  (exists k, effects (actor_of c) = effects (actor_of target) ++ k /\ (length k <= 1)%nat) /\
  (str_or (es_type spec) (es_effect spec) <> Some "heal" ->
   hp (actor_of c) = hp (actor_of target)) /\
  g' = (if gated spec then snd (Rng.random g) else g) /\
  (l' = l ++ [LogEffectFailed] -> c = target).
Proof.
  unfold apply_effect, gated. intros H.
  assert (Hnil : exists k : list EffectInstance,
            effects (actor_of target) = effects (actor_of target) ++ k /\ (length k <= 1)%nat)
    by (exists []; rewrite app_nil_r; simpl; split; [ done | lia ]).
  assert (Hone : forall inst : EffectInstance, exists k : list EffectInstance,
            effects (actor_of (append_effect target inst))
            = effects (actor_of target) ++ k /\ (length k <= 1)%nat).
  { intros inst. exists [inst]. unfold append_effect. by rewrite actor_of_with_actor. }
  assert (Hhp : forall inst : EffectInstance,
            hp (actor_of (append_effect target inst)) = hp (actor_of target)).
  { intros inst. unfold append_effect. by rewrite actor_of_with_actor. }
  assert (Hdiff : forall x : log_line, x <> LogEffectFailed ->
            l ++ [x] = l ++ [LogEffectFailed] -> False).
  { intros x Hx Heq. apply app_inv_head in Heq. congruence. }
  bind_step H. bind_step H.
  assert (Hg : (if SFltb a f1_0
                then let '(hit, g'0) := roll_chance a g in (negb hit, g'0)
                else (false, g)).2
               = if SFltb a f1_0 then snd (Rng.random g) else g).
  { destruct (SFltb a f1_0); [ | done ]. unfold roll_chance. by destruct (Rng.random g). }
  destruct (if SFltb a f1_0 then _ else _) as [failed g1]. simpl in Hg. subst g1.
  destruct failed; [ injection H as <- <- <-; by repeat split | ].
  case_decide.
  { repeat bind_step H. injection H as <- <- <-.
    rewrite actor_of_with_actor. cbn [effects set_hp hp].
    repeat split; try done;
      try (intros Heq; exfalso; (eapply Hdiff; [ | exact Heq ]); discriminate). }
  case_decide.
  { injection H as <- <- <-. repeat split; try done;
      try (intros Heq; exfalso; rewrite <- (app_nil_r l) in Heq at 1;
           apply app_inv_head in Heq; discriminate). }
  repeat (case_decide;
          [ injection H as <- <- <-; repeat split; auto;
            try (intros Heq; exfalso; (eapply Hdiff; [ | exact Heq ]); discriminate) | ]).
  injection H as <- <- <-. repeat split; auto;
    try (intros Heq; exfalso; (eapply Hdiff; [ | exact Heq ]); discriminate).
Qed.

Lemma apply_effect_roll target spec l g items c l' g' :
  apply_effect target spec l g items = Ok (c, l', g') ->
  (roll_fails spec g = true -> c = target /\ l' = l ++ [LogEffectFailed]) /\
  (roll_fails spec g = false -> l' <> l ++ [LogEffectFailed]).
Proof.
  unfold apply_effect, roll_fails. intros H.
  assert (Hdiff : forall x : log_line, x <> LogEffectFailed -> l ++ [x] <> l ++ [LogEffectFailed]).
  { intros x Hx Heq. apply app_inv_head in Heq. congruence. }
  assert (Hnil : l <> l ++ [LogEffectFailed]).
  { intros Heq. rewrite <- (app_nil_r l) in Heq at 1. apply app_inv_head in Heq. discriminate. }
  bind_step H. bind_step H.
  destruct (SFltb a f1_0); cbn [andb].
  - destruct (roll_chance a g) as [hit g1]. cbn [fst negb] in *.
    destruct hit; cbn [negb] in *.
    + split; [ discriminate | ]. intros _.
      case_decide; [ repeat bind_step H; injection H as <- <- <-; by apply Hdiff | ].
      case_decide; [ by injection H as <- <- <- | ].
      repeat (case_decide; [ injection H as <- <- <-; by apply Hdiff | ]).
      injection H as <- <- <-. by apply Hdiff.
    + injection H as <- <- <-. split; [ done | discriminate ].
  - split; [ discriminate | ]. intros _.
    case_decide; [ repeat bind_step H; injection H as <- <- <-; by apply Hdiff | ].
    case_decide; [ by injection H as <- <- <- | ].
    repeat (case_decide; [ injection H as <- <- <-; by apply Hdiff | ]).
    injection H as <- <- <-. by apply Hdiff.
Qed.

(** X9. Whatever the spec, [apply_effect] leaves the effects already on the
    target as they are and adds at most one at the end; it touches the hp
    only for a heal, and nothing else of the target. It draws from the
    generator exactly when the chance of the spec is below 1.0, once; a
    chance that is absent or at least 1.0 costs no draw. A roll that fails
    is logged and leaves the target as it was, and only a failed roll logs
    that line. *)
Theorem apply_effect_only_adds target spec l g items c l' g' :
  apply_effect target spec l g items = Ok (c, l', g') ->
  combatant_static c = combatant_static target /\
  (exists k, effects (actor_of c) = effects (actor_of target) ++ k /\ (length k <= 1)%nat) /\
  (str_or (es_type spec) (es_effect spec) <> Some "heal" ->
   hp (actor_of c) = hp (actor_of target)) /\
  g' = (if gated spec then snd (Rng.random g) else g) /\
  (l' = l ++ [LogEffectFailed] -> c = target) /\
  l `prefix_of` l' /\
  (roll_fails spec g = true -> c = target /\ l' = l ++ [LogEffectFailed]) /\
  (roll_fails spec g = false -> l' <> l ++ [LogEffectFailed]).
Proof.
  intros H.
  destruct (apply_effect_shape _ _ _ _ _ _ _ _ H) as (Hk & Hhp & Hg & Hfail).
  destruct (apply_effect_roll _ _ _ _ _ _ _ _ H) as [Hr1 Hr2].
  eauto 10 using apply_effect_static, apply_effect_logs.
Qed.

Lemma apply_effect_only_adds_witness :
  apply_effect (CEnemy demo_enemy) stun_2_spec [] demo_rng None
    = Ok (append_effect (CEnemy demo_enemy) (mkEffect "stun" 2 f0_0 ∅ None),
          [LogStun "slime" 2], demo_rng) /\
  demo_rng = (if gated stun_2_spec then snd (Rng.random demo_rng) else demo_rng) /\
  apply_effect (CEnemy demo_enemy) low_chance_spec [] sure_miss_rng None = Ok demo_failed_roll /\
  roll_fails low_chance_spec sure_miss_rng = true /\
  fst (fst demo_failed_roll) = CEnemy demo_enemy /\
  snd (fst demo_failed_roll) = [] ++ [LogEffectFailed].
Proof.
  assert (H : apply_effect (CEnemy demo_enemy) stun_2_spec [] demo_rng None
              = Ok (append_effect (CEnemy demo_enemy) (mkEffect "stun" 2 f0_0 ∅ None),
                    [LogStun "slime" 2], demo_rng)) by (vm_compute; reflexivity).
  assert (H2 : apply_effect (CEnemy demo_enemy) low_chance_spec [] sure_miss_rng None
               = Ok (fst (fst demo_failed_roll), snd (fst demo_failed_roll),
                     snd demo_failed_roll)) by (vm_compute; reflexivity).
  assert (H3 : roll_fails low_chance_spec sure_miss_rng = true) by (vm_compute; reflexivity).
  split; [ exact H | ].
  split; [ exact (proj1 (proj2 (proj2 (proj2 (apply_effect_only_adds _ _ _ _ _ _ _ _ H))))) | ].
  split; [ exact H2 | ]. split; [ exact H3 | ].
  exact (proj1 (proj2 (proj2 (proj2 (proj2 (proj2 (proj2
           (apply_effect_only_adds _ _ _ _ _ _ _ _ H2))))))) H3).
Defined.

(** ** Rolls *)

Lemma unit_draw_cases (r chance : spec_float) :
  unit_draw r ->
  (SFleb f1_0 chance = true -> SFleb r chance = true) /\
  (SFltb chance f0_0 = true -> SFleb r chance = false) /\
  (chance = S754_nan -> SFleb r chance = false).
Proof.
  intros [->|(m & e & -> & Hd & He)].
  - split; [ | split ].
    + destruct chance as [s|s| |s m2 e2]; simpl; try done; by destruct s.
    + destruct chance as [s|s| |s m2 e2]; simpl; try done; by destruct s.
    + by intros ->.
  - split; [ | split ].
    + destruct chance as [s|s| |s m2 e2]; try done.
      destruct s; [ done | ]. unfold SFleb, f1_0. cbn [SFcompare].
      destruct (Z.compare_spec (-52) e2) as [Heq|Hlt|Hgt]; try done;
        intros _; destruct (Z.compare_spec e e2); first [ lia | done ].
    + destruct chance as [s|s| |s m2 e2]; try done; destruct s; done.
    + by intros ->.
Qed.

(** X10. [roll_chance] draws once from the generator. It succeeds for every
    chance of 1.0 or more and fails for every chance below zero and for nan,
    whatever the draw. *)
Theorem roll_chance_certainties (chance : spec_float) (g : Rng.rng) :
  snd (roll_chance chance g) = snd (Rng.random g) /\
  Rng.cursor (snd (roll_chance chance g)) = S (Rng.cursor g) /\
  (SFleb f1_0 chance = true -> fst (roll_chance chance g) = true) /\
  (SFltb chance f0_0 = true -> fst (roll_chance chance g) = false) /\
  (chance = S754_nan -> fst (roll_chance chance g) = false).
Proof.
  pose proof (unit_draw_cases (fst (Rng.random g)) chance (random_unit_draw g))
    as (H1 & H2 & H3).
  unfold roll_chance. 
  assert (Hc : Rng.cursor (snd (Rng.random g)) = S (Rng.cursor g)) by reflexivity.
  destruct (Rng.random g) as [r g1]. simpl in *. auto.
Qed.

Lemma roll_chance_certainties_witness :
  SFleb f1_0 f1_0 = true /\ fst (roll_chance f1_0 demo_rng) = true.
Proof.
  exact (conj eq_refl
           (proj1 (proj2 (proj2 (roll_chance_certainties f1_0 demo_rng))) eq_refl)).
Defined.

(** ** Experience as a total *)

Lemma level_steps_totals (s s' : Z * Z * Z) :
  level_steps s s' ->
  let '(lv, ex, sp) := s in
  let '(lv', ex', sp') := s' in
  exp_total lv' ex' = exp_total lv ex /\ sp' = sp + 4 * (lv' - lv) /\ lv <= lv' /\
  (lv < lv' -> 0 <= ex').
Proof.
  induction 1 as [[[lv ex] sp]|lv ex sp [[lv' ex'] sp'] Hge _ IH].
  - unfold exp_total. lia.
  - simpl in IH. destruct IH as (Ht & Hsp & Hle & Hex).
    unfold exp_total, exp_to_next in *. repeat split; try lia. nia.
Qed.

Lemma level_up_loop_log_lines (lv ex sp : Z) (logs : list log_line) :
  let '(lv', _, _, logs') := level_up_loop lv ex sp logs in
  Z.of_nat (length logs') = Z.of_nat (length logs) + (lv' - lv).
Proof.
  funelim (level_up_loop lv ex sp logs).
  - destruct (level_up_loop _ _ _ _) as [[[lv' ex'] sp'] logs'].
    rewrite length_app in H. simpl in H. lia.
  - lia.
Qed.

(** X11. [gain_exp] loses no exp: the exp held plus the thresholds of all the
    levels climbed is what it was before, plus the amount. Each level
    climbed grants four stat points and one log line after the first; the
    level never falls, whatever the amount, and once a level was climbed the
    exp left is not negative. With more exp the player ends at a level at
    least as high. *)
Theorem gain_exp_bookkeeping :
  (forall p amount,
     let p' := fst (gain_exp p amount) in
     exp_total (level p') (exp p') = exp_total (level p) (exp p) + amount /\
     stat_points p' = stat_points p + 4 * (level p' - level p) /\
     level p <= level p' /\
     (level p < level p' -> 0 <= exp p') /\
     Z.of_nat (length (snd (gain_exp p amount))) = 1 + (level p' - level p)) /\
  (forall p a1 a2,
     -1 <= level p -> a1 <= a2 ->
     level (fst (gain_exp p a1)) <= level (fst (gain_exp p a2))).
Proof.
  assert (Hfirst : forall p amount,
     let p' := fst (gain_exp p amount) in
     exp_total (level p') (exp p') = exp_total (level p) (exp p) + amount /\
     stat_points p' = stat_points p + 4 * (level p' - level p) /\
     level p <= level p' /\
     (level p < level p' -> 0 <= exp p') /\
     exp p' < exp_to_next (level p') /\
     Z.of_nat (length (snd (gain_exp p amount))) = 1 + (level p' - level p)).
  { intros p amount. unfold gain_exp.
    pose proof (level_up_loop_spec (level p) (exp p + amount) (stat_points p) [LogExp amount])
      as Hspec.
    pose proof (level_up_loop_log_lines (level p) (exp p + amount) (stat_points p)
                  [LogExp amount]) as Hlog.
    destruct (level_up_loop _ _ _ _) as [[[lv' ex'] sp'] logs']. simpl in *.
    destruct Hspec as [Hsteps Hlt].
    pose proof (level_steps_totals _ _ Hsteps) as Ht. simpl in Ht.
    unfold exp_total in *. repeat split; lia. }
  split.
  - intros p amount. specialize (Hfirst p amount). simpl in *. tauto.
  - intros p a1 a2 Hl Ha.
    pose proof (Hfirst p a1) as (T1 & _ & L1 & E1 & B1 & _).
    pose proof (Hfirst p a2) as (T2 & _ & L2 & _ & B2 & _).
    simpl in *. unfold exp_total, exp_to_next in *.
    destruct (Z_le_gt_dec (level (fst (gain_exp p a1))) (level (fst (gain_exp p a2))))
      as [|Hgt]; [ done | exfalso ].
    specialize (E1 ltac:(lia)). nia.
Qed.

Lemma gain_exp_bookkeeping_witness :
  -1 <= level demo_player /\ 35 <= 100 /\
  level (fst (gain_exp demo_player 35)) <= level (fst (gain_exp demo_player 100)).
Proof.
  assert (H1 : -1 <= level demo_player) by (vm_compute; discriminate).
  assert (H2 : 35 <= 100) by lia.
  exact (conj H1 (conj H2 (proj2 gain_exp_bookkeeping demo_player 35 100 H1 H2))).
Defined.

(** ** The stats of an enemy *)

(** X12. The total stats of an enemy never fail and ignore the item catalog:
    each stat is the base stat plus the deltas of the [buff_stats] and
    [debuff_stats] effects with turns left, both kinds added as they are
    written. Effects of other kinds and effects without turns left count
    for nothing. *)
Theorem enemy_total_stats (e : Enemy) (items : option (gmap string item_def)) :
  get_total_stats (CEnemy e) items =
    Ok (mkStats (attack (stats (e_actor e)) + effect_delta (e_actor e) "attack")
          (magic (stats (e_actor e)) + effect_delta (e_actor e) "magic")
          (defense (stats (e_actor e)) + effect_delta (e_actor e) "defense")
          (magic_resist (stats (e_actor e)) + effect_delta (e_actor e) "magic_resist")
          (max_hp (stats (e_actor e)) + effect_delta (e_actor e) "max_hp")) /\
  get_total_stats
    (CEnemy (set_e_actor e
               (set_effects (e_actor e) (List.filter effect_counts (effects (e_actor e))))))
    items
  = get_total_stats (CEnemy e) items.
Proof.
  assert (H : forall a : Actor, actor_total_stats a =
            mkStats (attack (stats a) + effect_delta a "attack")
              (magic (stats a) + effect_delta a "magic")
              (defense (stats a) + effect_delta a "defense")
              (magic_resist (stats a) + effect_delta a "magic_resist")
              (max_hp (stats a) + effect_delta a "max_hp")).
  { intros a. unfold actor_total_stats, with_bonus, effect_delta.
    by rewrite !get0_effect_bonus. }
  split; [ simpl; by rewrite H | ].
  simpl. rewrite !H. unfold effect_delta. cbn [effects set_effects stats].
  assert (Hf : List.filter effect_counts (List.filter effect_counts (effects (e_actor e)))
               = List.filter effect_counts (effects (e_actor e))).
  { induction (effects (e_actor e)) as [|x l IH]; simpl; [ done | ].
    destruct (effect_counts x) eqn:Hx; simpl; [ rewrite Hx; by f_equal | done ]. }
  by rewrite Hf.
Qed.

(** ** Dungeon progress *)

Lemma capped_insert (m : gmap string Z) (z : string) (v : Z) :
  v <= 5 ->
  (forall k w, m !! k = Some w -> w <= 5) ->
  forall k w, <[z := v]> m !! k = Some w -> w <= 5.
Proof.
  intros Hv H k w Hk. destruct (decide (z = k)) as [->|Hne].
  - rewrite lookup_insert_eq in Hk. injection Hk as <-. lia.
  - rewrite lookup_insert_ne in Hk by done. eauto.
Qed.

Lemma clear_stage_capped py_int py_str dp zone stage dp' exn :
  Dungeon.clear_stage py_int py_str dp zone stage = (dp', exn) ->
  capped dp -> capped dp'.
Proof.
  unfold Dungeon.clear_stage, capped. cbv zeta. intros H Hcap.
  set (stages := if default 1 (Dungeon.unlocked_stage_by_zone dp !! zone) <=? stage
                 then <[zone := Z.min 5 (stage + 1)]> (Dungeon.unlocked_stage_by_zone dp)
                 else Dungeon.unlocked_stage_by_zone dp) in *.
  assert (Hs : forall k w, stages !! k = Some w -> w <= 5).
  { subst stages.
    destruct (default 1 (Dungeon.unlocked_stage_by_zone dp !! zone) <=? stage); [ apply capped_insert; [ lia | done ] | done ]. }
  destruct (5 <=? stage); [ | by injection H as <- <- ].
  destruct (py_int zone) as [z|e]; [ | by injection H as <- <- ].
  destruct (py_str (z + 1)) as [next|e]; [ | by injection H as <- <- ].
  destruct (bool_decide _); [ by injection H as <- <- | ].
  destruct (py_int next) as [n|e]; [ | by injection H as <- <- ].
  destruct (n <=? 10); injection H as <- <-; [ | done ].
  simpl. apply capped_insert; [ lia | done ].
Qed.

Lemma clear_stage_zones py_int py_str dp zone stage dp' exn :
  Dungeon.clear_stage py_int py_str dp zone stage = (dp', exn) ->
  (Dungeon.unlocked_zones dp' = Dungeon.unlocked_zones dp /\
   forall k, k ∈ Dungeon.unlocked_zones dp ->
     Dungeon.unlocked_stage_by_zone dp' !! k =
     if bool_decide (k = zone) && (default 1 (Dungeon.unlocked_stage_by_zone dp !! zone) <=? stage)
     then Some (Z.min 5 (stage + 1))
     else Dungeon.unlocked_stage_by_zone dp !! k) \/
  (exists z next n,
     5 <= stage /\ py_int zone = Ok z /\ py_str (z + 1) = Ok next /\
     (next ∉ Dungeon.unlocked_zones dp) /\ py_int next = Ok n /\ n <= 10 /\ exn = None /\
     Dungeon.unlocked_zones dp' = Dungeon.unlocked_zones dp ++ [next] /\
     Dungeon.unlocked_stage_by_zone dp' !! next = Some 1 /\
     forall k, k ∈ Dungeon.unlocked_zones dp ->
       Dungeon.unlocked_stage_by_zone dp' !! k =
       if bool_decide (k = zone)
          && (default 1 (Dungeon.unlocked_stage_by_zone dp !! zone) <=? stage)
       then Some (Z.min 5 (stage + 1))
       else Dungeon.unlocked_stage_by_zone dp !! k).
Proof.
  unfold Dungeon.clear_stage. cbv zeta. intros H.
  set (stages := if default 1 (Dungeon.unlocked_stage_by_zone dp !! zone) <=? stage
                 then <[zone := Z.min 5 (stage + 1)]> (Dungeon.unlocked_stage_by_zone dp)
                 else Dungeon.unlocked_stage_by_zone dp) in *.
  assert (Hs : forall k, stages !! k =
            if bool_decide (k = zone)
               && (default 1 (Dungeon.unlocked_stage_by_zone dp !! zone) <=? stage)
            then Some (Z.min 5 (stage + 1))
            else Dungeon.unlocked_stage_by_zone dp !! k).
  { intros k. subst stages.
    destruct (default 1 (Dungeon.unlocked_stage_by_zone dp !! zone) <=? stage).
    - destruct (decide (k = zone)) as [->|Hne].
      + by rewrite lookup_insert_eq, bool_decide_eq_true_2.
      + rewrite lookup_insert_ne by done. by rewrite bool_decide_eq_false_2.
    - by rewrite andb_false_r. }
  destruct (Z.leb_spec 5 stage) as [H5|H5]; [ | injection H as <- <-; left; eauto ].
  destruct (py_int zone) as [z|e] eqn:Hz; [ | injection H as <- <-; left; eauto ].
  destruct (py_str (z + 1)) as [next|e] eqn:Hnext; [ | injection H as <- <-; left; eauto ].
  destruct (decide (next ∈ Dungeon.unlocked_zones dp)) as [Hin|Hout].
  { rewrite bool_decide_eq_true_2 in H by done. injection H as <- <-. left. eauto. }
  rewrite bool_decide_eq_false_2 in H by done.
  destruct (py_int next) as [n|e] eqn:Hn; [ | injection H as <- <-; left; eauto ].
  destruct (Z.leb_spec n 10); injection H as <- <-; [ | left; eauto ].
  right. exists z, next, n. simpl. repeat split; try done.
  - by rewrite lookup_insert_eq.
  - intros k Hk. rewrite lookup_insert_ne; [ apply Hs | ]. intros ->. contradiction.
Qed.

Lemma clear_stage_kept_zones py_int py_str dp zone stage dp' exn :
  Dungeon.clear_stage py_int py_str dp zone stage = (dp', exn) ->
  (forall k, k ∈ Dungeon.unlocked_zones dp -> k ∈ Dungeon.unlocked_zones dp') /\
  (forall k, k ∈ Dungeon.unlocked_zones dp ->
     Dungeon.unlocked_stage_by_zone dp' !! k =
     if bool_decide (k = zone)
        && (default 1 (Dungeon.unlocked_stage_by_zone dp !! zone) <=? stage)
     then Some (Z.min 5 (stage + 1))
     else Dungeon.unlocked_stage_by_zone dp !! k).
Proof.
  intros H.
  destruct (clear_stage_zones _ _ _ _ _ _ _ H)
    as [[Hz Hs]|(z & next & n & _ & _ & _ & _ & _ & _ & _ & Hz & _ & Hs)].
  - split; [ intros k; by rewrite Hz | done ].
  - split; [ intros k Hk; rewrite Hz; apply elem_of_app; by left | done ].
Qed.

(** X13. Clearing a stage never locks anything again: every stage that was
    unlocked stays unlocked, as long as no zone had a stage beyond the fifth
    unlocked, which [clear_stage] keeps so. In an unlocked zone the stage
    after the one cleared (stages count from 1), the fifth at most, is
    unlocked afterwards, also when the call raises while it works out the
    next zone. *)
Theorem cleared_stages_stay_unlocked py_int py_str dp zone stage dp' exn :
  Dungeon.clear_stage py_int py_str dp zone stage = (dp', exn) ->
  (capped dp -> capped dp') /\
  (zone ∈ Dungeon.unlocked_zones dp -> 1 <= stage ->
   forall s, s <= Z.min 5 (stage + 1) -> Dungeon.is_stage_unlocked dp' zone s = true) /\
  (capped dp ->
   forall z s, Dungeon.is_stage_unlocked dp z s = true ->
               Dungeon.is_stage_unlocked dp' z s = true).
Proof.
  intros H. destruct (clear_stage_kept_zones _ _ _ _ _ _ _ H) as [Hin Hs].
  split; [ eauto using clear_stage_capped | ]. split.
  - intros Hz H1 s Hle. unfold Dungeon.is_stage_unlocked.
    rewrite bool_decide_eq_true_2 by auto. rewrite (Hs _ Hz).
    rewrite bool_decide_eq_true_2 by done. cbn [andb].
    destruct (Z.leb_spec (default 1 (Dungeon.unlocked_stage_by_zone dp !! zone)) stage);
      simpl; apply Z.leb_le; [ lia | ].
    destruct (Dungeon.unlocked_stage_by_zone dp !! zone); simpl in *; lia.
  - intros Hcap z s. unfold Dungeon.is_stage_unlocked.
    destruct (decide (z ∈ Dungeon.unlocked_zones dp)) as [Hz|Hz];
      [ | by rewrite (bool_decide_eq_false_2 _ Hz) ].
    rewrite !bool_decide_eq_true_2 by auto. rewrite (Hs _ Hz).
    destruct (decide (z = zone)) as [->|Hne].
    + rewrite bool_decide_eq_true_2 by done. cbn [andb].
      destruct (Z.leb_spec (default 1 (Dungeon.unlocked_stage_by_zone dp !! zone)) stage);
        [ | done ].
      intros Hle%Z.leb_le. apply Z.leb_le.
      destruct (Dungeon.unlocked_stage_by_zone dp !! zone) as [v|] eqn:Hv; simpl in *.
      * specialize (Hcap _ _ Hv). lia.
      * lia.
    + by rewrite bool_decide_eq_false_2.
Qed.

Lemma initial_capped : capped Dungeon.initial.
Proof.
  intros z v Hz. simpl in Hz. apply lookup_singleton_Some in Hz as [_ <-]. lia.
Qed.

Lemma cleared_stages_stay_unlocked_witness :
  Dungeon.clear_stage dec_int dec_str Dungeon.initial "1" 3 = cleared_1_3 /\
  "1" ∈ Dungeon.unlocked_zones Dungeon.initial /\
  1 <= 3 /\ 4 <= Z.min 5 (3 + 1) /\
  Dungeon.is_stage_unlocked (fst cleared_1_3) "1" 4 = true.
Proof.
  assert (H : Dungeon.clear_stage dec_int dec_str Dungeon.initial "1" 3
              = (fst cleared_1_3, snd cleared_1_3)) by reflexivity.
  assert (H1 : "1" ∈ Dungeon.unlocked_zones Dungeon.initial) by (simpl; set_solver).
  assert (H2 : 4 <= Z.min 5 (3 + 1)) by lia.
  assert (H3 : 1 <= 3) by lia.
  exact (conj H (conj H1 (conj H3 (conj H2
           (proj1 (proj2 (cleared_stages_stay_unlocked _ _ _ _ _ _ _ H)) H1 H3 4 H2))))).
Defined.

(** X14. [clear_stage] opens a zone only when the fifth stage (or a later
    one) is cleared, and then only the zone whose number follows, at its
    first stage, if it is not open yet and its number is 10 at most: the
    list of open zones grows by that one zone at its end or stays as it is,
    and a zone that is already open keeps its stage, but for the stage of
    the zone that was cleared. A zone id that [int] refuses makes a clear of
    the fifth stage raise, after the stage was recorded. *)
Theorem next_zone_opens_after_fifth_stage py_int py_str dp zone stage dp' exn :
  Dungeon.clear_stage py_int py_str dp zone stage = (dp', exn) ->
  (stage < 5 -> Dungeon.unlocked_zones dp' = Dungeon.unlocked_zones dp /\ exn = None) /\
  (forall z next n,
     5 <= stage -> py_int zone = Ok z -> py_str (z + 1) = Ok next ->
     next ∉ Dungeon.unlocked_zones dp -> py_int next = Ok n -> n <= 10 ->
     Dungeon.unlocked_zones dp' = Dungeon.unlocked_zones dp ++ [next] /\
     Dungeon.is_stage_unlocked dp' next 1 = true /\ exn = None) /\
  (Dungeon.unlocked_zones dp' = Dungeon.unlocked_zones dp \/
   exists z next n,
     5 <= stage /\ py_int zone = Ok z /\ py_str (z + 1) = Ok next /\
     (next ∉ Dungeon.unlocked_zones dp) /\ py_int next = Ok n /\ n <= 10 /\
     Dungeon.unlocked_zones dp' = Dungeon.unlocked_zones dp ++ [next]) /\
  (forall e,
     5 <= stage -> py_int zone = Raise e ->
     exn = Some e /\ Dungeon.unlocked_zones dp' = Dungeon.unlocked_zones dp /\
     (default 1 (Dungeon.unlocked_stage_by_zone dp !! zone) <= stage ->
      Dungeon.unlocked_stage_by_zone dp' !! zone = Some (Z.min 5 (stage + 1)))) /\
  (forall k,
     k ∈ Dungeon.unlocked_zones dp ->
     (k <> zone ->
      Dungeon.unlocked_stage_by_zone dp' !! k = Dungeon.unlocked_stage_by_zone dp !! k) /\
     (k = zone ->
      Dungeon.unlocked_stage_by_zone dp' !! k =
      if default 1 (Dungeon.unlocked_stage_by_zone dp !! zone) <=? stage
      then Some (Z.min 5 (stage + 1))
      else Dungeon.unlocked_stage_by_zone dp !! zone)) /\
  (forall z next n,
     5 <= stage -> py_int zone = Ok z -> py_str (z + 1) = Ok next ->
     next ∉ Dungeon.unlocked_zones dp -> py_int next = Ok n -> n <= 10 ->
     Dungeon.unlocked_stage_by_zone dp' !! next = Some 1 /\
     forall s, Dungeon.is_stage_unlocked dp' next s = true <-> s <= 1) /\
  (forall k,
     k ∉ Dungeon.unlocked_zones dp -> k ∈ Dungeon.unlocked_zones dp' ->
     Dungeon.unlocked_stage_by_zone dp' !! k = Some 1).
Proof.
  intros H.
  assert (Hopen : forall z next n,
     5 <= stage -> py_int zone = Ok z -> py_str (z + 1) = Ok next ->
     next ∉ Dungeon.unlocked_zones dp -> py_int next = Ok n -> n <= 10 ->
     Dungeon.unlocked_zones dp' = Dungeon.unlocked_zones dp ++ [next] /\
     Dungeon.unlocked_stage_by_zone dp' !! next = Some 1 /\ exn = None).
  { intros z next n H5 Hz Hnext Hout Hn Hle. unfold Dungeon.clear_stage in H.
    destruct (Z.leb_spec 5 stage); [ | lia ].
    rewrite Hz, Hnext, Hn in H. rewrite bool_decide_eq_false_2 in H by done.
    destruct (Z.leb_spec n 10); [ | lia ]. injection H as <- <-.
    cbn [Dungeon.unlocked_zones Dungeon.unlocked_stage_by_zone].
    by rewrite lookup_insert_eq. }
  assert (Hin : forall next, Dungeon.unlocked_zones dp' = Dungeon.unlocked_zones dp ++ [next] ->
                             next ∈ Dungeon.unlocked_zones dp').
  { intros next ->. apply elem_of_app. right. by apply list_elem_of_singleton. }
  repeat apply conj.
  - intros Hlt. unfold Dungeon.clear_stage in H.
    destruct (Z.leb_spec 5 stage); [ lia | ]. by injection H as <- <-.
  - intros z next n H5 Hz Hnext Hout Hn Hle.
    destruct (Hopen z next n H5 Hz Hnext Hout Hn Hle) as (Hzs & Hst & Hexn).
    split; [ done | ]. split; [ | done ].
    unfold Dungeon.is_stage_unlocked.
    rewrite bool_decide_eq_true_2 by auto. by rewrite Hst.
  - destruct (clear_stage_zones _ _ _ _ _ _ _ H)
      as [[Hz _]|(z & next & n & ? & ? & ? & ? & ? & ? & _ & Hz & _)].
    + by left.
    + right. exists z, next, n. auto 10.
  - intros e H5 He. unfold Dungeon.clear_stage in H.
    destruct (Z.leb_spec 5 stage); [ | lia ]. rewrite He in H. injection H as <- <-.
    cbn [Dungeon.unlocked_zones Dungeon.unlocked_stage_by_zone].
    split; [ done | ]. split; [ done | ]. intros Hcur.
    destruct (Z.leb_spec (default 1 (Dungeon.unlocked_stage_by_zone dp !! zone)) stage);
      [ | lia ].
    by rewrite lookup_insert_eq.
  - intros k Hk. destruct (clear_stage_kept_zones _ _ _ _ _ _ _ H) as [_ Hs].
    rewrite (Hs k Hk). split.
    + intros Hne. by rewrite bool_decide_eq_false_2.
    + intros ->. by rewrite bool_decide_eq_true_2.
  - intros z next n H5 Hz Hnext Hout Hn Hle.
    destruct (Hopen z next n H5 Hz Hnext Hout Hn Hle) as (Hzs & Hst & Hexn).
    split; [ done | ]. intros s. unfold Dungeon.is_stage_unlocked.
    rewrite bool_decide_eq_true_2 by auto. rewrite Hst. cbn [default]. apply Z.leb_le.
  - intros k Hout Hk.
    destruct (clear_stage_zones _ _ _ _ _ _ _ H)
      as [[Hz _]|(z & next & n & _ & _ & _ & _ & _ & _ & _ & Hz & Hst & _)].
    + rewrite Hz in Hk. done.
    + rewrite Hz in Hk. apply elem_of_app in Hk as [Hk|Hk]; [ done | ].
      apply list_elem_of_singleton in Hk. by subst k.
Qed.

Lemma next_zone_opens_after_fifth_stage_witness :
  Dungeon.clear_stage dec_int dec_str Dungeon.initial "1" 5 = cleared_1_5 /\
  5 <= 5 /\ dec_int "1" = Ok 1 /\ dec_str (1 + 1) = Ok "2" /\
  ("2" ∉ Dungeon.unlocked_zones Dungeon.initial) /\ dec_int "2" = Ok 2 /\ 2 <= 10 /\
  (Dungeon.unlocked_zones (fst cleared_1_5) = ["1"; "2"] /\
   Dungeon.is_stage_unlocked (fst cleared_1_5) "2" 1 = true /\ snd cleared_1_5 = None) /\
  Dungeon.unlocked_stage_by_zone (fst cleared_1_5) !! "2" = Some 1.
Proof.
  assert (H : Dungeon.clear_stage dec_int dec_str Dungeon.initial "1" 5
              = (fst cleared_1_5, snd cleared_1_5)) by reflexivity.
  assert (H1 : 5 <= 5) by lia.
  assert (H2 : dec_int "1" = Ok 1) by reflexivity.
  assert (H3 : dec_str (1 + 1) = Ok "2") by reflexivity.
  assert (H4 : "2" ∉ Dungeon.unlocked_zones Dungeon.initial)
    by (simpl; intros Hin%list_elem_of_singleton; discriminate).
  assert (H5 : dec_int "2" = Ok 2) by reflexivity.
  assert (H6 : 2 <= 10) by lia.
  pose proof (next_zone_opens_after_fifth_stage _ _ _ _ _ _ _ H)
    as (_ & Hopen & _ & _ & _ & Hfirst & _).
  exact (conj H (conj H1 (conj H2 (conj H3 (conj H4 (conj H5 (conj H6
           (conj (Hopen 1 "2" 2 H1 H2 H3 H4 H5 H6)
                 (proj1 (Hfirst 1 "2" 2 H1 H2 H3 H4 H5 H6)))))))))).
Defined.

(** ** Skill lists after loading *)

Lemma sanitize_loop_spec ds label ids : forall acc printed,
  fst (Store.sanitize_loop ds label ids acc printed) = acc ++ known_skills ds ids.
Proof.
  induction ids as [|sid ids IH]; simpl; intros acc printed.
  - by rewrite app_nil_r.
  - destruct (bool_decide _); rewrite IH; [ by rewrite <- app_assoc | done ].
Qed.

Lemma sanitize_loop_quiet ds label ids : forall acc printed,
  Forall (fun sid => is_Some (ds_skills ds !! sid)) ids ->
  Store.sanitize_loop ds label ids acc printed = (acc ++ ids, printed).
Proof.
  induction ids as [|sid ids IH]; simpl; intros acc printed Hall.
  - by rewrite app_nil_r.
  - apply Forall_cons in Hall as [Hsid Hall].
    rewrite bool_decide_eq_true_2 by done. rewrite IH by done. by rewrite <- app_assoc.
Qed.

Lemma known_skills_known ds ids :
  Forall (fun sid => is_Some (ds_skills ds !! sid)) (known_skills ds ids).
Proof.
  unfold known_skills. induction ids as [|sid ids IH]; simpl; [ constructor | ].
  destruct (bool_decide _) eqn:Hs; [ | done ].
  constructor; [ by apply bool_decide_eq_true in Hs | done ].
Qed.

Lemma sanitize_result ds ids label :
  fst (Store._sanitize_actor_skills ds ids label) =
  match known_skills ds ids with
  | [] => ["__basic__"]
  | l => l
  end.
Proof.
  unfold Store._sanitize_actor_skills.
  pose proof (sanitize_loop_spec ds label ids [] []) as H.
  destruct (Store.sanitize_loop ds label ids [] []) as [sanitized printed].
  simpl in H. subst sanitized. by destruct (known_skills ds ids).
Qed.

Lemma lookup_skill_known ds sid :
  is_Some (ds_skills ds !! sid) \/ sid = "__basic__" -> is_Some (lookup_skill ds sid).
Proof.
  unfold lookup_skill. intros [[sd ->]| ->]; [ done | ].
  by destruct (ds_skills ds !! "__basic__").
Qed.

Lemma choice_total {A : Type} (pool : list A) (g : Rng.rng) :
  pool <> [] -> exists x g', Rng.choice pool g = Ok (x, g') /\ x ∈ pool.
Proof.
  intros Hne. unfold Rng.choice, Rng.randbelow. destruct (Rng.next g) as [k g'].
  assert (Hlen : 0 < Z.of_nat (length pool)) by (destruct pool; [ done | simpl; lia ]).
  pose proof (Z.mod_pos_bound (Z.of_N k) (Z.of_nat (length pool)) Hlen) as Hb.
  destruct (pool !! Z.to_nat (Z.of_N k mod Z.of_nat (length pool))) as [x|] eqn:Hx.
  - exists x, g'. split; [ done | ]. by eapply list_elem_of_lookup_2.
  - apply lookup_ge_None in Hx. lia.
Qed.

(** X15. The skill list [_sanitize_actor_skills] returns is never empty: it
    is the list given without the ids the catalog does not know, in the same
    order, or the basic attack alone when none is left. Every id in it is a
    skill the engine resolves, so a skill drawn from it with
    [random.choice] is never unknown. Once the catalog holds the basic
    attack, which [_ensure_basic_skill] sees to with the very skill the
    engine falls back on, sanitizing a sanitized list changes nothing and
    prints nothing. *)
Theorem sanitized_skills_resolve (ds : DataStore) (ids : list string) (label : string) :
  let r := fst (Store._sanitize_actor_skills ds ids label) in
  r <> [] /\
  (r = known_skills ds ids \/ known_skills ds ids = [] /\ r = ["__basic__"]) /\
  (forall sid, sid ∈ r -> is_Some (lookup_skill ds sid)) /\
  (forall g, exists sid g', Rng.choice r g = Ok (sid, g') /\ is_Some (lookup_skill ds sid)) /\
  (is_Some (ds_skills ds !! "__basic__") ->
   Store._sanitize_actor_skills ds r label = (r, [])) /\
  ds_skills (Store._ensure_basic_skill ds) !! "__basic__" = Some basic_skill.
Proof.
  cbv zeta. rewrite sanitize_result.
  assert (Hknown : forall sid,
            sid ∈ match known_skills ds ids with [] => ["__basic__"] | l => l end ->
            is_Some (ds_skills ds !! sid) \/ sid = "__basic__").
  { intros sid Hin. pose proof (known_skills_known ds ids) as Hall.
    destruct (known_skills ds ids) as [|x l].
    - right. by apply list_elem_of_singleton in Hin.
    - left. rewrite Forall_forall in Hall. by apply Hall. }
  assert (Hne : match known_skills ds ids with [] => ["__basic__"] | l => l end <> [])
    by (by destruct (known_skills ds ids)).
  split; [ exact Hne | ].
  split; [ destruct (known_skills ds ids); [ by right | by left ] | ].
  split; [ intros sid Hin; by apply lookup_skill_known, Hknown | ].
  split.
  - intros g. destruct (choice_total _ g Hne) as (sid & g' & Hc & Hin).
    exists sid, g'. split; [ done | ]. by apply lookup_skill_known, Hknown.
  - split; [ | unfold Store._ensure_basic_skill; simpl; by rewrite lookup_insert_eq ].
    intros Hbasic. unfold Store._sanitize_actor_skills.
    rewrite sanitize_loop_quiet.
    + simpl. by destruct (known_skills ds ids).
    + apply Forall_forall. intros sid Hin.
      destruct (Hknown sid Hin) as [Hs|Hs]; [ done | by subst sid ].
Qed.

Lemma sanitized_skills_resolve_witness :
  is_Some (ds_skills (Store._ensure_basic_skill demo_ds) !! "__basic__") /\
  Store._sanitize_actor_skills (Store._ensure_basic_skill demo_ds)
    (fst (Store._sanitize_actor_skills (Store._ensure_basic_skill demo_ds)
            ["bash"; "fireball"] "monster 'slime'"))
    "monster 'slime'"
  = (fst (Store._sanitize_actor_skills (Store._ensure_basic_skill demo_ds)
            ["bash"; "fireball"] "monster 'slime'"), []).
Proof.
  assert (H : is_Some (ds_skills (Store._ensure_basic_skill demo_ds) !! "__basic__"))
    by (eexists; simpl; apply lookup_insert_eq).
  exact (conj H
           (proj1 (proj2 (proj2 (proj2 (proj2
              (sanitized_skills_resolve (Store._ensure_basic_skill demo_ds)
                 ["bash"; "fireball"] "monster 'slime'"))))) H)).
Defined.

(** ** Boss ids *)

Lemma prefix_spec (a b : string) :
  String.prefix a b = true <-> exists post, b = String.append a post.
Proof.
  revert b. induction a as [|c a IH]; intros b; destruct b as [|d b]; simpl.
  - split; [ intros _; by exists EmptyString | done ].
  - split; [ intros _; by exists (String d b) | done ].
  - split; [ done | intros [post Hp]; discriminate ].
  - destruct (Ascii.ascii_dec c d) as [->|Hne].
    + rewrite IH. split; intros [post Hp]; exists post; simpl in *.
      * by rewrite Hp.
      * by injection Hp.
    + split; [ done | ]. intros [post Hp]. injection Hp as Hcd _. by subst.
Qed.

Lemma str_in_spec (zid key : string) : Store.str_in zid key = true <-> occurs_in zid key.
Proof.
  unfold occurs_in. induction key as [|c key IH]; cbn [Store.str_in].
  - rewrite orb_false_r, prefix_spec. split.
    + intros [post Hp]. by exists EmptyString, post.
    + intros (pre & post & Hp). destruct pre; [ by exists post | discriminate ].
  - rewrite orb_true_iff, prefix_spec, IH. split.
    + intros [[post Hp]|(pre & post & Hp)].
      * by exists EmptyString, post.
      * exists (String c pre), post. simpl. by rewrite Hp.
    + intros (pre & post & Hp). destruct pre as [|d pre]; simpl in Hp.
      * left. by exists post.
      * right. exists pre, post. by injection Hp.
Qed.

Lemma first_with_spec (zid : string) (keys : list string) :
  match Store.first_with zid keys with
  | Some key =>
      exists before after, keys = before ++ key :: after /\
        occurs_in zid key /\ Forall (fun k => ~ occurs_in zid k) before
  | None => Forall (fun k => ~ occurs_in zid k) keys
  end.
Proof.
  induction keys as [|k keys IH]; simpl; [ constructor | ].
  destruct (Store.str_in zid k) eqn:Hk.
  - exists [], keys. split; [ done | ]. split; [ by apply str_in_spec | constructor ].
  - assert (Hn : ~ occurs_in zid k).
    { intros Ho%str_in_spec. congruence. }
    destruct (Store.first_with zid keys) as [key|].
    + destruct IH as (before & after & -> & Ho & Hb).
      exists (k :: before), after. split; [ done | ]. split; [ done | by constructor ].
    + by constructor.
Qed.

(** X16. [get_dungeon_boss_id] answers with a key of the boss table in which
    the zone text occurs, and with nothing only when it occurs in no key:
    the key "zone<zid>_boss" if the table has it, else the first key, in the
    order of the table, in which the text occurs anywhere. *)
Theorem dungeon_boss_id_contains_zone (keys : list string) (zid : string) :
  let candidate := String.append "zone" (String.append zid "_boss") in
  (candidate ∈ keys -> Store.get_dungeon_boss_id keys zid = Some candidate) /\
  (forall key, Store.get_dungeon_boss_id keys zid = Some key ->
     key ∈ keys /\ occurs_in zid key /\
     (key = candidate \/
      exists before after, keys = before ++ key :: after /\
        Forall (fun k => ~ occurs_in zid k) before)) /\
  (Store.get_dungeon_boss_id keys zid = None <->
   Forall (fun k => ~ occurs_in zid k) keys).
Proof.
  cbv zeta. unfold Store.get_dungeon_boss_id.
  set (candidate := String.append "zone" (String.append zid "_boss")).
  assert (Hc : occurs_in zid candidate) by (by exists "zone", "_boss").
  pose proof (first_with_spec zid keys) as Hf.
  destruct (decide (candidate ∈ keys)) as [Hin|Hout].
  - rewrite bool_decide_eq_true_2 by done.
    split; [ done | ]. split.
    + intros key [= <-]. auto.
    + split; [ done | ]. intros Hall. rewrite Forall_forall in Hall.
      exfalso. by apply (Hall candidate).
  - rewrite bool_decide_eq_false_2 by done.
    split; [ done | ]. split.
    + intros key Hkey. rewrite Hkey in Hf.
      destruct Hf as (before & after & Hk & Ho & Hb).
      split; [ rewrite Hk; apply elem_of_app; right; by left | ].
      split; [ done | right; eauto ].
    + destruct (Store.first_with zid keys) as [key|]; [ | done ].
      destruct Hf as (before & after & -> & Ho & Hb).
      split; [ done | ]. intros Hall. apply Forall_app in Hall as [_ Hall].
      apply Forall_cons in Hall as [Hn _]. contradiction.
Qed.

(** Zone 1 of a table that only knows the boss of zone 10. *)
Lemma dungeon_boss_of_another_zone :
  Store.get_dungeon_boss_id ["zone10_boss"] "1" = Some "zone10_boss".
Proof. reflexivity. Qed.

Lemma dungeon_boss_id_contains_zone_witness :
  "zone2_boss" ∈ ["zone1_boss"; "zone2_boss"] /\
  Store.get_dungeon_boss_id ["zone1_boss"; "zone2_boss"] "2" = Some "zone2_boss".
Proof.
  assert (H : "zone2_boss" ∈ ["zone1_boss"; "zone2_boss"]) by set_solver.
  exact (conj H (proj1 (dungeon_boss_id_contains_zone ["zone1_boss"; "zone2_boss"] "2") H)).
Defined.

(** ** Old inventories *)

Lemma migrate_fold (l : list string) : forall (m : gmap string Z) (k : string),
  get0 (fold_left (fun migrated item_id => <[item_id := get0 migrated item_id + 1]> migrated)
          l m) k
  = get0 m k + occurrences k l.
Proof.
  induction l as [|x l IH]; simpl; intros m k; [ lia | ].
  rewrite IH, get0_insert.
  destruct (String.eqb_spec x k) as [->|Hne].
  - rewrite decide_True by done. lia.
  - rewrite decide_False by done. lia.
Qed.

Lemma occurrences_nonneg (k : string) (l : list string) : 0 <= occurrences k l.
Proof. induction l as [|x l IH]; simpl; [ lia | ]. destruct (String.eqb x k); lia. Qed.

Lemma migrate_fold_positive (l : list string) : forall m : gmap string Z,
  inv_positive m ->
  inv_positive
    (fold_left (fun migrated item_id => <[item_id := get0 migrated item_id + 1]> migrated) l m).
Proof.
  induction l as [|x l IH]; simpl; intros m Hm; [ done | ].
  apply IH. apply inv_positive_insert; [ | done ].
  pose proof (inv_positive_get0 _ x Hm). lia.
Qed.

Lemma migrate_fold_dom (l : list string) : forall (m : gmap string Z) (k : string),
  is_Some (fold_left (fun migrated item_id => <[item_id := get0 migrated item_id + 1]> migrated)
             l m !! k)
  <-> is_Some (m !! k) \/ k ∈ l.
Proof.
  induction l as [|x l IH]; simpl; intros m k.
  - split; [ by left | intros [H|H]; [ done | by apply elem_of_nil in H ] ].
  - rewrite IH, lookup_insert_is_Some, elem_of_cons.
    split.
    + intros [[H|[_ H]]|H]; [ right; left; by symmetry | by left | right; by right ].
    + intros [H|[H|H]]; [ | left; left; by symmetry | by right ].
      destruct (decide (x = k)); [ left; by left | left; right; done ].
Qed.

Lemma map_sum_insert_fresh (m : gmap string Z) (k : string) (v : Z) :
  m !! k = None -> map_sum (<[k := v]> m) = map_sum m + v.
Proof.
  intros Hk. unfold map_sum. rewrite map_fold_insert_L; [ done | | done ].
  intros. lia.
Qed.

Lemma map_sum_insert (m : gmap string Z) (k : string) (v : Z) :
  map_sum (<[k := v]> m) = map_sum m - get0 m k + v.
Proof.
  unfold get0. destruct (m !! k) as [w|] eqn:Hk; simpl.
  - rewrite <- (insert_delete_eq m k v).
    rewrite <- (insert_delete_id m k w Hk) at 2.
    rewrite !map_sum_insert_fresh by apply lookup_delete_eq. lia.
  - rewrite map_sum_insert_fresh by done. lia.
Qed.

Lemma migrate_fold_sum (l : list string) : forall m : gmap string Z,
  map_sum (fold_left (fun migrated item_id => <[item_id := get0 migrated item_id + 1]> migrated)
             l m)
  = map_sum m + Z.of_nat (length l).
Proof.
  induction l as [|x l IH]; intros m; cbn [fold_left length]; [ lia | ].
  rewrite IH, map_sum_insert. lia.
Qed.

(** X17. The list of item ids an old save holds as inventory becomes a dict
    of counts: each id is held as often as it is in the list, nothing else
    is held, no count is zero, and the counts add up to the length of the
    list. [_ensure_inventory_dict] stores the dict on the object it was
    given, so a second call finds a dict and returns the same. *)
Theorem legacy_inventory_becomes_counts (l : list string) :
  (forall k, get0 (Loading.migrate l) k = occurrences k l) /\
  (forall k, is_Some (Loading.migrate l !! k) <-> k ∈ l) /\
  inv_positive (Loading.migrate l) /\
  map_sum (Loading.migrate l) = Z.of_nat (length l) /\
  (forall a id lv ex nx sp eq al bs,
     inventory (Loading.new_player a id lv ex nx sp (Loading.RawList l) eq al bs)
     = Loading.migrate l) /\
  (forall inv d after,
     Loading._ensure_inventory_dict (Loading.OwnerObject inv) = (d, after) ->
     after = Some (Loading.RawDict d) /\
     Loading._ensure_inventory_dict (Loading.OwnerObject (Loading.RawDict d)) = (d, after)).
Proof.
  unfold Loading.migrate.
  split; [ intros k; rewrite migrate_fold; by rewrite get0_empty | ].
  split.
  { intros k. rewrite migrate_fold_dom, lookup_empty. split; [ | by right ].
    intros [[x Hx]|H]; [ discriminate | done ]. }
  split; [ apply migrate_fold_positive; intros k v Hk; by rewrite lookup_empty in Hk | ].
  split; [ rewrite migrate_fold_sum; unfold map_sum; by rewrite map_fold_empty | ].
  split; [ done | ].
  intros inv d after H. destruct inv; injection H as <- <-; done.
Qed.

Lemma legacy_inventory_becomes_counts_witness :
  Loading._ensure_inventory_dict (Loading.OwnerObject (Loading.RawList ["potion"; "potion"]))
  = (Loading.migrate ["potion"; "potion"],
     Some (Loading.RawDict (Loading.migrate ["potion"; "potion"]))) /\
  Loading._ensure_inventory_dict
    (Loading.OwnerObject (Loading.RawDict (Loading.migrate ["potion"; "potion"])))
  = (Loading.migrate ["potion"; "potion"],
     Some (Loading.RawDict (Loading.migrate ["potion"; "potion"]))).
Proof.
  assert (H : Loading._ensure_inventory_dict
                (Loading.OwnerObject (Loading.RawList ["potion"; "potion"]))
              = (Loading.migrate ["potion"; "potion"],
                 Some (Loading.RawDict (Loading.migrate ["potion"; "potion"]))))
    by reflexivity.
  exact (conj H
           (proj2 (proj2 (proj2 (proj2 (proj2 (proj2
              (legacy_inventory_becomes_counts ["potion"; "potion"]))))) _ _ _ H))).
Defined.

Lemma normalize_never_legacy (x : string) : Loading._normalize_item_id x <> "minor_potion".
Proof.
  unfold Loading._normalize_item_id.
  destruct (String.eqb_spec x "minor_potion"); [ discriminate | done ].
Qed.

Lemma count_fold (l : list string) : forall (m : gmap string Z) (k : string),
  get0 (fold_left
          (fun counts item_id =>
             <[Loading._normalize_item_id item_id :=
                 get0 counts (Loading._normalize_item_id item_id) + 1]> counts) l m) k
  = get0 m k + occurrences k (map Loading._normalize_item_id l).
Proof.
  induction l as [|x l IH]; simpl; intros m k; [ lia | ].
  rewrite IH, get0_insert.
  destruct (String.eqb_spec (Loading._normalize_item_id x) k) as [->|Hne].
  - rewrite decide_True by done. lia.
  - rewrite decide_False by done. lia.
Qed.

Lemma count_fold_keys (l : list string) : forall (m : gmap string Z),
  m !! "minor_potion" = None ->
  fold_left
    (fun counts item_id =>
       <[Loading._normalize_item_id item_id :=
           get0 counts (Loading._normalize_item_id item_id) + 1]> counts) l m
    !! "minor_potion" = None.
Proof.
  induction l as [|x l IH]; simpl; intros m Hm; [ done | ].
  apply IH. rewrite lookup_insert_ne; [ done | apply normalize_never_legacy ].
Qed.

Lemma dict_fold_keys (d : list (string * Z)) : forall (m : gmap string Z),
  m !! "minor_potion" = None ->
  fold_left (fun m (kv : string * Z) => <[Loading._normalize_item_id (fst kv) := snd kv]> m) d m
    !! "minor_potion" = None.
Proof.
  induction d as [|kv d IH]; simpl; intros m Hm; [ done | ].
  apply IH. rewrite lookup_insert_ne; [ done | apply normalize_never_legacy ].
Qed.

Lemma dict_fold_plain (d : list (string * Z)) : forall (m : gmap string Z) (k : string),
  Forall (fun kv => fst kv <> "minor_potion") d ->
  NoDup (map fst d) ->
  fold_left (fun m (kv : string * Z) => <[Loading._normalize_item_id (fst kv) := snd kv]> m) d m
    !! k
  = match od_get d k with
    | Some v => Some v
    | None => m !! k
    end.
Proof.
  induction d as [|[k' v] d IH]; simpl; intros m k Hplain Hnd; [ done | ].
  apply Forall_cons in Hplain as [Hk' Hplain]. apply NoDup_cons in Hnd as [Hfresh Hnd].
  simpl in Hk'. rewrite IH by done.
  assert (Hn : Loading._normalize_item_id k' = k').
  { unfold Loading._normalize_item_id. by destruct (String.eqb_spec k' "minor_potion"). }
  rewrite Hn.
  destruct (String.eqb_spec k' k) as [->|Hne].
  - rewrite lookup_insert_eq.
    assert (Hnone : od_get d k = None).
    { clear -Hfresh. induction d as [|[k2 v2] d IH]; simpl; [ done | ].
      simpl in Hfresh. destruct (String.eqb_spec k2 k) as [->|Hne].
      - exfalso. apply Hfresh. by left.
      - apply IH. intros Hin. apply Hfresh. by right. }
    by rewrite Hnone.
  - by rewrite lookup_insert_ne.
Qed.

Lemma occurrences_normalized (l : list string) :
  occurrences "potion_small" (map Loading._normalize_item_id l)
  = occurrences "potion_small" l + occurrences "minor_potion" l.
Proof.
  induction l as [|x l IH]; simpl; [ done | ]. rewrite IH.
  unfold Loading._normalize_item_id.
  destruct (String.eqb_spec x "minor_potion") as [->|Hne]; simpl; [ lia | ].
  destruct (String.eqb x "potion_small"); lia.
Qed.

(** X18. [_to_inventory_dict] never keeps the old id "minor_potion": it is
    counted as "potion_small". From a list the result holds each id as
    often as it, or its old spelling, is in the list. A dict without the
    old id comes back entry for entry. A dict with both spellings keeps the
    count of the later entry, not the sum. *)
Theorem saved_inventory_is_normalized :
  (forall inv, Loading._to_inventory_dict inv !! "minor_potion" = None) /\
  (forall l k,
     get0 (Loading._to_inventory_dict (Loading.SavedList l)) k
     = occurrences k (map Loading._normalize_item_id l)) /\
  (forall l,
     get0 (Loading._to_inventory_dict (Loading.SavedList l)) "potion_small"
     = occurrences "potion_small" l + occurrences "minor_potion" l) /\
  (forall d k,
     Forall (fun kv => fst kv <> "minor_potion") d -> NoDup (map fst d) ->
     Loading._to_inventory_dict (Loading.SavedDict d) !! k = od_get d k) /\
  (forall a b,
     Loading._to_inventory_dict (Loading.SavedDict [("minor_potion", a); ("potion_small", b)])
     = {[ "potion_small" := b ]}).
Proof.
  split.
  { intros [d|l|]; simpl;
      [ apply dict_fold_keys | apply count_fold_keys | ]; apply lookup_empty. }
  split; [ intros l k; simpl; rewrite count_fold; by rewrite get0_empty | ].
  split; [ intros l; simpl; rewrite count_fold, get0_empty, occurrences_normalized; lia | ].
  split.
  - intros d k Hplain Hnd. simpl. rewrite dict_fold_plain by done.
    rewrite lookup_empty. by destruct (od_get d k).
  - intros a b. simpl. change (Loading._normalize_item_id "minor_potion") with "potion_small".
    change (Loading._normalize_item_id "potion_small") with "potion_small".
    by rewrite insert_insert_eq, insert_empty.
Qed.

Lemma saved_inventory_is_normalized_witness :
  Forall (fun kv : string * Z => fst kv <> "minor_potion") [("potion_small", 2); ("blade", 1)] /\
  NoDup (map fst [("potion_small", 2); ("blade", 1)]) /\
  Loading._to_inventory_dict (Loading.SavedDict [("potion_small", 2); ("blade", 1)]) !! "blade"
  = Some 1.
Proof.
  assert (H1 : Forall (fun kv : string * Z => fst kv <> "minor_potion")
                 [("potion_small", 2); ("blade", 1)])
    by (repeat constructor; discriminate).
  assert (H2 : NoDup (map fst [("potion_small", 2); ("blade", 1)]))
    by (simpl; apply NoDup_cons; split;
        [ intros Hin%list_elem_of_singleton; discriminate | apply NoDup_singleton ]).
  exact (conj H1 (conj H2
           (proj1 (proj2 (proj2 (proj2 saved_inventory_is_normalized))) _ "blade" H1 H2))).
Defined.

(** ** Stat points *)

Lemma refund_insert_fresh (m : gmap string Z) (k : string) (v : Z) :
  m !! k = None -> refund (<[k := v]> m) = refund m + Z.max 0 (- v).
Proof.
  intros Hk. unfold refund. rewrite map_fold_insert_L; [ done | | done ].
  intros. lia.
Qed.

Lemma allocation_fold (spend : gmap string Z) (alloc : gmap string Z) :
  map_sum
    (map_fold (fun key value a => if value <=? 0 then a else <[key := get0 a key + value]> a)
       alloc spend)
  = map_sum alloc + map_sum spend + refund spend.
Proof.
  induction spend as [|k v spend Hk IH] using map_ind.
  - unfold map_sum at 3, refund. rewrite !map_fold_empty. lia.
  - rewrite map_fold_insert_L; [ | | done ].
    + rewrite map_sum_insert_fresh, refund_insert_fresh by done.
      destruct (Z.leb_spec v 0); [ lia | ].
      rewrite map_sum_insert. lia.
    + intros j1 j2 z1 z2 y Hne _ _.
      destruct (z1 <=? 0), (z2 <=? 0); try done.
      rewrite !get0_insert, !decide_False by done.
      by rewrite insert_insert_ne.
Qed.

Lemma refund_nonneg (spend : gmap string Z) : 0 <= refund spend.
Proof.
  induction spend as [|k v spend Hk IH] using map_ind.
  - unfold refund. by rewrite map_fold_empty.
  - rewrite refund_insert_fresh by done. lia.
Qed.

Lemma refund_zero (spend : gmap string Z) :
  map_Forall (fun _ v => 0 <= v) spend -> refund spend = 0.
Proof.
  induction spend as [|k v spend Hk IH] using map_ind; intros Hall.
  - unfold refund. by rewrite map_fold_empty.
  - rewrite refund_insert_fresh by done.
    apply map_Forall_insert in Hall as [Hv Hall]; [ | done ].
    rewrite IH by done. lia.
Qed.

Lemma sync_player_hp_points p items p' :
  App.sync_player_hp p items = Ok p' ->
  stat_points p' = stat_points p /\ allocated_stats p' = allocated_stats p.
Proof. unfold App.sync_player_hp. intros H. bind_step H. by injection H as <-. Qed.

(** X19. Allocating stat points moves them, it makes none: after
    [allocate_stat] the points in hand and the points allocated add up to
    what they were, and the points in hand do not go below zero; a request
    for less than one point spends one. [apply_stat_points] conserves them
    too when no entry of the spend dict is negative; a negative entry lowers
    the total that is paid but is skipped when the points are allocated, so
    the player ends up owning that many points more. *)
Theorem stat_points_are_conserved :
  (forall p key points items ok err p',
     App.allocate_stat p key points items = Ok (ok, err, p') ->
     points_owned p' = points_owned p /\
     (0 <= stat_points p -> 0 <= stat_points p') /\
     (ok = true -> stat_points p' = stat_points p - Z.max 1 points)) /\
  (forall p spend items p',
     App.apply_stat_points p spend items = Ok p' ->
     points_owned p' =
       points_owned p + (if stat_points p <? map_sum spend then 0 else refund spend) /\
     (map_Forall (fun _ v => 0 <= v) spend ->
      points_owned p' = points_owned p /\ (0 <= stat_points p -> 0 <= stat_points p'))).
Proof.
  split.
  - intros p key points items ok err p' H. unfold App.allocate_stat in H.
    destruct (negb _); [ injection H as <- <- <-; repeat split; [ done | discriminate ] | ].
    destruct (Z.ltb_spec (stat_points p) (Z.max 1 points));
      [ injection H as <- <- <-; repeat split; [ done | discriminate ] | ].
    bind_step H. injection H as <- <- <-.
    destruct (sync_player_hp_points _ _ _ E) as [Hsp Hal].
    unfold points_owned. rewrite Hsp, Hal. cbn [stat_points allocated_stats set_allocation].
    rewrite map_sum_insert. repeat split; lia.
  - intros p spend items p' H. unfold App.apply_stat_points in H.
    fold (map_sum spend) in H.
    destruct (Z.ltb_spec (stat_points p) (map_sum spend)).
    + injection H as <-. split; [ lia | ]. intros _. split; [ done | lia ].
    + destruct (sync_player_hp_points _ _ _ H) as [Hsp Hal].
      unfold points_owned. rewrite Hsp, Hal. cbn [stat_points allocated_stats set_allocation].
      rewrite allocation_fold. split; [ lia | ].
      intros Hall. rewrite (refund_zero _ Hall). split; lia.
Qed.

Lemma stat_points_are_conserved_witness :
  App.allocate_stat demo_rich "attack" 3 demo_items
    = Ok (true, None, set_allocation demo_player 1 {[ "attack" := 3 ]}) /\
  points_owned (set_allocation demo_player 1 {[ "attack" := 3 ]}) = points_owned demo_rich.
Proof.
  assert (H : App.allocate_stat demo_rich "attack" 3 demo_items
              = Ok (true, None, set_allocation demo_player 1 {[ "attack" := 3 ]}))
    by (vm_compute; reflexivity).
  exact (conj H (proj1 (proj1 stat_points_are_conserved _ _ _ _ _ _ _ H))).
Defined.

(** Five points for nothing: the negative entry pays for the positive one. *)
Lemma points_from_a_negative_entry :
  exists p',
    App.apply_stat_points demo_player {[ "attack" := 5; "magic" := -5 ]} demo_items = Ok p' /\
    stat_points demo_player = 0 /\ stat_points p' = 0 /\
    get0 (allocated_stats p') "attack" = get0 (allocated_stats demo_player) "attack" + 5 /\
    get0 (allocated_stats p') "magic" = get0 (allocated_stats demo_player) "magic".
Proof. eexists. split; [ vm_compute; reflexivity | ]. by vm_compute. Qed.

(** ** Loot *)

Lemma roll_entries_accounting table : forall g results,
  exists res g' es,
    Loot.roll_entries table g results = Ok (results ++ res, g') /\
    sublist es table /\ Forall2 within_entry es res /\
    Rng.tape g' = Rng.tape g /\
    Rng.cursor g' = (Rng.cursor g + length table + length res)%nat.
Proof.
  induction table as [|entry table IH]; intros g results.
  - exists [], g, []. rewrite app_nil_r. simpl. repeat split; [ constructor | constructor | lia ].
  - cbn [Loot.roll_entries]. unfold Rng.random, Rng.next.
    set (g1 := Rng.mkRng (Rng.tape g) (S (Rng.cursor g))).
    assert (Hskip : exists res g' es,
              Loot.roll_entries table g1 results = Ok (results ++ res, g') /\
              sublist es (entry :: table) /\ Forall2 within_entry es res /\
              Rng.tape g' = Rng.tape g /\
              Rng.cursor g' = (Rng.cursor g + length (entry :: table) + length res)%nat).
    { destruct (IH g1 results) as (res & g' & es & Hr & Hs & Hf & Ht & Hc).
      exists res, g', es. repeat split; [ exact Hr | by constructor | exact Hf | exact Ht | ].
      rewrite Hc. simpl. lia. }
    destruct (py_le _ _); [ | exact Hskip ].
    destruct (str_truthy (de_item entry)) eqn:Htruthy; [ | exact Hskip ].
    destruct (de_item entry) as [item_id|] eqn:Hitem; [ | discriminate ].
    simpl in Htruthy. apply negb_true_iff, String.eqb_neq in Htruthy.
    set (qty_min := default 1 (de_min entry)).
    set (qty_max := default qty_min (de_max entry)).
    unfold Rng.randint, Rng.randbelow, Rng.next.
    destruct (Z.ltb_spec (Z.max qty_min qty_max) (Z.min qty_min qty_max)); [ lia | ].
    cbn [rbind Rng.tape Rng.cursor g1].
    set (qty := Z.min qty_min qty_max + _).
    set (g2 := Rng.mkRng _ _).
    destruct (IH g2 (results ++ [(default "" (Some item_id), qty)]))
      as (res & g' & es & Hr & Hs & Hf & Ht & Hc).
    exists ((item_id, qty) :: res), g', (entry :: es).
    rewrite <- app_assoc in Hr. repeat split.
    + exact Hr.
    + by constructor.
    + constructor; [ | exact Hf ].
      repeat split; [ exact Hitem | exact Htruthy | | ]; cbn [snd]; fold qty_min qty_max;
        subst qty;
        pose proof (Z.mod_pos_bound (Z.of_N (Rng.tape g (S (Rng.cursor g))))
                      (Z.max qty_min qty_max - Z.min qty_min qty_max + 1)); lia.
    + exact Ht.
    + rewrite Hc. simpl. lia.
Qed.

(** X20. [roll_drop] never fails, whatever the table holds: it draws once for
    every entry of the table and once more for every drop, and the drops come
    in the order of the table, at most one for an entry, each with the
    entry's item and a quantity between the smaller and the larger of [min]
    and [max]. A table name that is not known gives no drop and no draw. *)
Theorem roll_drop_accounting (table_name : string) (ds : DataStore) (g : Rng.rng) :
  let table := default [] (ds_drop_tables ds !! table_name) in
  exists res g' es,
    Loot.roll_drop table_name ds g = Ok (res, g') /\
    sublist es table /\ Forall2 within_entry es res /\
    Rng.tape g' = Rng.tape g /\
    Rng.cursor g' = (Rng.cursor g + length table + length res)%nat /\
    (ds_drop_tables ds !! table_name = None -> res = [] /\ g' = g).
Proof.
  intros table. unfold Loot.roll_drop. fold table.
  destruct (roll_entries_accounting table g []) as (res & g' & es & Hr & Hs & Hf & Ht & Hc).
  exists res, g', es. repeat split; try assumption.
  - subst table. destruct (ds_drop_tables ds !! table_name); [ discriminate | ].
    simpl in Hr. by injection Hr.
  - subst table. destruct (ds_drop_tables ds !! table_name); [ discriminate | ].
    simpl in Hr. by injection Hr.
Qed.

Lemma roll_drop_accounting_witness :
  ds_drop_tables demo_ds !! "no_such_table" = None /\
  exists res g',
    Loot.roll_drop "no_such_table" demo_ds demo_rng = Ok (res, g') /\ res = [] /\ g' = demo_rng.
Proof.
  assert (H : ds_drop_tables demo_ds !! "no_such_table" = None) by reflexivity.
  split; [ exact H | ].
  destruct (roll_drop_accounting "no_such_table" demo_ds demo_rng)
    as (res & g' & es & Hr & _ & _ & _ & _ & Hn).
  exists res, g'. destruct (Hn H) as [Hres Hg]. auto.
Defined.

(** ** The end of a battle *)

Lemma bank_drops_spec (drop_list : list (string * Z)) : forall p,
  (forall item_id,
     get0 (inventory (Controller.bank_drops p drop_list)) item_id
     = get0 (inventory p) item_id + banked item_id drop_list) /\
  same_but_inventory p (Controller.bank_drops p drop_list).
Proof.
  induction drop_list as [|[k q] l IH]; intros p.
  - split; [ intros i; unfold banked; simpl; lia | by repeat split ].
  - cbn [Controller.bank_drops fold_left fst snd].
    destruct (IH (add_item_to_inventory p k q)) as [Hinv Hrest]. split.
    + intros i. unfold Controller.bank_drops in Hinv. rewrite Hinv.
      unfold banked. cbn [map sum_list fst snd].
      unfold add_item_to_inventory. cbn [inventory set_inventory].
      rewrite get0_insert. case_decide; subst; lia.
    + exact Hrest.
Qed.

(** X21. [finish_battle] pays a win and only a win. After a win with a battle
    in course, also when clearing the stage then fails, the player's level,
    exp and stat points are those [gain_exp] gives for the exp of the result,
    the threshold shown is the one of the new level and lies above the exp
    held, and every drop of the result is in the inventory: its quantity, or
    one copy when the quantity is below one; hp, effects and equipment are
    as they were, and a win without a stage (a special boss) leaves the
    dungeon progress alone. After anything else than a win nothing is gained
    and no stage is cleared: the call only sets the hp to the total max hp. *)
Theorem finish_battle_rewards
    (py_int : string -> result Z) (py_str : Z -> result string)
    (data_items : gmap string item_def) (result : BattleResult)
    (c c' : Controller.game) (o : Controller.outcome) :
  Controller.finish_battle py_int py_str data_items result c = (c', o) ->
  let p := Controller.g_player c in
  let p' := Controller.g_player c' in
  (winner result = "player" -> Controller.current_battle c <> None ->
     let earned := fst (gain_exp p (exp_reward result)) in
     level p' = level earned /\ exp p' = exp earned /\ stat_points p' = stat_points earned /\
     Entities.exp_to_next p' = exp_to_next (level p') /\
     exp p' < Entities.exp_to_next p' /\
     (forall item_id,
        get0 (inventory p') item_id
        = get0 (inventory p) item_id + banked item_id (drop_details result)) /\
     p_actor p' = p_actor p /\ equipment p' = equipment p /\
     (Controller.last_zone_stage c = None ->
      Controller.dungeon_progress c' = Controller.dungeon_progress c) /\
     (o = Controller.Returned -> Controller.current_battle c' = None)) /\
  (winner result <> "player" ->
     inventory p' = inventory p /\ level p' = level p /\ exp p' = exp p /\
     stat_points p' = stat_points p /\
     Controller.dungeon_progress c' = Controller.dungeon_progress c /\
     (o = Controller.Returned ->
      exists s, total_stats p (Some data_items) = Ok s /\
                hp (p_actor p') = PInt (max_hp s) /\
                Controller.current_battle c' = None)).
Proof.
  intros H p p'. unfold Controller.finish_battle in H. fold p in H. split.
  - intros Hw Hb. rewrite Hw in H. cbn [String.eqb Ascii.eqb Bool.eqb] in H.
    intros earned. subst earned.
    pose proof (level_up_loop_spec (level p) (exp p + exp_reward result) (stat_points p)
                  [LogExp (exp_reward result)]) as Hspec.
    unfold gain_exp in *.
    destruct (level_up_loop _ _ _ _) as [[[lv ex] sp] logs]. destruct Hspec as [_ Hlt].
    destruct (Controller.current_battle c) as [battle_logs|]; [ clear Hb | done ].
    set (p2 := Controller.set_exp_to_next _ _) in H.
    destruct (bank_drops_spec (drop_details result) p2) as [Hinv Hsame].
    destruct Hsame as (Ha & Hl & He & Hn & Hs & Hq & _).
    assert (Hp' : p' = Controller.bank_drops p2 (drop_details result) /\
                  (Controller.last_zone_stage c = None ->
                   Controller.dungeon_progress c' = Controller.dungeon_progress c) /\
                  (o = Controller.Returned -> Controller.current_battle c' = None)).
    { subst p'. destruct (Controller.last_zone_stage c) as [[zone stage]|].
      - destruct (Dungeon.clear_stage _ _ _ _ _) as [dp [e|]];
          injection H as <- <-; repeat split; try discriminate; reflexivity.
      - injection H as <- <-. repeat split. }
    destruct Hp' as (-> & Hd & Hr).
    rewrite Hl, He, Hs, Hn, Ha, Hq. cbn.
    repeat split; assumption.
  - intros Hw. apply String.eqb_neq in Hw. rewrite Hw in H.
    destruct (total_stats p (Some data_items)) as [s|e] eqn:Hs.
    + injection H as <- <-. subst p'. cbn. repeat split; eauto.
    + injection H as <- <-. subst p'. repeat split; discriminate.
Qed.

Lemma finish_battle_rewards_witness :
  winner demo_win = "player" /\ drop_details demo_win = [("jelly", 0)] /\
  get0 (inventory (Controller.g_player demo_game)) "jelly" = 0 /\
  get0 (inventory (Controller.g_player
          (fst (Controller.finish_battle dec_int dec_str demo_items demo_win demo_game))))
    "jelly" = 1.
Proof.
  assert (Hw : winner demo_win = "player") by reflexivity.
  assert (Hb : Controller.current_battle demo_game <> None) by discriminate.
  pose proof (proj1 (finish_battle_rewards dec_int dec_str demo_items demo_win demo_game _ _
                       (surjective_pairing _)) Hw Hb)
    as (_ & _ & _ & _ & _ & Hi & _).
  repeat split. rewrite Hi. reflexivity.
Defined.
